(** * org: outline parser, document model and serializer

    A shallow embedding of [org.go] and of the tree operations and the
    dialogs of [ui.go].

    Go values are modelled as follows.
    - A Go [string] is a sequence of bytes: [list ascii].
    - A [*Item] is an address into a store of items ([list Item], the
      address of a cell is its index); [&Item{...}] allocates the next
      free cell.  A [[]*Item] is a [list ptr].  Assigning through a
      pointer is an update of the store at that address.
    - A nil-able [*time.Time] is an [option Time].
    - The three library packages the code leans on ([regexp], [strings],
      [bufio]) are modelled by the functions of the first part of the
      file, one per pattern or call that occurs in the source; package
      [time] is an interface ([TimeLib]) with one concrete instance,
      and so are the durations between times ([DurationLib]); what the
      deadline dialog asks of [fmt] and [time] is an interface
      ([InputLib]). *)

From Stdlib Require Import Ascii String List Arith NArith ZArith Bool Lia.
From stdpp Require Import base list strings.
Import ListNotations.

Local Open Scope list_scope.
Local Open Scope char_scope.

(** ** Byte strings *)

Definition gostring := list ascii.

(** A string literal of the source. *)
Definition str (s : string) : gostring := list_ascii_of_string s.
Arguments str : simpl never.

Definition LF : ascii := "010".
Definition CR : ascii := "013".

Definition is_nil {A} (l : list A) : bool :=
  match l with [] => true | _ => false end.

Fixpoint bytes_eqb (a b : gostring) : bool :=
  match a, b with
  | [], [] => true
  | x :: a', y :: b' => Ascii.eqb x y && bytes_eqb a' b'
  | _, _ => false
  end.

Fixpoint takeWhile {A} (p : A -> bool) (l : list A) : list A :=
  match l with
  | x :: l' => if p x then x :: takeWhile p l' else []
  | [] => []
  end.

Fixpoint dropWhile {A} (p : A -> bool) (l : list A) : list A :=
  match l with
  | x :: l' => if p x then dropWhile p l' else l
  | [] => []
  end.

(** [strip_prefix pre s] is [Some r] when [s = pre ++ r]. *)
Fixpoint strip_prefix (pre s : gostring) : option gostring :=
  match pre, s with
  | [], _ => Some s
  | c :: pre', d :: s' => if Ascii.eqb c d then strip_prefix pre' s' else None
  | _ :: _, [] => None
  end.

(** The first position of [s], from the left, at which [f] succeeds:
    how an unanchored pattern is searched. *)
Fixpoint find_first {A} (f : gostring -> option A) (s : gostring) : option A :=
  match f s with
  | Some x => Some x
  | None => match s with
            | [] => None
            | _ :: s' => find_first f s'
            end
  end.

(** ** Package strings *)

(** [strings.Contains(s, substr)]. *)
Definition Contains (s substr : gostring) : bool :=
  match find_first (strip_prefix substr) s with Some _ => true | None => false end.

(** [strings.Repeat] of a one-byte string. *)
Definition Repeat (c : ascii) (n : nat) : gostring := repeat c n.

(** White space as [unicode.IsSpace] has it, on the UTF-8 encoding:
    the six ASCII characters, U+0085, U+00A0, U+1680, U+2000..U+200A,
    U+2028, U+2029, U+202F, U+205F and U+3000. *)
Definition ascii_space (c : ascii) : bool :=
  Ascii.eqb c "009" || Ascii.eqb c "010" || Ascii.eqb c "011" ||
  Ascii.eqb c "012" || Ascii.eqb c "013" || Ascii.eqb c " ".

Definition space2 (c1 c2 : ascii) : bool :=
  Ascii.eqb c1 "194" && (Ascii.eqb c2 "133" || Ascii.eqb c2 "160").

Definition space3 (c1 c2 c3 : ascii) : bool :=
  (Ascii.eqb c1 "225" && Ascii.eqb c2 "154" && Ascii.eqb c3 "128") ||
  (Ascii.eqb c1 "226" && Ascii.eqb c2 "128" &&
     ((128 <=? nat_of_ascii c3)%nat && (nat_of_ascii c3 <=? 138)%nat
      || Ascii.eqb c3 "168" || Ascii.eqb c3 "169" || Ascii.eqb c3 "175")) ||
  (Ascii.eqb c1 "226" && Ascii.eqb c2 "129" && Ascii.eqb c3 "159") ||
  (Ascii.eqb c1 "227" && Ascii.eqb c2 "128" && Ascii.eqb c3 "128").

(** Leading white-space runes removed. *)
Fixpoint trimLeft (s : gostring) : gostring :=
  match s with
  | [] => []
  | c1 :: t1 =>
      if ascii_space c1 then trimLeft t1 else
      match t1 with
      | [] => s
      | c2 :: t2 =>
          if space2 c1 c2 then trimLeft t2 else
          match t2 with
          | [] => s
          | c3 :: t3 => if space3 c1 c2 c3 then trimLeft t3 else s
          end
      end
  end.

(** Trailing white-space runes removed: the longest suffix made of
    white-space runes only is cut. *)
Fixpoint trimRight (s : gostring) : gostring :=
  match s with
  | [] => []
  | c :: t => if is_nil (trimLeft s) then [] else c :: trimRight t
  end.

(** [strings.TrimSpace]. *)
Definition TrimSpace (s : gostring) : gostring := trimRight (trimLeft s).

(** ** Package regexp: the eight patterns of org.go

    Each pattern is matched by a function written after its
    structure.  [\s] is the class [[\t\n\f\r ]]; [.] is any character
    but a newline; [$] is the end of the text.  Greedy repetitions
    take the longest run first and give characters back only where a
    shorter run can make the rest of the pattern match. *)

Definition re_space (c : ascii) : bool :=
  Ascii.eqb c "009" || Ascii.eqb c "010" || Ascii.eqb c "012" ||
  Ascii.eqb c "013" || Ascii.eqb c " ".

Definition is_char (c d : ascii) : bool := Ascii.eqb c d.
Definition not_char (c d : ascii) : bool := negb (Ascii.eqb c d).

(** [(.+)$] : what is left of the text, at least one character, no
    newline among them. *)
Definition dot_plus_eol (s : gostring) : bool :=
  negb (is_nil s) && forallb (not_char LF) s.

(** [\s+(.+)$] where the white space may take [k], [k-1], ..., [1]
    characters of [s], tried in that order. *)
Fixpoint ws_then_title (k : nat) (s : gostring) : option gostring :=
  match k with
  | 0 => None
  | S k' => if dot_plus_eol (drop k s) then Some (drop k s)
            else ws_then_title k' s
  end.

Definition StateTODO : gostring := str "TODO".
Definition StatePROG : gostring := str "PROG".
Definition StateBLOCK : gostring := str "BLOCK".
Definition StateDONE : gostring := str "DONE".
Definition StateNone : gostring := [].

(** [(TODO|PROG|BLOCK|DONE)\s+(.+)$] at the start of [s]: the
    alternatives in their order. *)
Fixpoint keyword_then_title (kws : list gostring) (s : gostring)
  : option (gostring * gostring) :=
  match kws with
  | [] => None
  | kw :: kws' =>
      match strip_prefix kw s with
      | Some r =>
          match ws_then_title (length (takeWhile re_space r)) r with
          | Some title => Some (kw, title)
          | None => keyword_then_title kws' s
          end
      | None => keyword_then_title kws' s
      end
  end.

(** [\s+(?:(TODO|PROG|BLOCK|DONE)\s+)?(.+)$] where the first white
    space takes [k], [k-1], ..., [1] characters of [s]; the optional
    group is tried before it is skipped.  An absent group is the
    empty string, as in [FindStringSubmatch]. *)
Fixpoint ws_then_heading (k : nat) (s : gostring)
  : option (gostring * gostring) :=
  match k with
  | 0 => None
  | S k' =>
      match keyword_then_title [StateTODO; StatePROG; StateBLOCK; StateDONE]
                               (drop k s) with
      | Some r => Some r
      | None => if dot_plus_eol (drop k s) then Some ([], drop k s)
                else ws_then_heading k' s
      end
  end.

(** [^(\*+)\s+(?:(TODO|PROG|BLOCK|DONE)\s+)?(.+)$] : the three groups.
    The markers are all the leading stars: with fewer of them the next
    character would be a star, which [\s] refuses. *)
Definition headingPattern (line : gostring)
  : option (gostring * gostring * gostring) :=
  let stars := takeWhile (is_char "*") line in
  let rest := dropWhile (is_char "*") line in
  if is_nil stars then None else
  match ws_then_heading (length (takeWhile re_space rest)) rest with
  | Some (kw, title) => Some (stars, kw, title)
  | None => None
  end.

(** [open ([^close]+) close] at the start of [s]: the group and what
    follows the closing character. *)
Definition delimited (opening closing : ascii) (s : gostring)
  : option (gostring * gostring) :=
  match s with
  | c :: r =>
      if Ascii.eqb c opening then
        match dropWhile (not_char closing) r with
        | _ :: after =>
            if is_nil (takeWhile (not_char closing) r) then None
            else Some (takeWhile (not_char closing) r, after)
        | [] => None
        end
      else None
  | [] => None
  end.

(** [KEY\s*<([^>]+)>] at the start of [s]. *)
Definition angle_directive_at (key s : gostring) : option gostring :=
  match strip_prefix key s with
  | Some r => option_map fst (delimited "<" ">" (dropWhile re_space r))
  | None => None
  end.

(** [SCHEDULED:\s*<([^>]+)>], leftmost match, group 1. *)
Definition scheduledPattern (line : gostring) : option gostring :=
  find_first (angle_directive_at (str "SCHEDULED:")) line.

(** [DEADLINE:\s*<([^>]+)>], leftmost match, group 1. *)
Definition deadlinePattern (line : gostring) : option gostring :=
  find_first (angle_directive_at (str "DEADLINE:")) line.

(** [CLOCK:\s*\[([^\]]+)\](?:--\[([^\]]+)\])?] at the start of [s]:
    groups 1 and 2, the second empty when its group took no part. *)
Definition clock_at (s : gostring) : option (gostring * gostring) :=
  match strip_prefix (str "CLOCK:") s with
  | Some r =>
      match delimited "[" "]" (dropWhile re_space r) with
      | Some (g1, after) =>
          match strip_prefix (str "--") after with
          | Some r2 =>
              match delimited "[" "]" r2 with
              | Some (g2, _) => Some (g1, g2)
              | None => Some (g1, [])
              end
          | None => Some (g1, [])
          end
      | None => None
      end
  | None => None
  end.

Definition clockPattern (line : gostring) : option (gostring * gostring) :=
  find_first clock_at line.

(** [^\s*KEY\s*$]. *)
Definition whole_line_key (key line : gostring) : bool :=
  match strip_prefix key (dropWhile re_space line) with
  | Some r => forallb re_space r
  | None => false
  end.

(** [^\s*KEY]. *)
Definition line_starts_key (key line : gostring) : bool :=
  match strip_prefix key (dropWhile re_space line) with
  | Some _ => true
  | None => false
  end.

Definition drawerStart : gostring -> bool := whole_line_key (str ":LOGBOOK:").
Definition drawerEnd : gostring -> bool := whole_line_key (str ":END:").
Definition codeBlockStart : gostring -> bool := line_starts_key (str "#+BEGIN_SRC").
Definition codeBlockEnd : gostring -> bool := line_starts_key (str "#+END_SRC").

(** ** Package bufio: Scanner with the default split function

    [ScanLines] cuts the input at every newline, the last line need not
    be terminated, and one trailing carriage return of a line is dropped.
    A line of [bufio.MaxScanTokenSize] bytes or more does not fit the
    scanner's buffer and stops the scan with [ErrTooLong]. *)

Fixpoint rawLines (text : gostring) : list gostring :=
  match text with
  | [] => []
  | c :: t =>
      if Ascii.eqb c LF then [] :: rawLines t
      else match rawLines t with
           | [] => [[c]]
           | l :: ls => (c :: l) :: ls
           end
  end.

Fixpoint dropCR (l : gostring) : gostring :=
  match l with
  | [] => []
  | [c] => if Ascii.eqb c CR then [] else [c]
  | c :: l' => c :: dropCR l'
  end.

Definition MaxScanTokenSize : N := 65536%N.

Definition fits (l : gostring) : bool :=
  (N.of_nat (length l) <? MaxScanTokenSize)%N.

(** All the lines of [text], or nothing when the scan stops with an
    error. *)
Definition scanLines (text : gostring) : option (list gostring) :=
  if forallb fits (rawLines text) then Some (map dropCR (rawLines text))
  else None.

(** ** Package time

    The four layouts of org.go, and what the code asks of the
    package: parsing a text against a layout, formatting, the current
    time (an argument of the operations that read the clock). *)

Class TimeLib := {
  Time : Type;
  time_Parse : gostring -> gostring -> option Time;
  time_Format : Time -> gostring -> gostring
}.

(** A model of package time for the layouts of org.go and ui.go,
    which are made of the year [2006], the month [01], the day [02], the weekday
    [Mon], the hour [15], the minute [04], the second [05] and single
    separating characters.  A parsed time is in UTC, so a time is its
    civil fields. *)
Module GoTime.

Record t := mk {
  year : nat; month : nat; day : nat;
  hour : nat; minute : nat; second : nat; nsec : N
}.

Inductive chunk :=
| stdLongYear | stdZeroMonth | stdZeroDay | stdWeekDay
| stdHour | stdZeroMinute | stdZeroSecond
| literal (c : ascii).

(** The layout cut into its chunks ([nextStdChunk], for the chunks
    above); [fuel] bounds the number of chunks. *)
Fixpoint chunks (fuel : nat) (layout : gostring) : list chunk :=
  match fuel with
  | 0 => []
  | S fuel' =>
      let try (key : string) (c : chunk) (otherwise : list chunk) :=
        match strip_prefix (str key) layout with
        | Some r => c :: chunks fuel' r
        | None => otherwise
        end in
      try "2006"%string stdLongYear (
      try "01"%string stdZeroMonth (
      try "02"%string stdZeroDay (
      try "Mon"%string stdWeekDay (
      try "15"%string stdHour (
      try "04"%string stdZeroMinute (
      try "05"%string stdZeroSecond (
      match layout with
      | c :: r => literal c :: chunks fuel' r
      | [] => []
      end)))))))
  end.

Definition isDigit (s : gostring) (i : nat) : bool :=
  match s !! i with
  | Some c => (48 <=? nat_of_ascii c)%nat && (nat_of_ascii c <=? 57)%nat
  | None => false
  end.

Definition digit (c : ascii) : nat := nat_of_ascii c - 48.

(** [getnum]: one or two digits, exactly two when [fixed]. *)
Definition getnum (s : gostring) (fixed : bool) : option (nat * gostring) :=
  if negb (isDigit s 0) then None
  else if negb (isDigit s 1) then
    if fixed then None
    else match s with
         | c :: r => Some (digit c, r)
         | [] => None
         end
  else match s with
       | c :: d :: r => Some (digit c * 10 + digit d, r)
       | _ => None
       end.

(** The decimal value of a run of digits. *)
Definition atoi_digits (s : gostring) : nat :=
  fold_left (fun n c => n * 10 + digit c) s 0.

Definition all_digits (s : gostring) : bool :=
  forallb (fun c => (48 <=? nat_of_ascii c)%nat && (nat_of_ascii c <=? 57)%nat) s.

(** [match]: equal up to the case of letters. *)
Definition lower (c : ascii) : nat :=
  let n := nat_of_ascii c in
  if (65 <=? n)%nat && (n <=? 90)%nat then n + 32 else n.

Definition match_fold (c d : ascii) : bool :=
  Ascii.eqb c d ||
  ((lower c =? lower d)%nat && (97 <=? lower c)%nat && (lower c <=? 122)%nat).

Fixpoint match_name (name s : gostring) : option gostring :=
  match name, s with
  | [], _ => Some s
  | c :: name', d :: s' => if match_fold d c then match_name name' s' else None
  | _ :: _, [] => None
  end.

Definition shortDayNames : list gostring :=
  [str "Sun"; str "Mon"; str "Tue"; str "Wed"; str "Thu"; str "Fri"; str "Sat"].

(** [lookup]: the first name of the table the value starts with. *)
Fixpoint lookup (tab : list gostring) (val : gostring) : option gostring :=
  match tab with
  | [] => None
  | v :: tab' => match match_name v val with
                 | Some r => Some r
                 | None => lookup tab' val
                 end
  end.

Definition isLeap (y : nat) : bool :=
  (y mod 4 =? 0)%nat && (negb (y mod 100 =? 0)%nat || (y mod 400 =? 0)%nat).

Definition daysIn (m y : nat) : nat :=
  match m with
  | 2 => if isLeap y then 29 else 28
  | 4 | 6 | 9 | 11 => 30
  | _ => 31
  end.

(** [skip] of one layout character: a space of the layout stands for
    any run of spaces of the value. *)
Definition skip (value : gostring) (c : ascii) : option gostring :=
  if Ascii.eqb c " " then
    match value with
    | d :: _ => if Ascii.eqb d " " then Some (dropWhile (is_char " ") value)
                else None
    | [] => Some []
    end
  else
    match value with
    | d :: r => if Ascii.eqb d c then Some r else None
    | [] => None
    end.

(** A fraction after the seconds, which the layouts do not mention:
    the digits consumed and the nanoseconds they stand for. *)
Definition fraction (value : gostring) : N * gostring :=
  match value with
  | c :: r =>
      if (Ascii.eqb c "." || Ascii.eqb c ",") && isDigit r 0 then
        let ds := take 9 (takeWhile (fun c => isDigit [c] 0) r) in
        ((N.of_nat (atoi_digits ds) * 10 ^ N.of_nat (9 - length ds))%N,
         dropWhile (fun c => isDigit [c] 0) r)
      else (0%N, value)
  | [] => (0%N, value)
  end.

Fixpoint parse (cs : list chunk) (value : gostring) (acc : t) : option t :=
  match cs with
  | [] =>
      if is_nil value then
        if (1 <=? day acc)%nat && (day acc <=? daysIn (month acc) (year acc))%nat
        then Some acc else None
      else None
  | literal c :: cs' =>
      match skip value c with
      | Some value' => parse cs' value' acc
      | None => None
      end
  | stdLongYear :: cs' =>
      if (4 <=? length value)%nat && all_digits (take 4 value) then
        parse cs' (drop 4 value)
              (mk (atoi_digits (take 4 value)) (month acc) (day acc) (hour acc)
                  (minute acc) (second acc) (nsec acc))
      else None
  | stdZeroMonth :: cs' =>
      match getnum value true with
      | Some (m, value') =>
          if (1 <=? m)%nat && (m <=? 12)%nat then
            parse cs' value' (mk (year acc) m (day acc) (hour acc) (minute acc)
                                 (second acc) (nsec acc))
          else None
      | None => None
      end
  | stdZeroDay :: cs' =>
      match getnum value true with
      | Some (d, value') =>
          parse cs' value' (mk (year acc) (month acc) d (hour acc) (minute acc)
                               (second acc) (nsec acc))
      | None => None
      end
  | stdWeekDay :: cs' =>
      match lookup shortDayNames value with
      | Some value' => parse cs' value' acc
      | None => None
      end
  | stdHour :: cs' =>
      match getnum value false with
      | Some (x, value') =>
          if (x <? 24)%nat then
            parse cs' value' (mk (year acc) (month acc) (day acc) x (minute acc)
                                 (second acc) (nsec acc))
          else None
      | None => None
      end
  | stdZeroMinute :: cs' =>
      match getnum value true with
      | Some (x, value') =>
          if (x <? 60)%nat then
            parse cs' value' (mk (year acc) (month acc) (day acc) (hour acc) x
                                 (second acc) (nsec acc))
          else None
      | None => None
      end
  | stdZeroSecond :: cs' =>
      match getnum value true with
      | Some (x, value') =>
          if (x <? 60)%nat then
            let '(ns, value'') := fraction value' in
            parse cs' value'' (mk (year acc) (month acc) (day acc) (hour acc)
                                  (minute acc) x ns)
          else None
      | None => None
      end
  end.

(** [time.Parse(layout, value)]. *)
Definition Parse (layout value : gostring) : option t :=
  parse (chunks (length layout) layout) value (mk 0 1 1 0 0 0 0%N).

(** The day of the week, Sunday first (Zeller's rule for the
    proleptic Gregorian calendar).  January and February count with
    the year before; the weekdays repeat every 400 years, so the rule
    is applied 400 years later, where the year before year 0 is a
    natural number too. *)
Definition weekday (x : t) : nat :=
  let m := if (month x <? 3)%nat then month x + 12 else month x in
  let y := if (month x <? 3)%nat then year x + 399 else year x + 400 in
  let k := y mod 100 in
  let j := y / 100 in
  (day x + (13 * (m + 1)) / 5 + k + k / 4 + j / 4 + 5 * j + 6) mod 7.

Fixpoint decimal (fuel n : nat) (acc : gostring) : gostring :=
  match fuel with
  | 0 => acc
  | S fuel' =>
      let acc' := ascii_of_nat (48 + n mod 10) :: acc in
      if (n <? 10)%nat then acc' else decimal fuel' (n / 10) acc'
  end.

(** [appendInt]: decimal, padded with zeros to [width]. *)
Definition appendInt (n width : nat) : gostring :=
  let ds := decimal (S n) n [] in
  repeat "0" (width - length ds) ++ ds.

Definition format1 (x : t) (c : chunk) : gostring :=
  match c with
  | stdLongYear => appendInt (year x) 4
  | stdZeroMonth => appendInt (month x) 2
  | stdZeroDay => appendInt (day x) 2
  | stdWeekDay => nth (weekday x) shortDayNames []
  | stdHour => appendInt (hour x) 2
  | stdZeroMinute => appendInt (minute x) 2
  | stdZeroSecond => appendInt (second x) 2
  | literal c => [c]
  end.

(** [t.Format(layout)]. *)
Definition Format (x : t) (layout : gostring) : gostring :=
  concat (map (format1 x) (chunks (length layout) layout)).

End GoTime.

#[export] Instance goTime : TimeLib := {|
  Time := GoTime.t;
  time_Parse := GoTime.Parse;
  time_Format := GoTime.Format
|}.

(** ** Packages strings, time and fmt in ui.go

    The calls of ui.go and of the clock methods of org.go that the
    parser and the serializer do not make. *)

(** [strings.HasPrefix]. *)
Definition HasPrefix (s prefix : gostring) : bool :=
  match strip_prefix prefix s with Some _ => true | None => false end.

(** [strings.TrimPrefix]. *)
Definition TrimPrefix (s prefix : gostring) : gostring :=
  match strip_prefix prefix s with Some r => r | None => s end.

(** [strings.Split] at a one-byte separator: the pieces between the
    separators, one piece more than there are separators. *)
Fixpoint Split (s : gostring) (sep : ascii) : list gostring :=
  match s with
  | [] => [[]]
  | c :: t =>
      if Ascii.eqb c sep then [] :: Split t sep
      else match Split t sep with
           | piece :: pieces => (c :: piece) :: pieces
           | [] => [[c]]
           end
  end.

(** [strings.Join] with a one-byte separator. *)
Fixpoint Join (elems : list gostring) (sep : ascii) : gostring :=
  match elems with
  | [] => []
  | [e] => e
  | e :: elems' => e ++ sep :: Join elems' sep
  end.

(** The difference of two times is a [time.Duration], a signed 64-bit
    count of nanoseconds; sums of durations wrap around. *)
Class DurationLib {TL : TimeLib} := {
  time_Sub : Time -> Time -> Z
}.

Definition int64 (z : Z) : Z := ((z + 2 ^ 63) mod 2 ^ 64 - 2 ^ 63)%Z.

(** [t.Sub(u)] on the times of [GoTime]: the nanoseconds from [u] to
    [t], cut to the range of a [Duration]. *)
Module GoDuration.

(** The days from 1 January of year 0 to the day of [x]: 365 for
    every year before, one more for every leap year before, the
    months before in the year, the days before in the month. *)
Definition days (x : GoTime.t) : Z :=
  let y := Z.of_nat (GoTime.year x) in
  (365 * y + ((y - 1) / 4 - (y - 1) / 100 + (y - 1) / 400 + 1)
   + Z.of_nat (list_sum (map (fun m => GoTime.daysIn m (GoTime.year x))
                             (seq 1 (GoTime.month x - 1))))
   + (Z.of_nat (GoTime.day x) - 1))%Z.

Definition nanoseconds (x : GoTime.t) : Z :=
  ((days x * 86400 + Z.of_nat (GoTime.hour x) * 3600
    + Z.of_nat (GoTime.minute x) * 60 + Z.of_nat (GoTime.second x)) * 1000000000
   + Z.of_N (GoTime.nsec x))%Z.

Definition Sub (t u : GoTime.t) : Z :=
  Z.max (- 2 ^ 63) (Z.min (2 ^ 63 - 1) (nanoseconds t - nanoseconds u)).

End GoDuration.

#[export] Instance goDuration : @DurationLib goTime := {|
  time_Sub := GoDuration.Sub
|}.

(** What ui.go asks of packages fmt and time beyond org.go:
    [fmt.Sscanf(s, "%d", &n)] (the number read, or nothing on an
    error) and [t.AddDate(years, months, days)]. *)
Class InputLib {TL : TimeLib} := {
  Sscanf_d : gostring -> option Z;
  time_AddDate : Time -> Z -> Z -> Z -> Time
}.

(** ** The data model of org.go *)

(** An address of the store. *)
Abbreviation ptr := nat (only parsing).

Section Org.

Context {TL : TimeLib}.

Record ClockEntry := mkClockEntry {
  Start : Time;
  End : option Time          (* nil if currently clocked in *)
}.

Record Item := mkItem {
  Level : nat;               (* number of stars *)
  State : gostring;          (* TODO, PROG, BLOCK, DONE, or empty *)
  Title : gostring;
  Scheduled : option Time;
  Deadline : option Time;
  Notes : list gostring;
  Children : list ptr;
  Folded : bool;
  ClockEntries : list ClockEntry
}.

Record OrgFile := mkOrgFile {
  Path : gostring;
  Items : list ptr
}.

Definition set_State (v : gostring) (it : Item) : Item :=
  mkItem (Level it) v (Title it) (Scheduled it) (Deadline it) (Notes it)
         (Children it) (Folded it) (ClockEntries it).

Definition set_Scheduled (v : option Time) (it : Item) : Item :=
  mkItem (Level it) (State it) (Title it) v (Deadline it) (Notes it)
         (Children it) (Folded it) (ClockEntries it).

Definition set_Deadline (v : option Time) (it : Item) : Item :=
  mkItem (Level it) (State it) (Title it) (Scheduled it) v (Notes it)
         (Children it) (Folded it) (ClockEntries it).

Definition set_Notes (v : list gostring) (it : Item) : Item :=
  mkItem (Level it) (State it) (Title it) (Scheduled it) (Deadline it) v
         (Children it) (Folded it) (ClockEntries it).

Definition set_Children (v : list ptr) (it : Item) : Item :=
  mkItem (Level it) (State it) (Title it) (Scheduled it) (Deadline it)
         (Notes it) v (Folded it) (ClockEntries it).

Definition set_ClockEntries (v : list ClockEntry) (it : Item) : Item :=
  mkItem (Level it) (State it) (Title it) (Scheduled it) (Deadline it)
         (Notes it) (Children it) (Folded it) v.

(** ** Timestamps *)

(** The first layout, in order, that parses the text. *)
Fixpoint first_layout (formats : list gostring) (s : gostring) : option Time :=
  match formats with
  | [] => None
  | format :: formats' =>
      match time_Parse format s with
      | Some t => Some t
      | None => first_layout formats' s
      end
  end.

Definition parseOrgDate (dateStr : gostring) : option Time :=
  first_layout [str "2006-01-02 Mon 15:04"; str "2006-01-02 Mon";
                str "2006-01-02"] dateStr.

Definition parseClockTimestamp (timestampStr : gostring) : option Time :=
  first_layout [str "2006-01-02 Mon 15:04"; str "2006-01-02 Mon 15:04:05"]
               timestampStr.

Definition formatClockTimestamp (t : Time) : gostring :=
  time_Format t (str "2006-01-02 Mon 15:04").

Definition formatOrgDate (t : Time) : gostring :=
  time_Format t (str "2006-01-02 Mon").

(** ** ParseOrgFile

    The state of the scanning loop: the store the items live in, the
    file under construction and the four local variables.  [itemStack]
    is kept top first: its head is [itemStack[len(itemStack)-1]]. *)

Record scan := mkScan {
  store : list Item;
  orgFile : OrgFile;
  currentItem : option ptr;
  itemStack : list ptr;
  inCodeBlock : bool;
  inLogbookDrawer : bool
}.

Definition set_store (h : list Item) (st : scan) : scan :=
  mkScan h (orgFile st) (currentItem st) (itemStack st) (inCodeBlock st)
         (inLogbookDrawer st).

Definition set_inCodeBlock (b : bool) (st : scan) : scan :=
  mkScan (store st) (orgFile st) (currentItem st) (itemStack st) b
         (inLogbookDrawer st).

Definition set_inLogbookDrawer (b : bool) (st : scan) : scan :=
  mkScan (store st) (orgFile st) (currentItem st) (itemStack st)
         (inCodeBlock st) b.

(** [if currentItem != nil { currentItem.Notes = append(currentItem.Notes, line) }] *)
Definition appendNote (line : gostring) (st : scan) : scan :=
  match currentItem st with
  | Some p =>
      set_store (alter (fun it => set_Notes (Notes it ++ [line]) it) p (store st)) st
  | None => st
  end.

(** [for len(itemStack) > 0 && itemStack[len(itemStack)-1].Level >= level]:
    the entries popped. *)
Fixpoint popStack (h : list Item) (level : nat) (stack : list ptr) : list ptr :=
  match stack with
  | [] => []
  | top :: below =>
      match h !! top with
      | Some it => if (level <=? Level it)%nat then popStack h level below
                   else stack
      | None => stack
      end
  end.

(** What a content line does to the fields of the current item. *)
Definition contentLine (line : gostring) (it : Item) : Item :=
  let trimmed := TrimSpace line in
  let it :=
    match scheduledPattern line with
    | Some m1 => match parseOrgDate m1 with
                 | Some t => set_Scheduled (Some t) it
                 | None => it
                 end
    | None => it
    end in
  let it :=
    match deadlinePattern line with
    | Some m1 => match parseOrgDate m1 with
                 | Some t => set_Deadline (Some t) it
                 | None => it
                 end
    | None => it
    end in
  let it :=
    match clockPattern line with
    | Some (m1, m2) =>
        match parseClockTimestamp m1 with
        | Some startTime =>
            let entry :=
              if negb (is_nil m2) then
                match parseClockTimestamp m2 with
                | Some endTime => mkClockEntry startTime (Some endTime)
                | None => mkClockEntry startTime None
                end
              else mkClockEntry startTime None in
            set_ClockEntries (ClockEntries it ++ [entry]) it
        | None => it
        end
    | None => it
    end in
  if negb (is_nil trimmed) || (0 <? length (Notes it))%nat
  then set_Notes (Notes it ++ [line]) it
  else it.

(** The heading branch: a new item is allocated, hung under the first
    stack entry of a smaller level (or made a root) and pushed. *)
Definition headingLine (stars state title : gostring) (st : scan) : scan :=
  let level := length stars in
  let item := mkItem level state title None None [] [] false [] in
  let p : ptr := length (store st) in
  let stack := popStack (store st) level (itemStack st) in
  let h := store st ++ [item] in
  match stack with
  | [] =>
      mkScan h (mkOrgFile (Path (orgFile st)) (Items (orgFile st) ++ [p]))
             (Some p) [p] (inCodeBlock st) (inLogbookDrawer st)
  | parent :: _ =>
      mkScan (alter (fun it => set_Children (Children it ++ [p]) it) parent h)
             (orgFile st) (Some p) (p :: stack)
             (inCodeBlock st) (inLogbookDrawer st)
  end.

(** One turn of the scanning loop. *)
Definition parseLine (st : scan) (line : gostring) : scan :=
  if drawerStart line then
    appendNote line (set_inLogbookDrawer true st)
  else if drawerEnd line && inLogbookDrawer st then
    appendNote line (set_inLogbookDrawer false st)
  else if codeBlockStart line then
    appendNote line (set_inCodeBlock true st)
  else if codeBlockEnd line then
    appendNote line (set_inCodeBlock false st)
  else if inCodeBlock st then
    appendNote line st
  else
    match headingPattern line with
    | Some (stars, state, title) => headingLine stars state title st
    | None =>
        match currentItem st with
        | Some p => set_store (alter (contentLine line) p (store st)) st
        | None => st
        end
    end.

Definition initial (path : gostring) : scan :=
  mkScan [] (mkOrgFile path []) None [] false false.

Definition parseLines (path : gostring) (lines : list gostring) : scan :=
  fold_left parseLine lines (initial path).

(** [ParseOrgFile] on a file that could be opened, [text] being its
    contents: the store and the file, or nothing when the scanner
    reports an error. *)
Definition ParseOrgFile (path text : gostring) : option (list Item * OrgFile) :=
  match scanLines text with
  | Some lines =>
      let st := parseLines path lines in Some (store st, orgFile st)
  | None => None
  end.

(** ** Save and writeItem

    The writer is the text written so far (writes to the buffer do not
    fail).  The recursion over the pointers of the store is bounded by
    [fuel]; a run that exhausts it, or meets an address outside the
    store, has no result. *)

Definition WriteString (writer s : gostring) : gostring := writer ++ s.

(** The loop over the notes that sets hasScheduled, hasDeadline and
    hasLogbook. *)
Definition noteFlags (notes : list gostring) : bool * bool * bool :=
  fold_left
    (fun '(hasScheduled, hasDeadline, hasLogbook) note =>
       (if Contains note (str "SCHEDULED:") then true else hasScheduled,
        if Contains note (str "DEADLINE:") then true else hasDeadline,
        if Contains note (str ":LOGBOOK:") then true else hasLogbook))
    notes (false, false, false).

Definition clockLine (entry : ClockEntry) : gostring :=
  let clockLine := str "CLOCK: [" ++ formatClockTimestamp (Start entry) ++ str "]" in
  let clockLine :=
    match End entry with
    | Some e => clockLine ++ str "--[" ++ formatClockTimestamp e ++ str "]"
    | None => clockLine
    end in
  clockLine ++ [LF].

(** Everything [writeItem] writes before it turns to the children. *)
Definition writeOwn (writer : gostring) (item : Item) : gostring :=
  let stars := Repeat "*" (Level item) in
  let line := stars in
  let line := if negb (is_nil (State item)) then line ++ str " " ++ State item
              else line in
  let line := line ++ str " " ++ Title item ++ [LF] in
  let writer := WriteString writer line in
  let '(hasScheduled, hasDeadline, hasLogbook) := noteFlags (Notes item) in
  let writer :=
    match Scheduled item with
    | Some t =>
        if negb hasScheduled
        then WriteString writer (str "SCHEDULED: <" ++ formatOrgDate t ++ str ">" ++ [LF])
        else writer
    | None => writer
    end in
  let writer :=
    match Deadline item with
    | Some t =>
        if negb hasDeadline
        then WriteString writer (str "DEADLINE: <" ++ formatOrgDate t ++ str ">" ++ [LF])
        else writer
    | None => writer
    end in
  let writer :=
    if (0 <? length (ClockEntries item))%nat && negb hasLogbook then
      let writer := WriteString writer (str ":LOGBOOK:" ++ [LF]) in
      let writer :=
        fold_left (fun w entry => WriteString w (clockLine entry))
                  (ClockEntries item) writer in
      WriteString writer (str ":END:" ++ [LF])
    else writer in
  fold_left (fun w note => WriteString w (note ++ [LF])) (Notes item) writer.

(** [for _, x := range items { if err := write(writer, x); err != nil { return err } }] *)
Fixpoint writeEach (write : gostring -> ptr -> option gostring)
    (writer : gostring) (items : list ptr) : option gostring :=
  match items with
  | [] => Some writer
  | x :: items' =>
      match write writer x with
      | Some writer' => writeEach write writer' items'
      | None => None
      end
  end.

Fixpoint writeItem (fuel : nat) (h : list Item) (writer : gostring) (item : ptr)
  : option gostring :=
  match fuel with
  | 0 => None
  | S fuel' =>
      match h !! item with
      | Some it => writeEach (writeItem fuel' h) (writeOwn writer it) (Children it)
      | None => None
      end
  end.

(** [Save]: the text written to the file. *)
Definition Save (fuel : nat) (h : list Item) (file : OrgFile) : option gostring :=
  writeEach (writeItem fuel h) [] (Items file).

(** ** The methods of Item *)

Definition ToggleFold (item : Item) : Item :=
  mkItem (Level item) (State item) (Title item) (Scheduled item) (Deadline item)
         (Notes item) (Children item) (negb (Folded item)) (ClockEntries item).

Definition CycleState (item : Item) : Item :=
  if bytes_eqb (State item) StateNone then set_State StateTODO item
  else if bytes_eqb (State item) StateTODO then set_State StatePROG item
  else if bytes_eqb (State item) StatePROG then set_State StateBLOCK item
  else if bytes_eqb (State item) StateBLOCK then set_State StateDONE item
  else if bytes_eqb (State item) StateDONE then set_State StateNone item
  else item.

Definition isOpen (entry : ClockEntry) : bool :=
  match End entry with None => true | Some _ => false end.

Definition IsClockedIn (item : Item) : bool := existsb isOpen (ClockEntries item).

(** [ClockIn], [now] being what [time.Now()] returns: the item after
    the call and the result. *)
Definition ClockIn (now : Time) (item : Item) : Item * bool :=
  if IsClockedIn item then (item, false)
  else
    let entry := mkClockEntry now None in
    (set_ClockEntries (ClockEntries item ++ [entry]) item, true).

(** [for i := len(item.ClockEntries) - 1; i >= 0; i--], [n] being
    [i + 1]. *)
Fixpoint clockOutLoop (now : Time) (entries : list ClockEntry) (n : nat)
  : option (list ClockEntry) :=
  match n with
  | 0 => None
  | S i =>
      match entries !! i with
      | Some entry =>
          if isOpen entry
          then Some (<[i := mkClockEntry (Start entry) (Some now)]> entries)
          else clockOutLoop now entries i
      | None => None
      end
  end.

Definition ClockOut (now : Time) (item : Item) : Item * bool :=
  match clockOutLoop now (ClockEntries item) (length (ClockEntries item)) with
  | Some entries => (set_ClockEntries entries item, true)
  | None => (item, false)
  end.

(** [GetAllItems]: the items in document order, the children of a
    folded item left out. *)
Fixpoint flatten (fuel : nat) (h : list Item) (items : list ptr) (lst : list ptr)
  : option (list ptr) :=
  match fuel with
  | 0 => None
  | S fuel' =>
      (fix range (items : list ptr) (lst : list ptr) : option (list ptr) :=
         match lst with
         | [] => Some items
         | item :: lst' =>
             match h !! item with
             | Some it =>
                 let items := items ++ [item] in
                 if negb (Folded it) then
                   match flatten fuel' h items (Children it) with
                   | Some items' => range items' lst'
                   | None => None
                   end
                 else range items lst'
             | None => None
             end
         end) items lst
  end.

Definition GetAllItems (fuel : nat) (h : list Item) (file : OrgFile)
  : option (list ptr) :=
  flatten fuel h [] (Items file).

(** ** The tree operations of ui.go

    Of the [model] struct the fields the operations below read or
    write, the store of items beside the file; the widgets, the window
    size and the expiry time of the status are left out. *)

Inductive viewMode :=
| modeList | modeAgenda | modeEdit | modeConfirmDelete
| modeCapture | modeAddSubTask | modeSetDeadline.

Record model := mkModel {
  heap : list Item;
  m_orgFile : OrgFile;
  cursor : nat;
  mode : viewMode;
  statusMsg : gostring;
  editingItem : option ptr;
  itemToDelete : option ptr;
  reorderMode : bool
}.

Definition set_tree (h : list Item) (roots : list ptr) (m : model) : model :=
  mkModel h (mkOrgFile (Path (m_orgFile m)) roots) (cursor m) (mode m)
          (statusMsg m) (editingItem m) (itemToDelete m) (reorderMode m).

Definition set_cursor (c : nat) (m : model) : model :=
  mkModel (heap m) (m_orgFile m) c (mode m) (statusMsg m) (editingItem m)
          (itemToDelete m) (reorderMode m).

Definition setStatus (msg : gostring) (m : model) : model :=
  mkModel (heap m) (m_orgFile m) (cursor m) (mode m) msg (editingItem m)
          (itemToDelete m) (reorderMode m).

Definition cycleStateBackward (item : Item) : Item :=
  if bytes_eqb (State item) StateNone then set_State StateDONE item
  else if bytes_eqb (State item) StateTODO then set_State StateNone item
  else if bytes_eqb (State item) StatePROG then set_State StateTODO item
  else if bytes_eqb (State item) StateBLOCK then set_State StatePROG item
  else if bytes_eqb (State item) StateDONE then set_State StateBLOCK item
  else item.

(** The closure [removeFromList] of [deleteItem]: the store after the
    call and the list returned.  [removeRange] is its loop, [recur]
    the call of the closure on the children of an item. *)
Fixpoint removeRange
    (recur : list Item -> list ptr -> option (list Item * list ptr))
    (target : ptr) (h : list Item) (result : list ptr) (items : list ptr)
  : option (list Item * list ptr) :=
  match items with
  | [] => Some (h, result)
  | it :: items' =>
      if (it =? target)%nat then removeRange recur target h result items'
      else
        match h !! it with
        | Some cell =>
            match recur h (Children cell) with
            | Some (h', children) =>
                removeRange recur target (alter (set_Children children) it h')
                            (result ++ [it]) items'
            | None => None
            end
        | None => None
        end
  end.

Fixpoint removeFromList (fuel : nat) (h : list Item) (items : list ptr)
    (target : ptr) : option (list Item * list ptr) :=
  match fuel with
  | 0 => None
  | S fuel' =>
      removeRange (fun h children => removeFromList fuel' h children target)
                  target h [] items
  end.

Definition deleteItem (fuel : nat) (m : model) (item : ptr) : option model :=
  match removeFromList fuel (heap m) (Items (m_orgFile m)) item with
  | Some (h, roots) => Some (set_tree h roots m)
  | None => None
  end.

(** The closure [swapInList] of [swapItems].  The slice is changed in
    place, so the caller's list is the list after the call: the store,
    the list and the result.  [swapLoop] is the loop over the adjacent
    pairs followed by the visit of the last item, [before] the items
    the loop has passed, [recur] the call of the closure on the children
    of an item. *)
Fixpoint swapLoop
    (recur : list Item -> list ptr -> option (list Item * list ptr * bool))
    (item1 item2 : ptr) (h : list Item) (before : list ptr) (rest : list ptr)
  : option (list Item * list ptr * bool) :=
  match rest with
  | [] => Some (h, before, false)
  | [a] =>
      match h !! a with
      | Some cell =>
          match recur h (Children cell) with
          | Some (h', children, swapped) =>
              Some (alter (set_Children children) a h', before ++ rest, swapped)
          | None => None
          end
      | None => None
      end
  | a :: ((b :: after) as rest') =>
      if (a =? item1)%nat && (b =? item2)%nat then
        Some (h, before ++ b :: a :: after, true)
      else if (a =? item2)%nat && (b =? item1)%nat then
        Some (h, before ++ b :: a :: after, true)
      else
        match h !! a with
        | Some cell =>
            match recur h (Children cell) with
            | Some (h', children, swapped) =>
                let h' := alter (set_Children children) a h' in
                if swapped then Some (h', before ++ rest, true)
                else swapLoop recur item1 item2 h' (before ++ [a]) rest'
            | None => None
            end
        | None => None
        end
  end.

Fixpoint swapInList (fuel : nat) (item1 item2 : ptr) (h : list Item)
    (items : list ptr) : option (list Item * list ptr * bool) :=
  match fuel with
  | 0 => None
  | S fuel' =>
      swapLoop (fun h children => swapInList fuel' item1 item2 h children)
               item1 item2 h [] items
  end.

Definition swapItems (fuel : nat) (m : model) (item1 item2 : ptr) : option model :=
  match swapInList fuel item1 item2 (heap m) (Items (m_orgFile m)) with
  | Some (h, roots, _) => Some (set_tree h roots m)
  | None => None
  end.

(** [getAgendaItems]; [soon t] is [t.Before(endOfWeek)] for the end of
    the week that starts today. *)
Fixpoint agenda (soon : Time -> bool) (fuel : nat) (h : list Item)
    (items : list ptr) (lst : list ptr) : option (list ptr) :=
  match fuel with
  | 0 => None
  | S fuel' =>
      (fix range (items : list ptr) (lst : list ptr) : option (list ptr) :=
         match lst with
         | [] => Some items
         | item :: lst' =>
             match h !! item with
             | Some it =>
                 let items :=
                   match Scheduled it with
                   | Some t => if soon t then items ++ [item] else items
                   | None => items
                   end in
                 let items :=
                   match Deadline it with
                   | Some t => if soon t then items ++ [item] else items
                   | None => items
                   end in
                 match agenda soon fuel' h items (Children it) with
                 | Some items' => range items' lst'
                 | None => None
                 end
             | None => None
             end
         end) items lst
  end.

Definition getVisibleItems (soon : Time -> bool) (fuel : nat) (m : model)
  : option (list ptr) :=
  match mode m with
  | modeAgenda => agenda soon fuel (heap m) [] (Items (m_orgFile m))
  | _ => GetAllItems fuel (heap m) (m_orgFile m)
  end.

(** [moveItemUp]; an index outside the visible items has no result. *)
Definition moveItemUp (soon : Time -> bool) (fuel : nat) (m : model)
  : option model :=
  match getVisibleItems soon fuel m with
  | None => None
  | Some items =>
      if (length items =? 0)%nat || (cursor m =? 0)%nat then Some m
      else
        match items !! cursor m, items !! (cursor m - 1) with
        | Some currentItem, Some prevItem =>
            match heap m !! currentItem, heap m !! prevItem with
            | Some cur, Some prev =>
                if negb (Level cur =? Level prev)%nat then
                  Some (setStatus (str "Cannot move across different levels") m)
                else
                  match swapItems fuel m currentItem prevItem with
                  | Some m' =>
                      Some (setStatus (str "Item moved up")
                                      (set_cursor (cursor m' - 1) m'))
                  | None => None
                  end
            | _, _ => None
            end
        | _, _ => None
        end
  end.

(** [moveItemDown]; an index outside the visible items has no result. *)
Definition moveItemDown (soon : Time -> bool) (fuel : nat) (m : model)
  : option model :=
  match getVisibleItems soon fuel m with
  | None => None
  | Some items =>
      if (length items =? 0)%nat || (length items - 1 <=? cursor m)%nat then Some m
      else
        match items !! cursor m, items !! (cursor m + 1) with
        | Some currentItem, Some nextItem =>
            match heap m !! currentItem, heap m !! nextItem with
            | Some cur, Some next =>
                if negb (Level cur =? Level next)%nat then
                  Some (setStatus (str "Cannot move across different levels") m)
                else
                  match swapItems fuel m currentItem nextItem with
                  | Some m' =>
                      Some (setStatus (str "Item moved down")
                                      (set_cursor (cursor m' + 1) m'))
                  | None => None
                  end
            | _, _ => None
            end
        | _, _ => None
        end
  end.

(** ** The notes shown in the list view *)

(** The loop of [filterLogbookDrawer]. *)
Fixpoint filterLoop (inLogbook : bool) (filtered : list gostring)
    (notes : list gostring) : list gostring :=
  match notes with
  | [] => filtered
  | note :: notes' =>
      let trimmed := TrimSpace note in
      if bytes_eqb trimmed (str ":LOGBOOK:") then filterLoop true filtered notes'
      else if bytes_eqb trimmed (str ":END:") && inLogbook then
        filterLoop false filtered notes'
      else if inLogbook then filterLoop inLogbook filtered notes'
      else if HasPrefix trimmed (str "SCHEDULED:") || HasPrefix trimmed (str "DEADLINE:")
      then filterLoop inLogbook filtered notes'
      else filterLoop inLogbook (filtered ++ [note]) notes'
  end.

Definition filterLogbookDrawer (notes : list gostring) : list gostring :=
  filterLoop false [] notes.

End Org.

(** ** The clocked time of an item *)

Section Clocked.
Context {TL : TimeLib} {DL : DurationLib}.

(** [time.Since(t)], [now] being what [time.Now()] returns. *)
Definition time_Since (now t : Time) : Z := time_Sub now t.

(** The loop of [GetCurrentClockDuration]; the clock is read at the
    first open entry. *)
Fixpoint currentLoop (now : Time) (entries : list ClockEntry) : Z :=
  match entries with
  | [] => 0%Z
  | entry :: entries' =>
      match End entry with
      | None => time_Since now (Start entry)
      | Some _ => currentLoop now entries'
      end
  end.

Definition GetCurrentClockDuration (now : Time) (item : Item) : Z :=
  currentLoop now (ClockEntries item).

(** The loop of [GetTotalClockDuration]; the clock is read once for
    every open entry, [now i] being the reading at the entry of index
    [i]. *)
Fixpoint totalLoop (now : nat -> Time) (i : nat) (total : Z)
    (entries : list ClockEntry) : Z :=
  match entries with
  | [] => total
  | entry :: entries' =>
      let total :=
        match End entry with
        | Some e => int64 (total + time_Sub e (Start entry))
        | None => int64 (total + time_Since (now i) (Start entry))
        end in
      totalLoop now (S i) total entries'
  end.

Definition GetTotalClockDuration (now : nat -> Time) (item : Item) : Z :=
  totalLoop now 0 0%Z (ClockEntries item).

End Clocked.

(** ** The dialogs of ui.go *)

Section Screen.
Context {TL : TimeLib} {IL : InputLib}.

(** Of a [tea.Msg] what the handlers look at: the kind of message, for
    a key its type and its name ([msg.String()]). *)

Inductive KeyType := KeyEnter | KeyEsc | KeyOther.

Inductive Msg :=
| WindowSizeMsg (Width Height : Z)
| KeyMsg (type : KeyType) (name : gostring)
| OtherMsg.

Definition set_heap (h : list Item) (m : model) : model :=
  set_tree h (Items (m_orgFile m)) m.

Definition set_mode (v : viewMode) (m : model) : model :=
  mkModel (heap m) (m_orgFile m) (cursor m) v (statusMsg m) (editingItem m)
          (itemToDelete m) (reorderMode m).

Definition set_editingItem (v : option ptr) (m : model) : model :=
  mkModel (heap m) (m_orgFile m) (cursor m) (mode m) (statusMsg m) v
          (itemToDelete m) (reorderMode m).

Definition set_itemToDelete (v : option ptr) (m : model) : model :=
  mkModel (heap m) (m_orgFile m) (cursor m) (mode m) (statusMsg m)
          (editingItem m) v (reorderMode m).

(** The text of a widget is an argument of its handler: [value] is
    [m.textarea.Value()] or [m.textinput.Value()] when the message
    arrives.  The size of the window is not among the fields of the
    model, and a message no branch returns on goes to the widget: both
    leave the fields of the model as they are. *)

(** [updateEditMode]. *)
Definition updateEditMode (value : gostring) (msg : Msg) (m : model) : model :=
  match msg with
  | KeyMsg KeyEsc _ =>
      let m :=
        match editingItem m with
        | Some p =>
            let noteText := value in
            if is_nil noteText then set_heap (alter (set_Notes []) p (heap m)) m
            else set_heap (alter (set_Notes (Split noteText LF)) p (heap m)) m
        | None => m
        end in
      let m := set_mode modeList m in
      setStatus (str "Notes saved") m
  | _ => m
  end.

(** A nil [*Item] is the address of no cell. *)
Definition nil_ptr (h : list Item) : ptr := length h.

(** [updateConfirmDelete]. *)
Definition updateConfirmDelete (soon : Time -> bool) (fuel : nat) (msg : Msg)
    (m : model) : option model :=
  match msg with
  | KeyMsg _ name =>
      if bytes_eqb name (str "y") || bytes_eqb name (str "Y") then
        let target := match itemToDelete m with
                      | Some p => p
                      | None => nil_ptr (heap m)
                      end in
        match deleteItem fuel m target with
        | Some m =>
            let m := set_mode modeList m in
            let m := set_itemToDelete None m in
            let m := setStatus (str "Item deleted") m in
            match getVisibleItems soon fuel m with
            | Some items =>
                if (length items <=? cursor m)%nat && (0 <? length items)%nat
                then Some (set_cursor (length items - 1) m)
                else Some m
            | None => None
            end
        | None => None
        end
      else if bytes_eqb name (str "n") || bytes_eqb name (str "N")
              || bytes_eqb name (str "esc") then
        let m := set_mode modeList m in
        let m := set_itemToDelete None m in
        Some (setStatus (str "Cancelled") m)
      else Some m
  | _ => Some m
  end.

(** [updateCapture]. *)
Definition updateCapture (value : gostring) (msg : Msg) (m : model) : model :=
  match msg with
  | KeyMsg KeyEnter _ =>
      let title := TrimSpace value in
      let m :=
        if negb (is_nil title) then
          let newItem : ptr := length (heap m) in
          let m := set_tree (heap m ++ [mkItem 1 StateTODO title None None [] [] false []])
                            ([newItem] ++ Items (m_orgFile m)) m in
          setStatus (str "TODO captured!") m
        else m in
      let m := set_mode modeList m in
      set_cursor 0 m
  | KeyMsg KeyEsc _ =>
      let m := set_mode modeList m in
      setStatus (str "Cancelled") m
  | _ => m
  end.

(** The two assignments to the parent in [updateAddSubTask]. *)
Definition addChild (newItem : ptr) (it : Item) : Item :=
  mkItem (Level it) (State it) (Title it) (Scheduled it) (Deadline it) (Notes it)
         (Children it ++ [newItem]) false (ClockEntries it).

(** [updateAddSubTask]; an editing item outside the store has no
    result. *)
Definition updateAddSubTask (value : gostring) (msg : Msg) (m : model)
  : option model :=
  match msg with
  | KeyMsg KeyEnter _ =>
      let title := TrimSpace value in
      let added :=
        match negb (is_nil title), editingItem m with
        | true, Some p =>
            match heap m !! p with
            | Some parent =>
                let newItem : ptr := length (heap m) in
                let h := heap m ++ [mkItem (Level parent + 1) StateTODO title None None
                                           [] [] false []] in
                Some (setStatus (str "Sub-task added!")
                                (set_heap (alter (addChild newItem) p h) m))
            | None => None
            end
        | _, _ => Some m
        end in
      match added with
      | Some m => Some (set_editingItem None (set_mode modeList m))
      | None => None
      end
  | KeyMsg KeyEsc _ =>
      let m := set_mode modeList m in
      let m := set_editingItem None m in
      Some (setStatus (str "Cancelled") m)
  | _ => Some m
  end.

(** [parseDeadlineInput], [now] being what [time.Now()] returns: the
    time, or the text of the error. *)
Definition parseDeadlineInput (now : Time) (input : gostring) : Time + gostring :=
  if HasPrefix input (str "+") then
    let daysStr := TrimPrefix input (str "+") in
    match Sscanf_d daysStr with
    | None => inr (str "invalid relative date format: " ++ input)
    | Some days => inl (time_AddDate now 0 0 days)
    end
  else
    match first_layout [str "2006-01-02"; str "2006/01/02"; str "01/02/2006"] input with
    | Some t => inl t
    | None => inr (str "unable to parse date: " ++ input
                   ++ str " (use YYYY-MM-DD or +N)")
    end.

(** A note whose text starts with the marker, white space apart. *)
Definition deadlineNote (note : gostring) : bool :=
  HasPrefix (TrimSpace note) (str "DEADLINE:").

(** The loop that drops the DEADLINE notes. *)
Definition withoutDeadline (notes : list gostring) : list gostring :=
  List.filter (fun note => negb (deadlineNote note)) notes.

(** The loop that puts the new line in the place of the first
    DEADLINE note: the notes, and whether one was found. *)
Fixpoint updateDeadlineNote (line : gostring) (notes : list gostring)
  : list gostring * bool :=
  match notes with
  | [] => ([], false)
  | note :: notes' =>
      if deadlineNote note then (line :: notes', true)
      else let '(notes'', updatedNotes) := updateDeadlineNote line notes' in
           (note :: notes'', updatedNotes)
  end.

(** What [updateSetDeadline] does to the item on a date that parsed. *)
Definition setDeadline (deadline : Time) (it : Item) : Item :=
  let it := set_Deadline (Some deadline) it in
  let '(notes, updatedNotes) :=
    updateDeadlineNote (str "DEADLINE: <" ++ formatOrgDate deadline ++ str ">")
                       (Notes it) in
  if updatedNotes then set_Notes notes it
  else set_Notes (withoutDeadline (Notes it)) it.

(** What [updateSetDeadline] does to the item on an empty input. *)
Definition clearDeadline (it : Item) : Item :=
  set_Notes (withoutDeadline (Notes it)) (set_Deadline None it).

(** [updateSetDeadline]. *)
Definition updateSetDeadline (now : Time) (value : gostring) (msg : Msg) (m : model)
  : model :=
  match msg with
  | KeyMsg KeyEnter _ =>
      let input := TrimSpace value in
      let m :=
        match editingItem m with
        | Some p =>
            if is_nil input then
              setStatus (str "Deadline cleared!")
                        (set_heap (alter clearDeadline p (heap m)) m)
            else
              match parseDeadlineInput now input with
              | inr err => setStatus (str "Invalid date: " ++ err) m
              | inl deadline =>
                  setStatus (str "Deadline set!")
                            (set_heap (alter (setDeadline deadline) p (heap m)) m)
              end
        | None => m
        end in
      let m := set_mode modeList m in
      set_editingItem None m
  | KeyMsg KeyEsc _ =>
      let m := set_mode modeList m in
      let m := set_editingItem None m in
      setStatus (str "Cancelled") m
  | _ => m
  end.

End Screen.

(** * Vocabulary of the statements *)

Section Vocabulary.

Context {TL : TimeLib}.

(** ** States, items and clock entries *)

(** The five states of an item. *)
Definition valid_states : list gostring :=
  [StateNone; StateTODO; StatePROG; StateBLOCK; StateDONE].

(** What the heading grammar promises of an item. *)
Definition well_formed (it : Item) : Prop :=
  1 <= Level it /\ Title it <> [] /\ State it ∈ valid_states.

(** The number of entries without an end. *)
Definition open_entries (entries : list ClockEntry) : nat :=
  length (List.filter isOpen entries).

(** ** The text of an item

    What the specification says [writeItem] emits for an item: six
    parts in a fixed order. *)

(** Some note contains the marker. *)
Definition mentions (marker : gostring) (notes : list gostring) : bool :=
  existsb (fun note => Contains note marker) notes.

(** The heading line of an item. *)
Definition headingText (item : Item) : gostring :=
  Repeat "*" (Level item)
  ++ (if is_nil (State item) then [] else str " " ++ State item)
  ++ str " " ++ Title item ++ [LF].

(** The SCHEDULED line, when one is synthesized. *)
Definition scheduledText (item : Item) : gostring :=
  match Scheduled item with
  | Some t => if mentions (str "SCHEDULED:") (Notes item) then []
              else str "SCHEDULED: <" ++ formatOrgDate t ++ str ">" ++ [LF]
  | None => []
  end.

(** The DEADLINE line, when one is synthesized. *)
Definition deadlineText (item : Item) : gostring :=
  match Deadline item with
  | Some t => if mentions (str "DEADLINE:") (Notes item) then []
              else str "DEADLINE: <" ++ formatOrgDate t ++ str ">" ++ [LF]
  | None => []
  end.

(** The CLOCK line of an entry. *)
Definition entryText (entry : ClockEntry) : gostring :=
  str "CLOCK: [" ++ formatClockTimestamp (Start entry) ++ str "]"
  ++ match End entry with
     | Some e => str "--[" ++ formatClockTimestamp e ++ str "]"
     | None => []
     end
  ++ [LF].

(** The LOGBOOK drawer, when one is synthesized. *)
Definition drawerText (item : Item) : gostring :=
  if is_nil (ClockEntries item) || mentions (str ":LOGBOOK:") (Notes item) then []
  else str ":LOGBOOK:" ++ [LF]
       ++ concat (map entryText (ClockEntries item))
       ++ str ":END:" ++ [LF].

(** The notes, line by line. *)
Definition notesText (item : Item) : gostring :=
  concat (map (fun note => note ++ [LF]) (Notes item)).

(** All that is written for an item itself, its children apart. *)
Definition ownText (item : Item) : gostring :=
  headingText item ++ scheduledText item ++ deadlineText item
  ++ drawerText item ++ notesText item.

(** The heading and the notes of an item, as written. *)
Definition rawText (it : Item) : gostring := headingText it ++ notesText it.

(** The headings and notes of all the items of a store, in the order
    of their addresses. *)
Definition flat (h : list Item) : gostring := concat (map rawText h).

(** What is written for the item at an address. *)
Definition text_at (h : list Item) (p : ptr) : gostring :=
  match h !! p with Some it => ownText it | None => [] end.

(** A field set by a directive has its marker among the notes. *)
Definition directives_noted (it : Item) : Prop :=
  (Scheduled it <> None -> mentions (str "SCHEDULED:") (Notes it) = true) /\
  (Deadline it <> None -> mentions (str "DEADLINE:") (Notes it) = true).

(** No drawer is synthesized for the item. *)
Definition no_drawer_needed (it : Item) : bool :=
  is_nil (ClockEntries it) || mentions (str ":LOGBOOK:") (Notes it).

(** ** Lines *)

(** The text whose lines are [lines], each one terminated. *)
Definition joinLines (lines : list gostring) : gostring :=
  concat (map (fun l => l ++ [LF]) lines).

(** The last character is a carriage return. *)
Definition ends_with_CR (l : gostring) : bool :=
  match last l with Some c => Ascii.eqb c CR | None => false end.

(** A line the scanner hands over as it stands in the text. *)
Definition plain_line (l : gostring) : bool :=
  forallb (not_char LF) l && negb (ends_with_CR l) && fits l.

(** A heading line as [writeItem] writes it, from the three groups
    of the heading pattern. *)
Definition renderHeading (stars state title : gostring) : gostring :=
  Repeat "*" (length stars)
  ++ (if is_nil state then [] else str " " ++ state)
  ++ str " " ++ title.

(** A heading line is kept when it is written the way [writeItem]
    writes it; a line outside headings is kept when an item is open to
    take it and it is not a blank line in front of the first note. *)
Definition kept (st : scan) (line : gostring) : bool :=
  if drawerStart line || (drawerEnd line && inLogbookDrawer st)
     || codeBlockStart line || codeBlockEnd line || inCodeBlock st
  then match currentItem st with Some _ => true | None => false end
  else
    match headingPattern line with
    | Some (stars, state, title) => bytes_eqb (renderHeading stars state title) line
    | None =>
        match currentItem st with
        | Some p =>
            match store st !! p with
            | Some it => negb (is_nil (TrimSpace line)) || negb (is_nil (Notes it))
            | None => false
            end
        | None => false
        end
    end.

(** Every line of a run of the scanning loop is kept. *)
Fixpoint kept_all (st : scan) (lines : list gostring) : bool :=
  match lines with
  | [] => true
  | line :: lines' => kept st line && kept_all (parseLine st line) lines'
  end.

(** A character that starts no white-space rune. *)
Definition starts_text (c : ascii) : bool :=
  negb (ascii_space c) && negb (Ascii.eqb c "194") && negb (Ascii.eqb c "225")
  && negb (Ascii.eqb c "226") && negb (Ascii.eqb c "227").

(** A byte of the encoding of some white-space character, or a byte
    beyond ASCII. *)
Definition space_byte (c : ascii) : bool :=
  ascii_space c || (128 <=? nat_of_ascii c)%nat.

(** ** States of the scanning loop *)

(** The states that differ from [st] in the two flags only. *)
Definition same_tree (st0 st : scan) : Prop :=
  store st0 = store st /\ orgFile st0 = orgFile st /\
  currentItem st0 = currentItem st /\ itemStack st0 = itemStack st.

(** A function on items that leaves the node as it is: level, state,
    title and children. *)
Definition keeps_node (f : Item -> Item) : Prop :=
  forall it, Level (f it) = Level it /\ State (f it) = State it /\
             Title (f it) = Title it /\ Children (f it) = Children it.

(** The pointers of the scan are addresses of the store, the current
    item is the top of the stack and the cell allocated last. *)
Definition scan_ok (st : scan) : Prop :=
  Forall (fun p => p < length (store st)) (itemStack st) /\
  currentItem st = head (itemStack st) /\
  match currentItem st with
  | Some p => S p = length (store st)
  | None => store st = []
  end.

(** Every child is an item of the store, of a level greater than its
    parent's. *)
Definition levels_ok (h : list Item) : Prop :=
  forall p parent c,
    h !! p = Some parent -> c ∈ Children parent ->
    exists child, h !! c = Some child /\ Level parent < Level child.

(** ** Trees in the store *)

(** The shape of a tree of items: the address of each node and the
    trees below it. *)
#[warnings="-register-all"]
Inductive tree := Node (root : ptr) (kids : list tree).

(** The address of the root. *)
Definition root_of (t : tree) : ptr := match t with Node p _ => p end.

(** The addresses of a tree, in document order. *)
Fixpoint ptrs (t : tree) : list ptr :=
  match t with Node p kids => p :: concat (map ptrs kids) end.

(** The addresses of a list of trees, in document order. *)
Definition forest_ptrs (ts : list tree) : list ptr := concat (map ptrs ts).

(** The number of levels of a tree. *)
Fixpoint height (t : tree) : nat :=
  match t with Node _ kids => S (fold_right Nat.max 0 (map height kids)) end.

(** A store represents a tree when the cell at each node lists, as
    its children, the roots of the trees below. *)
#[warnings="-register-all"]
Inductive represents (h : list Item) : tree -> Prop :=
| represents_node (p : ptr) (kids : list tree) (it : Item) :
    h !! p = Some it ->
    Children it = map root_of kids ->
    Forall (represents h) kids ->
    represents h (Node p kids).

(** The results of [f] on the elements it accepts. *)
Fixpoint keep_some {A B} (f : A -> option B) (l : list A) : list B :=
  match l with
  | [] => []
  | x :: l' => match f x with
               | Some y => y :: keep_some f l'
               | None => keep_some f l'
               end
  end.

(** The tree without the nodes at [target] and all that hangs below
    them. *)
Fixpoint prune (target : ptr) (t : tree) : option tree :=
  match t with
  | Node p kids =>
      if (p =? target)%nat then None
      else Some (Node p (keep_some (prune target) kids))
  end.

(** [prune] on every tree of a list. *)
Definition prune_all (target : ptr) (ts : list tree) : list tree :=
  keep_some (prune target) ts.

(** Two stores that differ in the children of their cells at most. *)
Definition children_only (h h' : list Item) : Prop :=
  length h' = length h /\
  forall q it, h !! q = Some it -> exists cs, h' !! q = Some (set_Children cs it).

(** The stack of the parser, bottom first, runs down the last branch
    of the trees: its first entry is the last root, the next one the
    last child of that root, and so on. *)
Fixpoint on_spine (ts : list tree) (stack : list ptr) : Prop :=
  match stack with
  | [] => True
  | s :: stack' =>
      exists ts0 kids, ts = ts0 ++ [Node s kids] /\ on_spine kids stack'
  end.

(** The items of the store are the nodes of trees, in document order,
    and the stack is on their last branch. *)
Definition tree_inv (st : scan) : Prop :=
  exists ts,
    Items (orgFile st) = map root_of ts /\
    Forall (represents (store st)) ts /\
    forest_ptrs ts = seq 0 (length (store st)) /\
    on_spine ts (reverse (itemStack st)).

(** ** deleteItem and swapItems on trees *)

(** What a run of [removeFromList] over the roots of [ts] has to
    deliver, [result] being the prefix it started from. *)
Definition delete_post (target : ptr) (h : list Item) (ts : list tree)
    (result : list ptr) (res : option (list Item * list ptr)) : Prop :=
  exists h',
    res = Some (h', result ++ map root_of (prune_all target ts)) /\
    Forall (represents h') (prune_all target ts) /\
    (forall q, q ∉ forest_ptrs ts -> h' !! q = h !! q) /\
    children_only h h' /\
    (target ∉ forest_ptrs ts -> h' = h).

(** The two addresses are the two items, in either order. *)
Definition is_pair (item1 item2 x y : ptr) : bool :=
  ((x =? item1)%nat && (y =? item2)%nat) || ((x =? item2)%nat && (y =? item1)%nat).

(** The first adjacent pair of roots [item1], [item2] (in either
    order) exchanged, looking below each tree (by [recur]) before
    moving on to the next pair; nothing when there is no such pair. *)
Fixpoint swapForest (recur : tree -> option tree) (item1 item2 : ptr)
    (ts : list tree) : option (list tree) :=
  match ts with
  | [] => None
  | [t] => option_map (fun t' => [t']) (recur t)
  | t1 :: ((t2 :: rest) as tl) =>
      if is_pair item1 item2 (root_of t1) (root_of t2) then Some (t2 :: t1 :: rest)
      else match recur t1 with
           | Some t1' => Some (t1' :: tl)
           | None => option_map (cons t1) (swapForest recur item1 item2 tl)
           end
  end.

(** [swapForest] on the children of a node. *)
Fixpoint swapTree (item1 item2 : ptr) (t : tree) : option tree :=
  match t with
  | Node p kids =>
      option_map (Node p) (swapForest (swapTree item1 item2) item1 item2 kids)
  end.

(** [swapForest] on a list of trees, looking below by [swapTree]. *)
Definition swapped (item1 item2 : ptr) (ts : list tree) : option (list tree) :=
  swapForest (swapTree item1 item2) item1 item2 ts.

(** Whether the two items are neighbours in a list of roots, or in a
    list of children somewhere below. *)
Fixpoint adjacent_roots (item1 item2 : ptr) (l : list ptr) : bool :=
  match l with
  | x :: ((y :: _) as tl) => is_pair item1 item2 x y || adjacent_roots item1 item2 tl
  | _ => false
  end.

(** Neighbours in the children of the node, or further below. *)
Fixpoint adjacent_below (item1 item2 : ptr) (t : tree) : bool :=
  match t with
  | Node _ kids =>
      adjacent_roots item1 item2 (map root_of kids)
      || existsb (adjacent_below item1 item2) kids
  end.

(** Neighbours among the roots, or somewhere below. *)
Definition adjacent (item1 item2 : ptr) (ts : list tree) : bool :=
  adjacent_roots item1 item2 (map root_of ts)
  || existsb (adjacent_below item1 item2) ts.

(** What a run of [swapInList] over the roots of [ts] has to deliver,
    [before] being the items the loop has passed. *)
Definition swap_post (item1 item2 : ptr) (h : list Item) (ts : list tree)
    (before : list ptr) (res : option (list Item * list ptr * bool)) : Prop :=
  exists h',
    match swapped item1 item2 ts with
    | Some ts' => res = Some (h', before ++ map root_of ts', true) /\
                  Forall (represents h') ts'
    | None => res = Some (h', before ++ map root_of ts, false) /\ h' = h
    end /\
    (forall q, q ∉ forest_ptrs ts -> h' !! q = h !! q) /\
    children_only h h'.

(** The last address below [n] whose item has a level smaller than
    [level]. *)
Fixpoint nearest_below (h : list Item) (level n : nat) : option ptr :=
  match n with
  | 0 => None
  | S q =>
      match h !! q with
      | Some it => if (Level it <? level)%nat then Some q
                   else nearest_below h level q
      | None => nearest_below h level q
      end
  end.

(** What [Save] writes for an item of a parsed file. *)
Definition parsedText (it : Item) : gostring :=
  headingText it ++ drawerText it ++ notesText it.

(** The items below address [n] have the same levels in both stores. *)
Definition same_levels (h h' : list Item) (n : nat) : Prop :=
  forall q, q < n -> Level <$> h' !! q = Level <$> h !! q.

(** The stack answers every question about the nearest smaller level;
    roots have no item of a smaller level before them, and the parent
    of a child is the last item of a smaller level before it. *)
Definition nearest_inv (h : list Item) (roots stack : list ptr) : Prop :=
  (forall L, head (popStack h L stack) = nearest_below h L (length h)) /\
  Forall (fun c => c < length h) stack /\
  Forall (fun c => c < length h) roots /\
  (forall p parent, h !! p = Some parent ->
     Forall (fun c => c < length h) (Children parent)) /\
  (forall c child, h !! c = Some child -> c ∈ roots ->
     nearest_below h (Level child) c = None) /\
  (forall p parent c child,
     h !! p = Some parent -> c ∈ Children parent -> h !! c = Some child ->
     nearest_below h (Level child) c = Some p) /\
  (forall c, c < length h ->
     c ∈ roots \/ exists p parent, h !! p = Some parent /\ c ∈ Children parent).

(** The states that differ in the drawer flag at most. *)
Definition same_but_drawer (st st' : scan) : Prop :=
  store st = store st' /\ orgFile st = orgFile st' /\
  currentItem st = currentItem st' /\ itemStack st = itemStack st' /\
  inCodeBlock st = inCodeBlock st'.

(** A line of the text in front of the first heading. *)
Definition preamble_line (l : gostring) : Prop :=
  headingPattern l = None /\ codeBlockStart l = false.

(** The four keywords of the heading pattern, in its order. *)
Definition keywords : list gostring := [StateTODO; StatePROG; StateBLOCK; StateDONE].

(** A title that the heading pattern reads back as it is written
    after the given state: it starts with a character that is no white
    space, has no newline, and, without a state in front, does not
    itself start with a keyword and a title. *)
Definition plain_title (state title : gostring) : bool :=
  match title with
  | c :: _ => negb (re_space c)
  | [] => false
  end
  && forallb (not_char LF) title
  && (negb (is_nil state)
      || match keyword_then_title keywords title with
         | Some _ => false
         | None => true
         end).

(** ** Dates and times of day *)

(** A day of the calendar, in a year of four digits. *)
Definition valid_date (x : GoTime.t) : bool :=
  (N.of_nat (GoTime.year x) <=? 9999)%N &&
  (1 <=? GoTime.month x)%nat && (GoTime.month x <=? 12)%nat &&
  (1 <=? GoTime.day x)%nat &&
  (GoTime.day x <=? GoTime.daysIn (GoTime.month x) (GoTime.year x))%nat.

(** A valid date with a time of day. *)
Definition valid_clock (x : GoTime.t) : bool :=
  valid_date x && (GoTime.hour x <? 24)%nat && (GoTime.minute x <? 60)%nat.

(** The time cut to the day. *)
Definition date_of (x : GoTime.t) : GoTime.t :=
  GoTime.mk (GoTime.year x) (GoTime.month x) (GoTime.day x) 0 0 0 0%N.

(** The time cut to the minute. *)
Definition minute_of (x : GoTime.t) : GoTime.t :=
  GoTime.mk (GoTime.year x) (GoTime.month x) (GoTime.day x)
            (GoTime.hour x) (GoTime.minute x) 0 0%N.

(** A decimal digit. *)
Definition is_digit (c : ascii) : bool :=
  (48 <=? nat_of_ascii c)%nat && (nat_of_ascii c <=? 57)%nat.

(** The items of a tree that the list view shows: the root, and what
    is visible below it unless the root is folded. *)
Fixpoint visible (h : list Item) (t : tree) : list ptr :=
  match t with
  | Node p kids =>
      p :: match h !! p with
           | Some it => if Folded it then [] else concat (map (visible h) kids)
           | None => []
           end
  end.

(** The entries of an item in the agenda: one for a scheduled date
    that is soon, one for a deadline that is soon. *)
Definition agenda_entries (soon : Time -> bool) (h : list Item) (p : ptr) : list ptr :=
  match h !! p with
  | Some it =>
      match Scheduled it with
      | Some t => if soon t then [p] else []
      | None => []
      end
      ++ match Deadline it with
         | Some t => if soon t then [p] else []
         | None => []
         end
  | None => []
  end.

(** Two stores whose cells differ in the order of their children at
    most. *)
Definition reordered (h h' : list Item) : Prop :=
  Forall2 (fun it it' => Children it' ≡ₚ Children it /\
                         set_Children (Children it) it' = it) h h'.

(** A note that the list view never shows, wherever it stands. *)
Definition hidden_note (note : gostring) : bool :=
  bytes_eqb (TrimSpace note) (str ":LOGBOOK:")
  || HasPrefix (TrimSpace note) (str "SCHEDULED:")
  || HasPrefix (TrimSpace note) (str "DEADLINE:").

(** The tree with a new leaf as the last child of the node at [p]. *)
Fixpoint add_child (p new : ptr) (t : tree) : tree :=
  match t with
  | Node q kids =>
      Node q (map (add_child p new) kids
              ++ if (q =? p)%nat then [Node new []] else [])
  end.

(** The DEADLINE line of a date, as [writeItem] and the deadline
    dialog write it. *)
Definition deadlineLine (t : Time) : gostring :=
  str "DEADLINE: <" ++ formatOrgDate t ++ str ">".

(** The SCHEDULED line of a date, as [writeItem] writes it. *)
Definition scheduledLine (t : Time) : gostring :=
  str "SCHEDULED: <" ++ formatOrgDate t ++ str ">".

(** A character of a written timestamp: a digit, a separator or a
    letter of the names of the days. *)
Definition stamp_char (c : ascii) : bool :=
  is_digit c || existsb (Ascii.eqb c) (list_ascii_of_string "-: SunMoTeWdhFriat").

End Vocabulary.

(** * Sample documents *)

Definition todo_org : gostring := str "todo.org".

Definition stamp : @Time goTime := GoTime.mk 2024 1 15 10 0 0 0%N.

Definition buy_milk : Item :=
  mkItem 1 StateTODO (str "Buy milk") None None [] [] false [].

(** An item that is clocked in, after one closed entry. *)
Definition clocked : Item :=
  mkItem 1 StatePROG (str "Write report") None None [] [] false
         [mkClockEntry stamp (Some stamp); mkClockEntry stamp None].

(** A scheduled task with a clocked sub-task. *)
Definition report_store : list Item :=
  [mkItem 1 StateTODO (str "T") (Some stamp) None
          [str "SCHEDULED: <2024-01-15 Mon>"] [1] false [];
   mkItem 2 StateNone (str "B") None None [] [] false [mkClockEntry stamp None]].

(** The example of the specification: A with child B, then C. *)
Definition nested_lines : list gostring := map str ["* A"; "** B"; "* C"]%string.

Definition nested : scan := parseLines todo_org nested_lines.

(** A document that round-trips: a directive, a drawer, a blank line
    after the first note. *)
Definition faithful_lines : list gostring :=
  map str ["* TODO T"; "SCHEDULED: <2024-01-15 Mon>"; "** B"; ":LOGBOOK:";
           "CLOCK: [2024-01-15 Mon 10:00]--[2024-01-15 Mon 11:30]"; ":END:";
           ""; "note"; "* C"]%string.

(** A blank line between a heading and its first note. *)
Definition spaced_lines : list gostring := map str ["* A"; ""; "note"]%string.

(** Two clock lines without an end under one heading. *)
Definition two_clocks_lines : list gostring :=
  map str ["* A"; "CLOCK: [2024-01-15 Mon 10:00]";
           "CLOCK: [2024-01-15 Mon 11:00]"]%string.

(** Three headings of one level; the first and the last carry a date,
    the one between them does not. *)
Definition dated_lines : list gostring :=
  map str ["* A"; "SCHEDULED: <2024-01-15 Mon>"; "* B"; "* C";
           "DEADLINE: <2024-01-16 Tue>"]%string.

Definition dated : scan := parseLines todo_org dated_lines.

(** The agenda of [dated] with the cursor on its second entry, C. *)
Definition dated_model : model :=
  mkModel (store dated) (orgFile dated) 1 modeAgenda [] None None false.

Definition dated_trees : list tree := [Node 0 []; Node 1 []; Node 2 []].

(** [t.Before(endOfWeek)] on Monday 15 January 2024: the dates before
    Monday 22 January. *)
Definition before_22_January_2024 (t : @Time goTime) : bool :=
  (GoTime.year t <? 2024)%nat
  || ((GoTime.year t =? 2024)%nat
      && ((GoTime.month t <? 1)%nat
          || ((GoTime.month t =? 1)%nat && (GoTime.day t <? 22)%nat))).

(** The item of [two_clocks_lines] when its first CLOCK line is read. *)
Definition clocked_once : Item :=
  mkItem 1 StateNone (str "A") None None [str "CLOCK: [2024-01-15 Mon 10:00]"]
         [] false [mkClockEntry stamp None].

(** Roots of different levels: X at level 2, then A at level 1 with
    child B; the cursor is on A. *)
Definition uneven : scan :=
  parseLines todo_org (map str ["** X"; "* A"; "** B"]%string).

Definition uneven_model : model :=
  mkModel (store uneven) (orgFile uneven) 1 modeList [] None None false.

Definition uneven_trees : list tree := [Node 0 []; Node 1 [Node 2 []]].

(** A folded root with two children, and the same root unfolded. *)
Definition folded_store : list Item :=
  [mkItem 1 StateNone (str "R") None None [] [1; 2] true [];
   mkItem 2 StateNone (str "a") None None [] [] false [];
   mkItem 2 StateNone (str "b") None None [] [] false []].

Definition unfolded_store : list Item := alter ToggleFold 0 folded_store.

(** Nothing would be synthesized for the item. *)
Definition synthesizes_nothing (it : Item) : bool :=
  is_nil (scheduledText it) && is_nil (deadlineText it) && is_nil (drawerText it).

(** An item that brought its LOGBOOK drawer along from the file. *)
Definition logged : Item :=
  mkItem 1 StateTODO (str "T") None None
         (map str [":LOGBOOK:"; "CLOCK: [2024-01-15 Mon 10:00]--[2024-01-15 Mon 10:00]";
                   ":END:"]%string)
         [] false [mkClockEntry stamp (Some stamp)].

(** Half past eleven on the day of [stamp]. *)
Definition later_stamp : @Time goTime := GoTime.mk 2024 1 15 11 30 0 0%N.

Definition nested_trees : list tree := [Node 0 [Node 1 []]; Node 2 []].

Definition folded_trees : list tree := [Node 0 [Node 1 []; Node 2 []]].

(** The document of [nested] on the screen, the cursor on B, which
    is also the item a dialog is open for. *)
Definition nested_model (mode : viewMode) : model :=
  mkModel (store nested) (orgFile nested) 1 mode [] (Some 1) (Some 1) false.

(** The input library of the samples.  They enter dates as
    year-month-day, which asks nothing of [Sscanf] and [AddDate]; this
    library reads no number and adds no days. *)
Definition dates_only : @InputLib goTime := {|
  Sscanf_d := fun _ => None;
  time_AddDate := fun t _ _ _ => t
|}.

(** * Properties *)

Section Properties.

Context {TL : TimeLib}.

(** ** The state cycle *)

Lemma valid_state_cases (s : gostring) :
  s ∈ valid_states ->
  s = StateNone \/ s = StateTODO \/ s = StatePROG \/ s = StateBLOCK \/ s = StateDONE.
Proof.
  unfold valid_states. rewrite !elem_of_cons, elem_of_nil. tauto.
Qed.

(** C4: from each of the five states, five forward steps lead back to
    the item one started from, the steps follow the order None, TODO,
    PROG, BLOCK, DONE, None, and the backward step undoes the forward
    step and is undone by it. *)
Theorem CycleState_five_and_inverse (item : Item) :
  State item ∈ valid_states ->
  CycleState (CycleState (CycleState (CycleState (CycleState item)))) = item
  /\ cycleStateBackward (CycleState item) = item
  /\ CycleState (cycleStateBackward item) = item
  /\ map (fun s => State (CycleState (set_State s item))) valid_states
     = [StateTODO; StatePROG; StateBLOCK; StateDONE; StateNone].
Proof.
  intros Hs. apply valid_state_cases in Hs.
  destruct item as [lv st ti sc dl no ch fo ce]. simpl in Hs.
  repeat split; try reflexivity;
    destruct Hs as [-> | [-> | [-> | [-> | ->]]]]; reflexivity.
Qed.

(** ** Clocking *)

Lemma clockOutLoop_None (now : Time) (entries : list ClockEntry) (n : nat) :
  n <= length entries ->
  existsb isOpen (take n entries) = false ->
  clockOutLoop now entries n = None.
Proof.
  induction n as [|i IH]; intros Hn Hex; [reflexivity|].
  simpl. destruct (entries !! i) as [e|] eqn:He.
  - rewrite (take_S_r _ _ _ He), existsb_app in Hex.
    apply orb_false_iff in Hex as [H1 H2]. simpl in H2.
    rewrite orb_false_r in H2. rewrite H2. apply IH; [lia|exact H1].
  - reflexivity.
Qed.

Lemma clockOutLoop_Some (now : Time) (entries : list ClockEntry) (n : nat) :
  n <= length entries ->
  existsb isOpen (take n entries) = true ->
  exists before e after,
    take n entries = before ++ e :: after /\ End e = None /\
    Forall (fun x => End x <> None) after /\
    clockOutLoop now entries n
    = Some (before ++ mkClockEntry (Start e) (Some now) :: after ++ drop n entries).
Proof.
  induction n as [|i IH]; intros Hn Hex; [discriminate|].
  destruct (lookup_lt_is_Some_2 entries i ltac:(lia)) as [e He].
  simpl. rewrite He. rewrite (take_S_r _ _ _ He).
  rewrite (take_S_r _ _ _ He), existsb_app in Hex. simpl in Hex.
  rewrite orb_false_r in Hex.
  destruct (isOpen e) eqn:Hopen.
  - exists (take i entries), e, []. repeat split.
    + unfold isOpen in Hopen. destruct (End e); [discriminate|reflexivity].
    + constructor.
    + f_equal. rewrite <- (take_drop_middle _ _ _ He) at 1.
      rewrite insert_app_r_alt by (rewrite length_take; lia).
      rewrite length_take, Nat.min_l by lia. rewrite Nat.sub_diag. reflexivity.
  - rewrite orb_false_r in Hex.
    destruct (IH ltac:(lia) Hex) as (before & e' & after & Htk & Hend & Hall & Hres).
    exists before, e', (after ++ [e]). repeat split.
    + rewrite Htk. rewrite <- app_assoc. reflexivity.
    + exact Hend.
    + apply Forall_app. split; [exact Hall|]. constructor; [|constructor].
      unfold isOpen in Hopen. destruct (End e); [discriminate|congruence].
    + rewrite Hres. rewrite <- app_assoc. simpl.
      rewrite (drop_S _ _ _ He). reflexivity.
Qed.

Lemma ClockOut_idle (now : Time) (item : Item) :
  IsClockedIn item = false -> ClockOut now item = (item, false).
Proof.
  unfold ClockOut, IsClockedIn. intros H.
  rewrite clockOutLoop_None; [reflexivity|lia|]. rewrite firstn_all. exact H.
Qed.

Lemma ClockOut_clocked (now : Time) (item : Item) :
  IsClockedIn item = true ->
  exists before e after,
    ClockEntries item = before ++ e :: after /\ End e = None /\
    Forall (fun x => End x <> None) after /\
    ClockOut now item
    = (set_ClockEntries (before ++ mkClockEntry (Start e) (Some now) :: after)
                        item, true).
Proof.
  unfold ClockOut, IsClockedIn. intros H.
  destruct (clockOutLoop_Some now (ClockEntries item) (length (ClockEntries item)))
    as (before & e & after & Htk & Hend & Hall & Hres); [lia| |].
  { rewrite firstn_all. exact H. }
  rewrite firstn_all in Htk. rewrite drop_all, app_nil_r in Hres.
  exists before, e, after. rewrite Hres. auto.
Qed.


(** ** What writeItem writes *)

Lemma noteFlags_from (notes : list gostring) (a b c : bool) :
  fold_left
    (fun '(hasScheduled, hasDeadline, hasLogbook) note =>
       (if Contains note (str "SCHEDULED:") then true else hasScheduled,
        if Contains note (str "DEADLINE:") then true else hasDeadline,
        if Contains note (str ":LOGBOOK:") then true else hasLogbook))
    notes (a, b, c)
  = (a || mentions (str "SCHEDULED:") notes,
     b || mentions (str "DEADLINE:") notes,
     c || mentions (str ":LOGBOOK:") notes).
Proof.
  revert a b c. induction notes as [|n notes IH]; intros a b c; simpl.
  - rewrite !orb_false_r. reflexivity.
  - rewrite IH.
    destruct (Contains n (str "SCHEDULED:")), (Contains n (str "DEADLINE:")),
      (Contains n (str ":LOGBOOK:")); destruct a, b, c; reflexivity.
Qed.

Lemma noteFlags_mentions (notes : list gostring) :
  noteFlags notes
  = (mentions (str "SCHEDULED:") notes, mentions (str "DEADLINE:") notes,
     mentions (str ":LOGBOOK:") notes).
Proof. unfold noteFlags. rewrite noteFlags_from. reflexivity. Qed.

Lemma fold_WriteString {A} (f : A -> gostring) (l : list A) (w : gostring) :
  fold_left (fun w x => WriteString w (f x)) l w = w ++ concat (map f l).
Proof.
  revert w. induction l as [|x l IH]; intros w; simpl.
  - rewrite app_nil_r. reflexivity.
  - rewrite IH. unfold WriteString. rewrite <- app_assoc. reflexivity.
Qed.

Lemma clockLine_entryText (entry : ClockEntry) : clockLine entry = entryText entry.
Proof.
  unfold clockLine, entryText. destruct (End entry);
    rewrite <- ?app_assoc; reflexivity.
Qed.

Lemma writeOwn_ownText (w : gostring) (item : Item) :
  writeOwn w item = w ++ ownText item.
Proof.
  unfold writeOwn, ownText. rewrite noteFlags_mentions.
  rewrite (fold_WriteString (fun note => note ++ [LF])).
  fold (notesText item). unfold WriteString.
  unfold headingText, scheduledText, deadlineText, drawerText.
  destruct (is_nil (State item)) eqn:Hst; simpl negb; cbv iota;
  destruct (Scheduled item) as [ts|];
  destruct (mentions (str "SCHEDULED:") (Notes item)); simpl negb; cbv iota;
  destruct (Deadline item) as [td|];
  destruct (mentions (str "DEADLINE:") (Notes item)); simpl negb; cbv iota;
  destruct (ClockEntries item) as [|e es] eqn:Hce;
  destruct (mentions (str ":LOGBOOK:") (Notes item)); simpl negb; simpl is_nil;
    simpl orb; simpl andb; cbv iota;
    rewrite ?(fold_WriteString clockLine);
    rewrite ?(map_ext clockLine entryText clockLine_entryText);
    unfold WriteString; rewrite <- ?app_assoc; rewrite ?app_nil_l, ?app_nil_r;
    rewrite <- ?app_assoc; reflexivity.
Qed.

Lemma writeEach_prefix (write : gostring -> ptr -> option gostring)
    (items : list ptr) :
  (forall w x, x ∈ items -> write w x = option_map (app w) (write [] x)) ->
  forall w, writeEach write w items = option_map (app w) (writeEach write [] items).
Proof.
  induction items as [|x items IH]; intros Hw w; simpl.
  - rewrite app_nil_r. reflexivity.
  - rewrite (Hw w x) by (left). destruct (write [] x) as [o|]; simpl; [|reflexivity].
    assert (Hrest : forall w x, x ∈ items ->
              write w x = option_map (app w) (write [] x)).
    { intros w' x' Hx. apply Hw. right. exact Hx. }
    rewrite (IH Hrest (w ++ o)), (IH Hrest o).
    destruct (writeEach write [] items); simpl; [|reflexivity].
    rewrite app_assoc. reflexivity.
Qed.

Lemma writeItem_prefix (fuel : nat) (h : list Item) (w : gostring) (p : ptr) :
  writeItem fuel h w p = option_map (app w) (writeItem fuel h [] p).
Proof.
  revert w p. induction fuel as [|fuel IH]; intros w p; simpl; [reflexivity|].
  destruct (h !! p) as [it|]; [|reflexivity].
  rewrite !writeOwn_ownText. simpl.
  rewrite (writeEach_prefix _ _ (fun w x _ => IH w x) (w ++ ownText it)).
  rewrite (writeEach_prefix _ _ (fun w x _ => IH w x) (ownText it)).
  destruct (writeEach (writeItem fuel h) [] (Children it)); simpl; [|reflexivity].
  rewrite app_assoc. reflexivity.
Qed.

Lemma writeEach_concat (write : gostring -> ptr -> option gostring)
    (items : list ptr) (outs : list gostring) :
  (forall w x, write w x = option_map (app w) (write [] x)) ->
  Forall2 (fun x out => write [] x = Some out) items outs ->
  forall w, writeEach write w items = Some (w ++ concat outs).
Proof.
  intros Hw HF. induction HF as [|x out items outs Hx _ IH]; intros w; simpl.
  - rewrite app_nil_r. reflexivity.
  - rewrite Hw, Hx. simpl. rewrite IH, app_assoc. reflexivity.
Qed.

(** C7: what [writeItem] adds to the writer for an item is, in this
    order, the heading line (stars, the state when there is one, the
    title), a SCHEDULED line when the field is set and no note
    mentions [SCHEDULED:], a DEADLINE line when the field is set and no
    note mentions [DEADLINE:], a LOGBOOK drawer with one CLOCK line per
    entry when there are entries and no note mentions [:LOGBOOK:], the
    notes line by line, and then what it writes for each child, in
    order. *)
Theorem writeItem_order (fuel : nat) (h : list Item) (writer : gostring)
    (p : ptr) (item : Item) (outs : list gostring) :
  h !! p = Some item ->
  Forall2 (fun c out => writeItem fuel h [] c = Some out) (Children item) outs ->
  writeItem (S fuel) h writer p
  = Some (writer
          ++ headingText item
          ++ scheduledText item
          ++ deadlineText item
          ++ drawerText item
          ++ notesText item
          ++ concat outs).
Proof.
  intros Hp Hc. simpl. rewrite Hp, writeOwn_ownText.
  rewrite (writeEach_concat _ _ outs (writeItem_prefix fuel h) Hc).
  unfold ownText. rewrite <- !app_assoc. reflexivity.
Qed.

(** ** The heading grammar *)

Lemma dot_plus_eol_nonempty (s : gostring) : dot_plus_eol s = true -> s <> [].
Proof. destruct s; [discriminate|discriminate]. Qed.

Lemma ws_then_title_nonempty (k : nat) (s t : gostring) :
  ws_then_title k s = Some t -> t <> [].
Proof.
  induction k as [|k IH]; simpl; [discriminate|].
  destruct (dot_plus_eol (drop (S k) s)) eqn:E; [|exact IH].
  intros [= <-]. exact (dot_plus_eol_nonempty _ E).
Qed.

Lemma keyword_then_title_spec (kws : list gostring) (s kw t : gostring) :
  keyword_then_title kws s = Some (kw, t) -> kw ∈ kws /\ t <> [].
Proof.
  induction kws as [|k kws IH]; simpl; [discriminate|].
  destruct (strip_prefix k s) as [r|].
  - destruct (ws_then_title (length (takeWhile re_space r)) r) as [t'|] eqn:E.
    + intros [= <- <-]. split; [left|]. exact (ws_then_title_nonempty _ _ _ E).
    + intros H. destruct (IH H). split; [right|]; assumption.
  - intros H. destruct (IH H). split; [right|]; assumption.
Qed.

Lemma ws_then_heading_spec (k : nat) (s kw t : gostring) :
  ws_then_heading k s = Some (kw, t) -> kw ∈ valid_states /\ t <> [].
Proof.
  induction k as [|k IH]; cbn [ws_then_heading]; [discriminate|].
  destruct (keyword_then_title [StateTODO; StatePROG; StateBLOCK; StateDONE]
                               (drop (S k) s)) as [[kw' t']|] eqn:E.
  - intros [= <- <-]. apply keyword_then_title_spec in E as [Hin Hne].
    split; [right; exact Hin|exact Hne].
  - destruct (dot_plus_eol (drop (S k) s)) eqn:E2; [|exact IH].
    intros [= <- <-]. split; [left|]. exact (dot_plus_eol_nonempty _ E2).
Qed.

Lemma headingPattern_wf (line stars state title : gostring) :
  headingPattern line = Some (stars, state, title) ->
  1 <= length stars /\ title <> [] /\ state ∈ valid_states.
Proof.
  unfold headingPattern.
  destruct (takeWhile (is_char "*") line) as [|c cs] eqn:Hs; simpl is_nil;
    cbv iota; [discriminate|].
  destruct (ws_then_heading _ _) as [[kw t]|] eqn:E; [|discriminate].
  intros [= <- <- <-]. apply ws_then_heading_spec in E as [H1 H2].
  simpl. split; [lia|]. split; assumption.
Qed.

(** ** The scanning loop, case by case *)

Lemma parseLine_cases (P : scan -> Prop) (st : scan) (line : gostring) :
  (forall st0, same_tree st0 st -> P (appendNote line st0)) ->
  (forall stars state title,
      headingPattern line = Some (stars, state, title) ->
      P (headingLine stars state title st)) ->
  (forall p, currentItem st = Some p ->
             P (set_store (alter (contentLine line) p (store st)) st)) ->
  (currentItem st = None -> P st) ->
  P (parseLine st line).
Proof.
  intros Hnote Hhead Hcont Hnone. unfold parseLine.
  destruct (drawerStart line); [apply Hnote; repeat split|].
  destruct (drawerEnd line && inLogbookDrawer st); [apply Hnote; repeat split|].
  destruct (codeBlockStart line); [apply Hnote; repeat split|].
  destruct (codeBlockEnd line); [apply Hnote; repeat split|].
  destruct (inCodeBlock st); [apply Hnote; repeat split|].
  destruct (headingPattern line) as [[[stars state] title]|] eqn:Hh.
  - apply (Hhead _ _ _ eq_refl).
  - destruct (currentItem st) as [p|] eqn:Hc; [apply Hcont|apply Hnone]; reflexivity.
Qed.

Lemma parseLines_ind (P : scan -> Prop) (path : gostring) :
  P (initial path) ->
  (forall st line, P st -> P (parseLine st line)) ->
  forall lines, P (parseLines path lines).
Proof.
  intros H0 Hstep lines. unfold parseLines.
  generalize (initial path) H0. induction lines as [|l lines IH]; intros st Hst.
  - exact Hst.
  - simpl. apply IH, Hstep, Hst.
Qed.

Lemma keeps_node_note (line : gostring) :
  keeps_node (fun it => set_Notes (Notes it ++ [line]) it).
Proof. intros it. repeat split. Qed.

Lemma keeps_node_content (line : gostring) : keeps_node (contentLine line).
Proof.
  intros it. unfold contentLine.
  repeat match goal with
         | |- context [match ?x with _ => _ end] => destruct x
         end; repeat split.
Qed.

Lemma popStack_suffix (h : list Item) (level : nat) (stack : list ptr) :
  exists popped, stack = popped ++ popStack h level stack.
Proof.
  induction stack as [|top below [popped IH]]; cbn [popStack].
  - exists []. reflexivity.
  - destruct (h !! top) as [it|]; [|exists []; reflexivity].
    destruct (level <=? Level it)%nat; [|exists []; reflexivity].
    exists (top :: popped). simpl. f_equal. exact IH.
Qed.

Lemma popStack_top (h : list Item) (level : nat) (stack : list ptr)
    (parent : ptr) (rest : list ptr) :
  Forall (fun p => p < length h) stack ->
  popStack h level stack = parent :: rest ->
  exists it, h !! parent = Some it /\ Level it < level.
Proof.
  induction stack as [|top below IH]; cbn [popStack]; intros Hv; [discriminate|].
  apply Forall_cons in Hv as [Htop Hbelow].
  destruct (lookup_lt_is_Some_2 h top Htop) as [it Hit]. rewrite Hit.
  destruct (level <=? Level it)%nat eqn:E.
  - apply IH, Hbelow.
  - intros [= <- <-]. exists it. split; [exact Hit|].
    apply Nat.leb_gt in E. exact E.
Qed.

Lemma scan_ok_update (f : Item -> Item) (p : ptr) (st0 st : scan) :
  same_tree st0 st -> scan_ok st ->
  scan_ok (set_store (alter f p (store st0)) st0).
Proof.
  intros (Hs & _ & Hc & Hk) (Hv & Hcur & Hlast). unfold scan_ok. simpl.
  rewrite length_alter, Hs, Hc, Hk. repeat split; [exact Hv|exact Hcur|].
  destruct (currentItem st); [exact Hlast|]. rewrite Hlast. reflexivity.
Qed.

Lemma scan_ok_appendNote (line : gostring) (st0 st : scan) :
  same_tree st0 st -> scan_ok st -> scan_ok (appendNote line st0).
Proof.
  intros Hsame Hok. unfold appendNote.
  destruct (currentItem st0) eqn:E.
  - apply (scan_ok_update _ _ _ st Hsame Hok).
  - destruct Hsame as (Hs & _ & Hc & Hk), Hok as (Hv & Hcur & Hlast).
    unfold scan_ok. rewrite Hs, Hc, Hk. auto.
Qed.

Lemma scan_ok_headingLine (stars state title : gostring) (st : scan) :
  scan_ok st -> scan_ok (headingLine stars state title st).
Proof.
  intros (Hv & Hcur & Hlast). unfold headingLine.
  destruct (popStack_suffix (store st) (length stars) (itemStack st)) as [popped Hp].
  assert (Hv' : Forall (fun p => p < length (store st))
                       (popStack (store st) (length stars) (itemStack st))).
  { rewrite Hp in Hv. apply Forall_app in Hv. apply Hv. }
  destruct (popStack _ _ _) as [|parent rest]; unfold scan_ok; simpl.
  - rewrite length_app. simpl. repeat split; [|lia].
    constructor; [lia|constructor].
  - rewrite length_alter, length_app. simpl. repeat split; [|lia].
    constructor; [lia|]. eapply Forall_impl; [exact Hv'|]. simpl. intros; lia.
Qed.

Lemma scan_ok_parseLine (st : scan) (line : gostring) :
  scan_ok st -> scan_ok (parseLine st line).
Proof.
  intros Hok. apply parseLine_cases.
  - intros st0 Hsame. apply (scan_ok_appendNote _ _ st Hsame Hok).
  - intros. apply scan_ok_headingLine, Hok.
  - intros p _. apply (scan_ok_update _ _ st st); [repeat split|exact Hok].
  - intros _. exact Hok.
Qed.

Lemma scan_ok_parseLines (path : gostring) (lines : list gostring) :
  scan_ok (parseLines path lines).
Proof.
  apply parseLines_ind.
  - repeat split. constructor.
  - intros st line. apply scan_ok_parseLine.
Qed.

(** ** Well-formed items *)

Lemma well_formed_keeps (f : Item -> Item) (it : Item) :
  keeps_node f -> well_formed it -> well_formed (f it).
Proof.
  intros Hf (H1 & H2 & H3). unfold well_formed.
  destruct (Hf it) as (E1 & E2 & E3 & _). rewrite E1, E2, E3.
  repeat split; assumption.
Qed.

Lemma well_formed_parseLine (st : scan) (line : gostring) :
  Forall well_formed (store st) -> Forall well_formed (store (parseLine st line)).
Proof.
  intros Hwf. apply parseLine_cases.
  - intros st0 (Hs & _). unfold appendNote.
    destruct (currentItem st0); simpl; rewrite Hs; [|exact Hwf].
    apply Forall_alter; [exact Hwf|]. intros x _ Hx.
    apply (well_formed_keeps (fun it => set_Notes (Notes it ++ [line]) it));
      [apply keeps_node_note|exact Hx].
  - intros stars state title Hh. apply headingPattern_wf in Hh.
    assert (Hnew : Forall well_formed
              (store st ++ [mkItem (length stars) state title None None [] [] false []])).
    { apply Forall_app. split; [exact Hwf|]. constructor; [exact Hh|constructor]. }
    unfold headingLine. destruct (popStack _ _ _); simpl; [exact Hnew|].
    apply Forall_alter; [exact Hnew|]. intros x _ Hx.
    exact Hx.
  - intros p _. simpl. apply Forall_alter; [exact Hwf|]. intros x _ Hx.
    apply (well_formed_keeps (contentLine line)); [apply keeps_node_content|exact Hx].
  - intros _. exact Hwf.
Qed.

(** C10: every item of a parsed file has a level of at least one, a
    title that is not empty and one of the five states. *)
Theorem parsed_items_well_formed (path text : gostring) (h : list Item)
    (file : OrgFile) (it : Item) :
  ParseOrgFile path text = Some (h, file) ->
  it ∈ h ->
  1 <= Level it /\ Title it <> [] /\ State it ∈ valid_states.
Proof.
  unfold ParseOrgFile. destruct (scanLines text) as [lines|]; [|discriminate].
  intros [= <- _] Hin. revert it Hin. apply Forall_forall.
  apply (parseLines_ind (fun st => Forall well_formed (store st))).
  - constructor.
  - intros st line. apply well_formed_parseLine.
Qed.

(** ** Levels of parents and children *)

Lemma levels_ok_alter (f : Item -> Item) (q : ptr) (h : list Item) :
  keeps_node f -> levels_ok h -> levels_ok (alter f q h).
Proof.
  intros Hf Hok p parent c Hp Hc.
  assert (Hp' : exists parent0, h !! p = Some parent0 /\
                  Level parent = Level parent0 /\ Children parent = Children parent0).
  { destruct (decide (q = p)) as [->|Hne].
    - rewrite list_lookup_alter_eq in Hp. destruct (h !! p) as [x|]; [|discriminate].
      injection Hp as <-. destruct (Hf x) as (? & _ & _ & ?). eauto.
    - rewrite list_lookup_alter_ne in Hp by exact Hne. eauto. }
  destruct Hp' as (parent0 & Hp0 & HL & HC). rewrite HC in Hc.
  destruct (Hok p parent0 c Hp0 Hc) as (child & Hch & Hlt).
  destruct (decide (q = c)) as [->|Hne].
  - exists (f child). rewrite list_lookup_alter_eq, Hch. split; [reflexivity|].
    destruct (Hf child) as (-> & _). lia.
  - exists child. rewrite list_lookup_alter_ne by exact Hne. split; [exact Hch|lia].
Qed.

Lemma levels_ok_alloc (h : list Item) (item : Item) :
  Children item = [] -> levels_ok h -> levels_ok (h ++ [item]).
Proof.
  intros Hnil Hok p parent c Hp Hc.
  apply lookup_app_Some in Hp as [Hp|[_ Hp]].
  - destruct (Hok p parent c Hp Hc) as (child & Hch & Hlt).
    exists child. split; [|exact Hlt]. apply lookup_app_l_Some, Hch.
  - apply list_lookup_singleton_Some in Hp as [_ <-].
    rewrite Hnil in Hc. inversion Hc.
Qed.

Lemma levels_ok_headingLine (stars state title : gostring) (st : scan) :
  scan_ok st -> levels_ok (store st) ->
  levels_ok (store (headingLine stars state title st)).
Proof.
  intros (Hv & _) Hok. unfold headingLine.
  set (item := mkItem (length stars) state title None None [] [] false []).
  assert (Hnew : levels_ok (store st ++ [item])) by (apply levels_ok_alloc; auto).
  destruct (popStack_suffix (store st) (length stars) (itemStack st)) as [popped Hp].
  destruct (popStack (store st) (length stars) (itemStack st))
    as [|parent rest] eqn:Hpop; simpl; [exact Hnew|].
  destruct (popStack_top _ _ _ _ _ Hv Hpop) as (pit & Hpit & Hlt).
  intros p parent0 c Hp0 Hc.
  destruct (decide (parent = p)) as [->|Hne].
  - rewrite list_lookup_alter_eq, (lookup_app_l_Some _ _ _ _ Hpit) in Hp0.
    injection Hp0 as <-. simpl in Hc. apply elem_of_app in Hc as [Hc|Hc].
    + destruct (Hnew p pit c (lookup_app_l_Some _ _ _ _ Hpit) Hc)
        as (child & Hch & Hlt').
      destruct (decide (p = c)) as [->|Hne].
      * rewrite (lookup_app_l_Some _ _ _ _ Hpit) in Hch. injection Hch as <-. lia.
      * exists child. rewrite list_lookup_alter_ne by exact Hne. auto.
    + apply list_elem_of_singleton in Hc as ->. exists item.
      rewrite list_lookup_alter_ne by (apply lookup_lt_Some in Hpit; lia).
      rewrite lookup_app_r, Nat.sub_diag by lia. split; [reflexivity|exact Hlt].
  - rewrite list_lookup_alter_ne in Hp0 by exact Hne.
    destruct (Hnew p parent0 c Hp0 Hc) as (child & Hch & Hlt').
    destruct (decide (parent = c)) as [->|Hne'].
    + exists (set_Children (Children child ++ [length (store st)]) child).
      rewrite list_lookup_alter_eq, Hch. split; [reflexivity|exact Hlt'].
    + exists child. rewrite list_lookup_alter_ne by exact Hne'. auto.
Qed.

Lemma levels_ok_parseLine (st : scan) (line : gostring) :
  scan_ok st -> levels_ok (store st) -> levels_ok (store (parseLine st line)).
Proof.
  intros Hok Hlv. apply parseLine_cases.
  - intros st0 (Hs & _). unfold appendNote.
    destruct (currentItem st0); simpl; rewrite Hs; [|exact Hlv].
    apply levels_ok_alter; [apply keeps_node_note|exact Hlv].
  - intros. apply levels_ok_headingLine; assumption.
  - intros p _. simpl. apply levels_ok_alter; [apply keeps_node_content|exact Hlv].
  - intros _. exact Hlv.
Qed.

(** C3: in a parsed file every child of an item is an item of the
    file whose level is strictly greater than the level of its
    parent. *)
Theorem parsed_child_level_greater (path text : gostring) (h : list Item)
    (file : OrgFile) (p c : ptr) (parent : Item) :
  ParseOrgFile path text = Some (h, file) ->
  h !! p = Some parent ->
  c ∈ Children parent ->
  exists child, h !! c = Some child /\ Level parent < Level child.
Proof.
  unfold ParseOrgFile. destruct (scanLines text) as [lines|]; [|discriminate].
  intros [= <- _]. revert p parent c.
  apply (parseLines_ind (fun st => scan_ok st /\ levels_ok (store st))).
  - split; [repeat split; constructor|]. intros p parent c Hp. inversion Hp.
  - intros st line [Hok Hlv]. split.
    + apply scan_ok_parseLine, Hok.
    + apply levels_ok_parseLine; assumption.
Qed.

(** ** Lines that are not headings *)

Lemma takeWhile_dropWhile {A} (f : A -> bool) (l : list A) :
  takeWhile f l ++ dropWhile f l = l.
Proof.
  induction l as [|x l IH]; simpl; [reflexivity|].
  destruct (f x); simpl; [rewrite IH|]; reflexivity.
Qed.

Lemma takeWhile_all {A} (f : A -> bool) (l : list A) :
  forallb f (takeWhile f l) = true.
Proof.
  induction l as [|x l IH]; simpl; [reflexivity|].
  destruct (f x) eqn:E; simpl; [rewrite E, IH|]; reflexivity.
Qed.

Lemma strip_prefix_Some (pre s r : gostring) :
  strip_prefix pre s = Some r -> s = pre ++ r.
Proof.
  revert s. induction pre as [|c pre IH]; intros s; simpl.
  - intros [= ->]. reflexivity.
  - destruct s as [|d s]; [discriminate|].
    destruct (Ascii.eqb c d) eqn:E; [|discriminate].
    apply Ascii.eqb_eq in E as ->. intros H. rewrite (IH _ H). reflexivity.
Qed.

Lemma strip_prefix_app (pre r : gostring) : strip_prefix pre (pre ++ r) = Some r.
Proof.
  induction pre as [|c pre IH]; simpl; [reflexivity|].
  rewrite Ascii.eqb_refl. exact IH.
Qed.

Lemma re_space_ascii_space (c : ascii) : re_space c = true -> ascii_space c = true.
Proof.
  unfold re_space, ascii_space. intros H.
  repeat (apply orb_true_iff in H as [H|H]); rewrite H, ?orb_true_r; reflexivity.
Qed.

Lemma trimLeft_text (c : ascii) (r : gostring) :
  starts_text c = true -> trimLeft (c :: r) = c :: r.
Proof.
  unfold starts_text. intros H.
  repeat (apply andb_true_iff in H as [H ?]).
  apply negb_true_iff in H. cbn [trimLeft]. rewrite H.
  destruct r as [|c2 r]; [reflexivity|].
  assert (E2 : space2 c c2 = false).
  { unfold space2. destruct (Ascii.eqb c "194"); [discriminate|reflexivity]. }
  rewrite E2. destruct r as [|c3 r]; [reflexivity|].
  assert (E3 : space3 c c2 c3 = false).
  { unfold space3. destruct (Ascii.eqb c "225"); [discriminate|].
    destruct (Ascii.eqb c "226"); [discriminate|].
    destruct (Ascii.eqb c "227"); [discriminate|]. reflexivity. }
  rewrite E3. reflexivity.
Qed.

Lemma trimLeft_spaces (ws r : gostring) :
  forallb re_space ws = true -> trimLeft (ws ++ r) = trimLeft r.
Proof.
  induction ws as [|c ws IH]; intros H; [reflexivity|].
  simpl in H. apply andb_true_iff in H as [Hc Hws].
  cbn [app trimLeft]. rewrite (re_space_ascii_space _ Hc). apply IH, Hws.
Qed.

Lemma TrimSpace_text (ws r : gostring) (c : ascii) :
  forallb re_space ws = true -> starts_text c = true ->
  TrimSpace (ws ++ c :: r) <> [].
Proof.
  intros Hws Hc. unfold TrimSpace.
  rewrite (trimLeft_spaces _ _ Hws), (trimLeft_text _ _ Hc).
  cbn [trimRight]. rewrite (trimLeft_text _ _ Hc). discriminate.
Qed.

(** A line that starts, after white space, with a key that begins
    with a text character is not blank. *)
Lemma key_line_not_blank (c : ascii) (key line r : gostring) :
  starts_text c = true ->
  strip_prefix (c :: key) (dropWhile re_space line) = Some r ->
  TrimSpace line <> [].
Proof.
  intros Hc Hk. apply strip_prefix_Some in Hk.
  rewrite <- (takeWhile_dropWhile re_space line), Hk.
  apply TrimSpace_text; [apply takeWhile_all|exact Hc].
Qed.

Lemma whole_line_key_not_blank (c : ascii) (key line : gostring) :
  starts_text c = true -> whole_line_key (c :: key) line = true ->
  TrimSpace line <> [].
Proof.
  unfold whole_line_key. intros Hc.
  destruct (strip_prefix _ _) as [r|] eqn:E; [|discriminate].
  intros _. exact (key_line_not_blank _ _ _ _ Hc E).
Qed.

Lemma line_starts_key_not_blank (c : ascii) (key line : gostring) :
  starts_text c = true -> line_starts_key (c :: key) line = true ->
  TrimSpace line <> [].
Proof.
  unfold line_starts_key. intros Hc.
  destruct (strip_prefix _ _) as [r|] eqn:E; [|discriminate].
  intros _. exact (key_line_not_blank _ _ _ _ Hc E).
Qed.

Lemma blank_is_no_boundary (line : gostring) :
  TrimSpace line = [] ->
  drawerStart line = false /\ drawerEnd line = false /\
  codeBlockStart line = false /\ codeBlockEnd line = false.
Proof.
  intros Hb.
  repeat split; apply not_true_is_false; intros H; revert Hb.
  - apply (whole_line_key_not_blank ":" (str "LOGBOOK:")); [reflexivity|exact H].
  - apply (whole_line_key_not_blank ":" (str "END:")); [reflexivity|exact H].
  - apply (line_starts_key_not_blank "#" (str "+BEGIN_SRC")); [reflexivity|exact H].
  - apply (line_starts_key_not_blank "#" (str "+END_SRC")); [reflexivity|exact H].
Qed.

Lemma Notes_contentLine (line : gostring) (it : Item) :
  Notes (contentLine line it)
  = if is_nil (TrimSpace line) && is_nil (Notes it) then Notes it
    else Notes it ++ [line].
Proof.
  unfold contentLine.
  set (it1 := match scheduledPattern line with Some _ => _ | None => _ end).
  set (it2 := match deadlinePattern line with Some _ => _ | None => _ end).
  set (it3 := match clockPattern line with Some _ => _ | None => _ end).
  assert (H1 : Notes it1 = Notes it).
  { unfold it1. destruct (scheduledPattern line) as [m|]; [|reflexivity].
    destruct (parseOrgDate m); reflexivity. }
  assert (H2 : Notes it2 = Notes it).
  { unfold it2. destruct (deadlinePattern line) as [m|]; [|exact H1].
    destruct (parseOrgDate m); [|exact H1]. exact H1. }
  assert (H3 : Notes it3 = Notes it).
  { unfold it3. destruct (clockPattern line) as [[m1 m2]|]; [|exact H2].
    destruct (parseClockTimestamp m1); [|exact H2]. exact H2. }
  rewrite H3. destruct (TrimSpace line); destruct (Notes it) eqn:E; simpl;
    rewrite ?H3, ?E; reflexivity.
Qed.

Lemma Notes_appendNote (line : gostring) (st : scan) (p : ptr) (it : Item) :
  currentItem st = Some p -> store st !! p = Some it ->
  currentItem (appendNote line st) = Some p /\
  exists it', store (appendNote line st) !! p = Some it' /\
              Notes it' = Notes it ++ [line].
Proof.
  intros Hc Hp. unfold appendNote. rewrite Hc. simpl. split; [exact Hc|].
  rewrite list_lookup_alter_eq, Hp. simpl. eauto.
Qed.

(** C2, as the code has it: a line that is not a heading, read while
    an item is open, is appended as it is to the notes of that item,
    whatever the directive patterns and the timestamp parsers make of
    it, with one exception: outside code blocks, a blank line (empty
    once its white space is trimmed) that comes before the item has
    any note is dropped. *)
Theorem content_line_kept_unless_leading_blank (st : scan) (line : gostring)
    (p : ptr) (it : Item) :
  currentItem st = Some p ->
  store st !! p = Some it ->
  headingPattern line = None ->
  currentItem (parseLine st line) = Some p /\
  exists it',
    store (parseLine st line) !! p = Some it' /\
    Notes it' = if negb (inCodeBlock st) && is_nil (TrimSpace line)
                   && is_nil (Notes it)
                then Notes it
                else Notes it ++ [line].
Proof.
  intros Hc Hp Hh.
  assert (Hkept : forall st0, currentItem st0 = Some p -> store st0 !! p = Some it ->
            (inCodeBlock st = true \/ TrimSpace line <> []) ->
            currentItem (appendNote line st0) = Some p /\
            exists it', store (appendNote line st0) !! p = Some it' /\
              Notes it' = if negb (inCodeBlock st) && is_nil (TrimSpace line)
                             && is_nil (Notes it)
                          then Notes it else Notes it ++ [line]).
  { intros st0 Hc0 Hp0 Hwhy.
    destruct (Notes_appendNote line st0 p it Hc0 Hp0) as (H1 & it' & H2 & H3).
    split; [exact H1|]. exists it'. split; [exact H2|]. rewrite H3.
    destruct Hwhy as [-> | Hnb]; [reflexivity|].
    destruct (TrimSpace line); [contradiction|].
    rewrite andb_false_r. reflexivity. }
  assert (Hb := blank_is_no_boundary line).
  unfold parseLine.
  destruct (drawerStart line) eqn:E1.
  { apply Hkept; [exact Hc|exact Hp|]. right. intros Hbl.
    destruct (Hb Hbl) as (? & _). congruence. }
  destruct (drawerEnd line && inLogbookDrawer st) eqn:E2.
  { apply Hkept; [exact Hc|exact Hp|]. right. intros Hbl.
    apply andb_true_iff in E2 as [E2 _].
    destruct (Hb Hbl) as (_ & ? & _). congruence. }
  destruct (codeBlockStart line) eqn:E3.
  { apply Hkept; [exact Hc|exact Hp|]. right. intros Hbl.
    destruct (Hb Hbl) as (_ & _ & ? & _). congruence. }
  destruct (codeBlockEnd line) eqn:E4.
  { apply Hkept; [exact Hc|exact Hp|]. right. intros Hbl.
    destruct (Hb Hbl) as (_ & _ & _ & ?). congruence. }
  destruct (inCodeBlock st) eqn:E5.
  { apply Hkept; [exact Hc|exact Hp|]. left. reflexivity. }
  rewrite Hh, Hc. simpl. split; [exact Hc|].
  exists (contentLine line it). rewrite list_lookup_alter_eq, Hp. split; [reflexivity|].
  apply Notes_contentLine.
Qed.

(** ** Open clock entries *)

Lemma open_entries_app (a b : list ClockEntry) :
  open_entries (a ++ b) = open_entries a + open_entries b.
Proof. unfold open_entries. rewrite List.filter_app, length_app. reflexivity. Qed.

Lemma existsb_isOpen (entries : list ClockEntry) :
  existsb isOpen entries = negb (open_entries entries =? 0)%nat.
Proof.
  induction entries as [|e es IH]; [reflexivity|].
  unfold open_entries in *. simpl. destruct (isOpen e); simpl; [reflexivity|exact IH].
Qed.

Lemma closed_entries (entries : list ClockEntry) :
  Forall (fun x => End x <> None) entries -> open_entries entries = 0.
Proof.
  induction 1 as [|e es He _ IH]; [reflexivity|].
  unfold open_entries in *. simpl. unfold isOpen at 1.
  destruct (End e); [exact IH|contradiction].
Qed.

Lemma open_entries_ClockIn (now : Time) (item : Item) :
  open_entries (ClockEntries (fst (ClockIn now item)))
  = if (open_entries (ClockEntries item) =? 0)%nat then 1
    else open_entries (ClockEntries item).
Proof.
  unfold ClockIn, IsClockedIn. rewrite existsb_isOpen.
  destruct (open_entries (ClockEntries item) =? 0)%nat eqn:E; simpl.
  - rewrite open_entries_app. apply Nat.eqb_eq in E. rewrite E. reflexivity.
  - reflexivity.
Qed.

Lemma open_entries_ClockOut (now : Time) (item : Item) :
  open_entries (ClockEntries (fst (ClockOut now item)))
  = open_entries (ClockEntries item) - 1.
Proof.
  destruct (IsClockedIn item) eqn:E.
  - destruct (ClockOut_clocked now item E)
      as (before & e & after & Hentries & Hend & Hall & ->).
    simpl. rewrite Hentries, !open_entries_app.
    change (before ++ ?x :: after) with (before ++ [x] ++ after).
    replace (e :: after) with ([e] ++ after) by reflexivity.
    replace (mkClockEntry (Start e) (Some now) :: after)
      with ([mkClockEntry (Start e) (Some now)] ++ after) by reflexivity.
    rewrite !open_entries_app, (closed_entries _ Hall).
    unfold open_entries. simpl. unfold isOpen. rewrite Hend. simpl. lia.
  - rewrite (ClockOut_idle now item E). simpl. unfold IsClockedIn in E.
    rewrite existsb_isOpen in E. apply negb_false_iff, Nat.eqb_eq in E.
    rewrite E. reflexivity.
Qed.

Lemma headingLine_new (stars state title : gostring) (st : scan) :
  currentItem (headingLine stars state title st) = Some (length (store st))
  /\ exists new,
       store (headingLine stars state title st) !! length (store st) = Some new
       /\ Level new = length stars /\ ClockEntries new = [].
Proof.
  unfold headingLine.
  destruct (popStack (store st) (length stars) (itemStack st)) as [|parent stack];
    cbn [currentItem store]; (split; [reflexivity|]).
  - rewrite lookup_app_r by lia. rewrite Nat.sub_diag. cbn.
    eexists. split; [reflexivity|split; reflexivity].
  - destruct (decide (parent = length (store st))) as [->|Hne].
    + rewrite list_lookup_alter_eq, lookup_app_r by lia.
      rewrite Nat.sub_diag. cbn. eexists. split; [reflexivity|split; reflexivity].
    + rewrite list_lookup_alter_ne by exact Hne.
      rewrite lookup_app_r by lia. rewrite Nat.sub_diag. cbn.
      eexists. split; [reflexivity|split; reflexivity].
Qed.

Lemma ClockEntries_contentLine (line : gostring) (it : Item) :
  ClockEntries (contentLine line it)
  = match clockPattern line with
    | Some (m1, m2) =>
        match parseClockTimestamp m1 with
        | Some startTime =>
            ClockEntries it
            ++ [mkClockEntry startTime
                  (if is_nil m2 then None else parseClockTimestamp m2)]
        | None => ClockEntries it
        end
    | None => ClockEntries it
    end.
Proof.
  unfold contentLine.
  set (it1 := match scheduledPattern line with Some _ => _ | None => _ end).
  set (it2 := match deadlinePattern line with Some _ => _ | None => _ end).
  set (it3 := match clockPattern line with Some _ => _ | None => _ end).
  assert (H1 : ClockEntries it1 = ClockEntries it).
  { unfold it1. destruct (scheduledPattern line) as [m|]; [|reflexivity].
    destruct (parseOrgDate m); reflexivity. }
  assert (H2 : ClockEntries it2 = ClockEntries it).
  { unfold it2. destruct (deadlinePattern line) as [m|]; [|exact H1].
    destruct (parseOrgDate m); exact H1. }
  assert (H3 : ClockEntries
                 (if negb (is_nil (TrimSpace line)) || (0 <? length (Notes it3))%nat
                  then set_Notes (Notes it3 ++ [line]) it3 else it3)
               = ClockEntries it3).
  { destruct (negb (is_nil (TrimSpace line)) || (0 <? length (Notes it3))%nat);
      reflexivity. }
  rewrite H3. unfold it3.
  destruct (clockPattern line) as [[m1 m2]|]; [|exact H2].
  destruct (parseClockTimestamp m1) as [t|]; [|exact H2].
  cbn [ClockEntries set_ClockEntries]. rewrite H2.
  destruct (is_nil m2); cbn [negb]; [reflexivity|].
  destruct (parseClockTimestamp m2); reflexivity.
Qed.

Lemma parseLine_content (st : scan) (line : gostring) (p : ptr) (item : Item) :
  currentItem st = Some p -> store st !! p = Some item ->
  drawerStart line = false -> drawerEnd line && inLogbookDrawer st = false ->
  codeBlockStart line = false -> codeBlockEnd line = false ->
  inCodeBlock st = false -> headingPattern line = None ->
  store (parseLine st line) !! p = Some (contentLine line item).
Proof.
  intros Hc Hp E1 E2 E3 E4 E5 Hh. unfold parseLine.
  rewrite E1, E2, E3, E4, E5, Hh, Hc. cbn [store set_store].
  rewrite list_lookup_alter_eq, Hp. reflexivity.
Qed.

(** C9, as the code has it.  [ClockIn] and [ClockOut] keep an item with
    at most one open entry that way, and the item a heading line
    allocates has no clock entry.  The scanning loop does not keep the
    bound: a CLOCK line whose start parses and whose end is missing or
    does not parse appends one open entry to the entries of the current
    item, however many of them are open already; such a line is handled
    that way whenever it is read outside code blocks and is neither a
    heading nor the start or end of a drawer or code block.  No
    content line adds more than one open entry. *)
Theorem at_most_one_open_kept (now : Time) (item : Item) (st : scan)
    (line stars state title m1 m2 : gostring) (p : ptr) (t : Time) :
  (open_entries (ClockEntries item) <= 1 ->
   open_entries (ClockEntries (fst (ClockIn now item))) <= 1
   /\ open_entries (ClockEntries (fst (ClockOut now item))) <= 1)
  /\ (currentItem (headingLine stars state title st) = Some (length (store st))
      /\ exists new,
           store (headingLine stars state title st) !! length (store st) = Some new
           /\ ClockEntries new = [])
  /\ (clockPattern line = Some (m1, m2) ->
      parseClockTimestamp m1 = Some t ->
      m2 = [] \/ parseClockTimestamp m2 = None ->
      ClockEntries (contentLine line item)
      = ClockEntries item ++ [mkClockEntry t None]
      /\ open_entries (ClockEntries (contentLine line item))
         = S (open_entries (ClockEntries item)))
  /\ (currentItem st = Some p -> store st !! p = Some item ->
      drawerStart line = false -> drawerEnd line && inLogbookDrawer st = false ->
      codeBlockStart line = false -> codeBlockEnd line = false ->
      inCodeBlock st = false -> headingPattern line = None ->
      store (parseLine st line) !! p = Some (contentLine line item))
  /\ open_entries (ClockEntries (contentLine line item))
     <= S (open_entries (ClockEntries item)).
Proof.
  split; [|split; [|split; [|split]]].
  - intros H. rewrite open_entries_ClockIn, open_entries_ClockOut.
    destruct (open_entries (ClockEntries item) =? 0)%nat; lia.
  - destruct (headingLine_new stars state title st) as (Hc & new & Hnew & _ & Hce).
    split; [exact Hc|]. exists new. auto.
  - intros Hcp Hstart Hend.
    assert (Hentries : ClockEntries (contentLine line item)
                       = ClockEntries item ++ [mkClockEntry t None]).
    { rewrite ClockEntries_contentLine, Hcp, Hstart.
      destruct Hend as [-> | Hnone]; [reflexivity|].
      rewrite Hnone. destruct (is_nil m2); reflexivity. }
    split; [exact Hentries|].
    rewrite Hentries, open_entries_app. unfold open_entries. simpl. lia.
  - apply parseLine_content.
  - rewrite ClockEntries_contentLine.
    destruct (clockPattern line) as [[c1 c2]|]; [|lia].
    destruct (parseClockTimestamp c1); [|lia].
    rewrite open_entries_app. unfold open_entries at 2. simpl.
    destruct (isOpen _); simpl; lia.
Qed.

(** ** Trees in the store *)

Lemma tree_induction (P : tree -> Prop) :
  (forall p kids, Forall P kids -> P (Node p kids)) -> forall t, P t.
Proof.
  intros Hnode. fix IH 1. intros [p kids]. apply Hnode.
  induction kids as [|k kids IHk]; constructor; [apply IH|exact IHk].
Qed.

Lemma forest_ptrs_cons (t : tree) (ts : list tree) :
  forest_ptrs (t :: ts) = ptrs t ++ forest_ptrs ts.
Proof. reflexivity. Qed.

Lemma ptrs_Node (p : ptr) (kids : list tree) :
  ptrs (Node p kids) = p :: forest_ptrs kids.
Proof. reflexivity. Qed.

Lemma height_kids (p : ptr) (kids : list tree) (fuel : nat) :
  height (Node p kids) <= S fuel -> Forall (fun t => height t <= fuel) kids.
Proof.
  simpl. intros H. apply le_S_n in H.
  induction kids as [|k kids IH]; constructor; simpl in H; [lia|apply IH; lia].
Qed.

Lemma set_Children_same (it : Item) : set_Children (Children it) it = it.
Proof. destruct it; reflexivity. Qed.

Lemma set_Children_twice (cs cs' : list ptr) (it : Item) :
  set_Children cs' (set_Children cs it) = set_Children cs' it.
Proof. reflexivity. Qed.

Lemma alter_same_at (f : Item -> Item) (p : ptr) (h : list Item) (it : Item) :
  h !! p = Some it -> f it = it -> alter f p h = h.
Proof.
  intros Hp Hf. apply list_eq. intros i. destruct (decide (p = i)) as [->|Hne].
  - rewrite list_lookup_alter_eq, Hp. simpl. rewrite Hf. reflexivity.
  - apply list_lookup_alter_ne, Hne.
Qed.

Lemma children_only_refl (h : list Item) : children_only h h.
Proof.
  split; [reflexivity|]. intros q it Hq. exists (Children it).
  rewrite set_Children_same. exact Hq.
Qed.

Lemma children_only_trans (h1 h2 h3 : list Item) :
  children_only h1 h2 -> children_only h2 h3 -> children_only h1 h3.
Proof.
  intros [L12 H12] [L23 H23]. split; [congruence|]. intros q it Hq.
  destruct (H12 q it Hq) as [cs Hcs]. destruct (H23 q _ Hcs) as [cs' Hcs'].
  exists cs'. rewrite Hcs'. reflexivity.
Qed.

Lemma children_only_alter (cs : list ptr) (p : ptr) (h : list Item) :
  children_only h (alter (set_Children cs) p h).
Proof.
  split; [apply length_alter|]. intros q it Hq.
  destruct (decide (p = q)) as [->|Hne].
  - exists cs. rewrite list_lookup_alter_eq, Hq. reflexivity.
  - exists (Children it). rewrite list_lookup_alter_ne, set_Children_same by exact Hne.
    exact Hq.
Qed.

(** A store that agrees with [h] on the nodes of a tree represents
    the tree as [h] does. *)
Lemma represents_frame (h h' : list Item) (t : tree) :
  represents h t -> (forall q, q ∈ ptrs t -> h' !! q = h !! q) -> represents h' t.
Proof.
  induction t as [p kids IH] using tree_induction. intros Hrep Hsame.
  inversion Hrep as [p' kids' it Hp Hc Hkids]; subst.
  apply (represents_node h' p kids it).
  - rewrite Hsame; [exact Hp|]. rewrite ptrs_Node. left.
  - exact Hc.
  - clear Hrep Hp Hc. induction kids as [|k kids IHk]; constructor.
    + apply Forall_cons in IH as [IHk0 _]. apply Forall_cons in Hkids as [Hk _].
      apply IHk0; [exact Hk|]. intros q Hq. apply Hsame.
      rewrite ptrs_Node, forest_ptrs_cons. right. apply elem_of_app. left. exact Hq.
    + apply Forall_cons in IH as [_ IH']. apply Forall_cons in Hkids as [_ Hkids'].
      apply IHk; [exact IH'| |exact Hkids'].
      intros q Hq. apply Hsame. rewrite ptrs_Node in Hq |- *.
      rewrite forest_ptrs_cons. apply elem_of_cons in Hq as [->|Hq]; [left|].
      right. apply elem_of_app. right. exact Hq.
Qed.

Lemma represents_all_frame (h h' : list Item) (ts : list tree) :
  Forall (represents h) ts ->
  (forall q, q ∈ forest_ptrs ts -> h' !! q = h !! q) ->
  Forall (represents h') ts.
Proof.
  induction ts as [|t ts IH]; intros Hrep Hsame; constructor.
  - apply Forall_cons in Hrep as [Ht _]. apply (represents_frame h); [exact Ht|].
    intros q Hq. apply Hsame. rewrite forest_ptrs_cons. apply elem_of_app. left. exact Hq.
  - apply Forall_cons in Hrep as [_ Hts]. apply IH; [exact Hts|].
    intros q Hq. apply Hsame. rewrite forest_ptrs_cons. apply elem_of_app. right. exact Hq.
Qed.

Lemma prune_ptrs (target : ptr) (t t' : tree) (q : ptr) :
  prune target t = Some t' -> q ∈ ptrs t' -> q ∈ ptrs t /\ q <> target.
Proof.
  revert t' q. induction t as [p kids IH] using tree_induction. intros t' q.
  cbn [prune]. destruct (p =? target)%nat eqn:E; [discriminate|].
  apply Nat.eqb_neq in E. intros [= <-]. rewrite !ptrs_Node.
  intros Hq. apply elem_of_cons in Hq as [->|Hq]; [split; [left|exact E]|].
  assert (Hin : q ∈ forest_ptrs kids /\ q <> target).
  { clear E. induction kids as [|k kids IHk]; [inversion Hq|].
    apply Forall_cons in IH as [IHk0 IH']. cbn [keep_some] in Hq. rewrite forest_ptrs_cons.
    destruct (prune target k) as [k'|] eqn:Ek.
    - change (q ∈ forest_ptrs (k' :: keep_some (prune target) kids)) in Hq.
      rewrite forest_ptrs_cons in Hq. apply elem_of_app in Hq as [Hq|Hq].
      + destruct (IHk0 k' q eq_refl Hq). split; [apply elem_of_app; left|]; assumption.
      + destruct (IHk IH' Hq). split; [apply elem_of_app; right|]; assumption.
    - destruct (IHk IH' Hq). split; [apply elem_of_app; right|]; assumption. }
  destruct Hin. split; [right|]; assumption.
Qed.

Lemma prune_all_ptrs (target : ptr) (ts : list tree) (q : ptr) :
  q ∈ forest_ptrs (prune_all target ts) -> q ∈ forest_ptrs ts /\ q <> target.
Proof.
  unfold prune_all. induction ts as [|t ts IH]; intros Hq; [inversion Hq|].
  cbn [keep_some] in Hq. rewrite forest_ptrs_cons.
  destruct (prune target t) as [t'|] eqn:Et.
  - change (q ∈ forest_ptrs (t' :: keep_some (prune target) ts)) in Hq.
    rewrite forest_ptrs_cons in Hq. apply elem_of_app in Hq as [Hq|Hq].
    + destruct (prune_ptrs _ _ _ _ Et Hq). split; [apply elem_of_app; left|]; assumption.
    + destruct (IH Hq). split; [apply elem_of_app; right|]; assumption.
  - destruct (IH Hq). split; [apply elem_of_app; right|]; assumption.
Qed.

Lemma prune_absent (target : ptr) (t : tree) :
  target ∉ ptrs t -> prune target t = Some t.
Proof.
  induction t as [p kids IH] using tree_induction. rewrite ptrs_Node. intros Hn.
  cbn [prune]. destruct (p =? target)%nat eqn:E.
  - apply Nat.eqb_eq in E as ->. exfalso. apply Hn. left.
  - do 2 f_equal.
    assert (Hk : target ∉ forest_ptrs kids) by (intros ?; apply Hn; right; assumption).
    clear Hn E. induction kids as [|k kids IHk]; [reflexivity|].
    apply Forall_cons in IH as [IHk0 IH']. rewrite forest_ptrs_cons in Hk.
    cbn [keep_some]. rewrite IHk0 by (intros ?; apply Hk, elem_of_app; left; assumption).
    f_equal. apply IHk; [exact IH'|]. intros ?; apply Hk, elem_of_app; right; assumption.
Qed.

Lemma prune_all_absent (target : ptr) (ts : list tree) :
  target ∉ forest_ptrs ts -> prune_all target ts = ts.
Proof.
  unfold prune_all. induction ts as [|t ts IH]; intros Hn; [reflexivity|].
  rewrite forest_ptrs_cons in Hn. cbn [keep_some].
  rewrite prune_absent by (intros ?; apply Hn, elem_of_app; left; assumption).
  f_equal. apply IH. intros ?; apply Hn, elem_of_app; right; assumption.
Qed.

(** ** deleteItem *)

Lemma removeRange_spec
    (recur : list Item -> list ptr -> option (list Item * list ptr))
    (target : ptr) (f : nat) :
  (forall kids h,
      Forall (represents h) kids -> NoDup (forest_ptrs kids) ->
      Forall (fun t => height t <= f) kids ->
      delete_post target h kids [] (recur h (map root_of kids))) ->
  forall ts h result,
    Forall (represents h) ts -> NoDup (forest_ptrs ts) ->
    Forall (fun t => height t <= S f) ts ->
    delete_post target h ts result
      (removeRange recur target h result (map root_of ts)).
Proof.
  intros Hrec. induction ts as [|[p kids] ts IH]; intros h result Hrep Hnd Hht.
  - exists h. cbn. rewrite app_nil_r. repeat split; try constructor.
    + intros q it Hq. exists (Children it). rewrite set_Children_same. exact Hq.
  - apply Forall_cons in Hrep as [Hrep_t Hrep_ts].
    apply Forall_cons in Hht as [Hht_t Hht_ts].
    rewrite forest_ptrs_cons, ptrs_Node in Hnd.
    apply NoDup_app in Hnd as (Hnd_t & Hdisj & Hnd_ts).
    apply NoDup_cons in Hnd_t as [Hp_kids Hnd_kids].
    inversion Hrep_t as [p' kids' it Hp Hc Hrep_kids]; subst p' kids'.
    cbn [map root_of removeRange].
    destruct (p =? target)%nat eqn:E.
    + apply Nat.eqb_eq in E as ->.
      destruct (IH h result Hrep_ts Hnd_ts Hht_ts) as (h' & Hres & Hr' & Hfr & Hco & Hab).
      exists h'. unfold prune_all in *. cbn [keep_some prune].
      rewrite Nat.eqb_refl. repeat split.
      * exact Hres.
      * exact Hr'.
      * intros q Hq. apply Hfr. intros Hin. apply Hq.
        rewrite forest_ptrs_cons. apply elem_of_app. right. exact Hin.
      * apply Hco.
      * apply Hco.
      * intros Hn. exfalso. apply Hn. rewrite forest_ptrs_cons, ptrs_Node. left.
    + apply Nat.eqb_neq in E. rewrite Hp, Hc.
      destruct (Hrec kids h Hrep_kids Hnd_kids (height_kids _ _ _ Hht_t))
        as (h1 & Hres1 & Hr1 & Hfr1 & Hco1 & Hab1).
      rewrite Hres1. cbn [app].
      set (pk := prune_all target kids) in *.
      set (h2 := alter (set_Children (map root_of pk)) p h1).
      assert (Hp1 : h1 !! p = Some it) by (rewrite Hfr1; [exact Hp|exact Hp_kids]).
      assert (Hts2 : forall q, q ∈ forest_ptrs ts -> h2 !! q = h !! q).
      { intros q Hq. unfold h2.
        assert (q <> p) by (intros ->; apply (Hdisj p); [left|exact Hq]).
        rewrite list_lookup_alter_ne by congruence. apply Hfr1.
        intros Hin. apply (Hdisj q); [right; exact Hin|exact Hq]. }
      destruct (IH h2 (result ++ [p]) (represents_all_frame _ _ _ Hrep_ts Hts2)
                   Hnd_ts Hht_ts) as (h' & Hres & Hr' & Hfr & Hco & Hab).
      assert (Hpts : p ∉ forest_ptrs ts) by (intros Hin; apply (Hdisj p); [left|exact Hin]).
      exists h'. unfold prune_all in *. cbn [keep_some prune].
      apply Nat.eqb_neq in E. rewrite E. apply Nat.eqb_neq in E.
      fold (prune_all target kids). fold pk. repeat split.
      * rewrite Hres, <- app_assoc. reflexivity.
      * constructor; [|exact Hr'].
        apply (represents_node h' p pk (set_Children (map root_of pk) it)).
        -- rewrite (Hfr p Hpts). unfold h2. rewrite list_lookup_alter_eq, Hp1. reflexivity.
        -- reflexivity.
        -- apply (represents_all_frame h1); [exact Hr1|]. intros q Hq.
           destruct (prune_all_ptrs _ _ _ Hq) as [Hq_kids _].
           rewrite Hfr.
           ++ unfold h2. apply list_lookup_alter_ne. intros ->. exact (Hp_kids Hq_kids).
           ++ intros Hin. apply (Hdisj q); [right; exact Hq_kids|exact Hin].
      * intros q Hq. rewrite forest_ptrs_cons, ptrs_Node in Hq.
        rewrite Hfr by (intros Hin; apply Hq, elem_of_app; right; exact Hin).
        unfold h2. rewrite list_lookup_alter_ne by (intros ->; apply Hq; left).
        apply Hfr1. intros Hin. apply Hq. right. apply elem_of_app. left. exact Hin.
      * destruct Hco as [L _]. destruct Hco1 as [L1 _]. unfold h2 in L.
        rewrite length_alter in L. congruence.
      * apply (children_only_trans h h1 h'); [exact Hco1|].
        apply (children_only_trans h1 h2 h'); [apply children_only_alter|exact Hco].
      * intros Hn. rewrite forest_ptrs_cons, ptrs_Node in Hn.
        assert (Hn_kids : target ∉ forest_ptrs kids).
        { intros Hin. apply Hn. right. apply elem_of_app. left. exact Hin. }
        assert (Hn_ts : target ∉ forest_ptrs ts).
        { intros Hin. apply Hn. apply elem_of_app. right. exact Hin. }
        pose proof (prune_all_absent _ _ Hn_kids) as Hk. unfold prune_all in Hk.
        rewrite (Hab Hn_ts). unfold h2, pk. rewrite Hk.
        rewrite (Hab1 Hn_kids) in *.
        apply (alter_same_at _ _ _ it Hp). rewrite <- Hc. apply set_Children_same.
Qed.

Lemma removeFromList_spec (target : ptr) (fuel : nat) :
  forall ts h,
    Forall (represents h) ts -> NoDup (forest_ptrs ts) ->
    Forall (fun t => height t <= fuel) ts ->
    delete_post target h ts [] (removeFromList (S fuel) h (map root_of ts) target).
Proof.
  induction fuel as [|fuel IH]; intros ts h Hrep Hnd Hht.
  - destruct ts as [|[p kids] ts].
    + exists h. repeat split; try constructor.
      intros q it Hq. exists (Children it). rewrite set_Children_same. exact Hq.
    + apply Forall_cons in Hht as [Hht _]. simpl in Hht. lia.
  - cbn [removeFromList].
    apply (removeRange_spec _ target fuel); [|exact Hrep|exact Hnd|exact Hht].
    intros kids h0. apply IH.
Qed.

(** C6, as the code has it.  For a file whose roots and their
    descendants form the trees [ts], no item occurring twice:
    [deleteItem] leaves a store that represents the trees without the
    target and everything below it, changes no field of any item but
    its children, and touches nothing else of the model (it has no
    result and sets no status); when the target is no item of the
    trees, the model after the call is the model before it. *)
Theorem deleteItem_prunes (fuel : nat) (m : model) (ts : list tree) (target : ptr) :
  Items (m_orgFile m) = map root_of ts ->
  Forall (represents (heap m)) ts ->
  NoDup (forest_ptrs ts) ->
  Forall (fun t => height t <= fuel) ts ->
  exists m',
    deleteItem (S fuel) m target = Some m' /\
    Items (m_orgFile m') = map root_of (prune_all target ts) /\
    Forall (represents (heap m')) (prune_all target ts) /\
    (target ∉ forest_ptrs (prune_all target ts)) /\
    children_only (heap m) (heap m') /\
    ((cursor m', mode m', statusMsg m', editingItem m', itemToDelete m',
      reorderMode m')
     = (cursor m, mode m, statusMsg m, editingItem m, itemToDelete m,
        reorderMode m)) /\
    (target ∉ forest_ptrs ts -> m' = m).
Proof.
  intros Hroots Hrep Hnd Hht.
  destruct (removeFromList_spec target fuel ts (heap m) Hrep Hnd Hht)
    as (h' & Hres & Hr' & _ & Hco & Hab).
  unfold deleteItem. rewrite Hroots, Hres. cbn [app].
  eexists. split; [reflexivity|]. cbn. repeat split.
  - exact Hr'.
  - intros Hin. apply prune_all_ptrs in Hin as [_ Hne]. congruence.
  - apply Hco.
  - apply Hco.
  - intros Hn. rewrite (Hab Hn), (prune_all_absent _ _ Hn), <- Hroots.
    destruct m as [hp [path roots] cu mo sm ed itd ro]. reflexivity.
Qed.

(** ** swapItems *)

Lemma swapForest_pair (recur : tree -> option tree) (item1 item2 : ptr)
    (t1 t2 : tree) (rest : list tree) :
  swapForest recur item1 item2 (t1 :: t2 :: rest)
  = if is_pair item1 item2 (root_of t1) (root_of t2) then Some (t2 :: t1 :: rest)
    else match recur t1 with
         | Some t1' => Some (t1' :: t2 :: rest)
         | None => option_map (cons t1) (swapForest recur item1 item2 (t2 :: rest))
         end.
Proof. reflexivity. Qed.

Lemma swapLoop_pair
    (recur : list Item -> list ptr -> option (list Item * list ptr * bool))
    (item1 item2 : ptr) (h : list Item) (before : list ptr) (a b : ptr)
    (after : list ptr) :
  swapLoop recur item1 item2 h before (a :: b :: after)
  = if is_pair item1 item2 a b then Some (h, before ++ b :: a :: after, true)
    else match h !! a with
         | Some cell =>
             match recur h (Children cell) with
             | Some (h', children, sw) =>
                 if sw then Some (alter (set_Children children) a h',
                                  before ++ a :: b :: after, true)
                 else swapLoop recur item1 item2
                        (alter (set_Children children) a h') (before ++ [a])
                        (b :: after)
             | None => None
             end
         | None => None
         end.
Proof.
  unfold is_pair. cbn [swapLoop].
  destruct ((a =? item1)%nat && (b =? item2)%nat); [reflexivity|].
  destruct ((a =? item2)%nat && (b =? item1)%nat); reflexivity.
Qed.

Lemma elem_of_forest_swap (t1 t2 : tree) (rest : list tree) (q : ptr) :
  q ∈ forest_ptrs (t2 :: t1 :: rest) -> q ∈ forest_ptrs (t1 :: t2 :: rest).
Proof.
  rewrite !forest_ptrs_cons, !elem_of_app. tauto.
Qed.

Lemma swapForest_ptrs (recur : tree -> option tree) (item1 item2 : ptr)
    (ts ts' : list tree) :
  Forall (fun t => forall t', recur t = Some t' ->
            root_of t' = root_of t /\ forall q, q ∈ ptrs t' -> q ∈ ptrs t) ts ->
  swapForest recur item1 item2 ts = Some ts' ->
  forall q, q ∈ forest_ptrs ts' -> q ∈ forest_ptrs ts.
Proof.
  revert ts'. induction ts as [|t1 ts IH]; intros ts' Hrec; [discriminate|].
  apply Forall_cons in Hrec as [Hrec1 Hrec_ts].
  destruct ts as [|t2 rest]; [cbn [swapForest]|rewrite swapForest_pair].
  - destruct (recur t1) as [t1'|] eqn:E; [|discriminate]. intros [= <-] q.
    rewrite !forest_ptrs_cons, !elem_of_app. intros [Hq|Hq]; [left|right; exact Hq].
    apply (Hrec1 _ eq_refl), Hq.
  - destruct (is_pair item1 item2 (root_of t1) (root_of t2)).
    + intros [= <-]. apply elem_of_forest_swap.
    + destruct (recur t1) as [t1'|] eqn:E.
      * intros [= <-] q. rewrite !(forest_ptrs_cons _ (t2 :: rest)), !elem_of_app.
        intros [Hq|Hq]; [left|right; exact Hq]. apply (Hrec1 _ eq_refl), Hq.
      * destruct (swapForest recur item1 item2 (t2 :: rest)) as [tl'|] eqn:E2;
          [|discriminate].
        intros [= <-] q. rewrite (forest_ptrs_cons t1 tl'), (forest_ptrs_cons t1 (t2 :: rest)).
        rewrite !elem_of_app. intros [Hq|Hq]; [left; exact Hq|right].
        apply (IH tl' Hrec_ts eq_refl), Hq.
Qed.

Lemma swapTree_ptrs (item1 item2 : ptr) (t : tree) :
  forall t', swapTree item1 item2 t = Some t' ->
             root_of t' = root_of t /\ forall q, q ∈ ptrs t' -> q ∈ ptrs t.
Proof.
  induction t as [p kids IH] using tree_induction. intros t'. cbn [swapTree].
  destruct (swapForest _ _ _ kids) as [kids'|] eqn:E; [|discriminate].
  intros [= <-]. split; [reflexivity|]. intros q. rewrite !ptrs_Node.
  intros Hq. apply elem_of_cons in Hq as [->|Hq]; [left|right].
  apply (swapForest_ptrs _ _ _ _ _ IH E), Hq.
Qed.

Lemma swapped_ptrs (item1 item2 : ptr) (ts ts' : list tree) :
  swapped item1 item2 ts = Some ts' ->
  forall q, q ∈ forest_ptrs ts' -> q ∈ forest_ptrs ts.
Proof.
  apply swapForest_ptrs. apply Forall_forall. intros t _. apply swapTree_ptrs.
Qed.

(** The visit of the children of one item, and the store written
    back. *)
Lemma swap_below (recur : list Item -> list ptr -> option (list Item * list ptr * bool))
    (item1 item2 : ptr) (h : list Item) (p : ptr) (kids : list tree) (it : Item) :
  h !! p = Some it -> Children it = map root_of kids ->
  p ∉ forest_ptrs kids ->
  swap_post item1 item2 h kids [] (recur h (map root_of kids)) ->
  exists h1 children sw,
    recur h (map root_of kids) = Some (h1, children, sw) /\
    (forall q, q ∉ ptrs (Node p kids) ->
               alter (set_Children children) p h1 !! q = h !! q) /\
    children_only h (alter (set_Children children) p h1) /\
    match swapTree item1 item2 (Node p kids) with
    | Some t' => sw = true /\ represents (alter (set_Children children) p h1) t'
    | None => sw = false /\ alter (set_Children children) p h1 = h
    end.
Proof.
  intros Hp Hc Hpk (h1 & Hcase & Hfr & Hco). cbn [swapTree]. unfold swapped in Hcase.
  assert (Hp1 : h1 !! p = Some it) by (rewrite Hfr; [exact Hp|exact Hpk]).
  assert (Hframe : forall cs q, q ∉ ptrs (Node p kids) ->
            alter (set_Children cs) p h1 !! q = h !! q).
  { intros cs q Hq. rewrite ptrs_Node in Hq.
    rewrite list_lookup_alter_ne by (intros ->; apply Hq; left).
    apply Hfr. intros Hin. apply Hq. right. exact Hin. }
  assert (Hchild : forall cs, children_only h (alter (set_Children cs) p h1)).
  { intros cs. apply (children_only_trans h h1); [exact Hco|apply children_only_alter]. }
  destruct (swapForest (swapTree item1 item2) item1 item2 kids) as [kids'|] eqn:E.
  - destruct Hcase as [Hres Hrep]. exists h1, (map root_of kids'), true.
    split; [exact Hres|]. split; [apply Hframe|]. split; [apply Hchild|].
    split; [reflexivity|].
    apply (represents_node _ p kids' (set_Children (map root_of kids') it)).
    + rewrite list_lookup_alter_eq, Hp1. reflexivity.
    + reflexivity.
    + apply (represents_all_frame h1); [exact Hrep|]. intros q Hq.
      apply list_lookup_alter_ne. intros ->. apply Hpk.
      apply (swapped_ptrs item1 item2 kids kids' E), Hq.
  - destruct Hcase as [Hres ->]. exists h, (map root_of kids), false.
    split; [exact Hres|]. split; [apply Hframe|]. split; [apply Hchild|].
    split; [reflexivity|].
    apply (alter_same_at _ _ _ it Hp). rewrite <- Hc. apply set_Children_same.
Qed.

Lemma swapLoop_spec
    (recur : list Item -> list ptr -> option (list Item * list ptr * bool))
    (item1 item2 : ptr) (f : nat) :
  (forall kids h,
      Forall (represents h) kids -> NoDup (forest_ptrs kids) ->
      Forall (fun t => height t <= f) kids ->
      swap_post item1 item2 h kids [] (recur h (map root_of kids))) ->
  forall ts h before,
    Forall (represents h) ts -> NoDup (forest_ptrs ts) ->
    Forall (fun t => height t <= S f) ts ->
    swap_post item1 item2 h ts before
      (swapLoop recur item1 item2 h before (map root_of ts)).
Proof.
  intros Hrec. induction ts as [|[p kids] ts IH]; intros h before Hrep Hnd Hht.
  - exists h. cbn. rewrite app_nil_r. repeat split; try reflexivity.
    intros q it Hq. exists (Children it). rewrite set_Children_same. exact Hq.
  - apply Forall_cons in Hrep as [Hrep_t Hrep_ts].
    apply Forall_cons in Hht as [Hht_t Hht_ts].
    rewrite forest_ptrs_cons in Hnd.
    apply NoDup_app in Hnd as (Hnd_t & Hdisj & Hnd_ts).
    rewrite ptrs_Node in Hnd_t. apply NoDup_cons in Hnd_t as [Hp_kids Hnd_kids].
    inversion Hrep_t as [p' kids' it Hp Hc Hrep_kids]; subst p' kids'.
    destruct (swap_below recur item1 item2 h p kids it Hp Hc Hp_kids
                (Hrec kids h Hrep_kids Hnd_kids (height_kids _ _ _ Hht_t)))
      as (h1 & children & sw & Hres1 & Hfr2 & Hco2 & Hcase).
    set (h2 := alter (set_Children children) p h1) in *.
    assert (Hrest2 : Forall (represents h2) ts).
    { apply (represents_all_frame h); [exact Hrep_ts|]. intros q Hq. apply Hfr2.
      intros Hin. exact (Hdisj q Hin Hq). }
    assert (Hfr_all : forall q, q ∉ forest_ptrs (Node p kids :: ts) -> h2 !! q = h !! q).
    { intros q Hq. apply Hfr2. intros Hin. apply Hq. rewrite forest_ptrs_cons.
      apply elem_of_app. left. exact Hin. }
    destruct ts as [|[p2 kids2] rest].
    + cbn [map root_of swapLoop]. rewrite Hp, Hc, Hres1. fold h2.
      exists h2. unfold swapped. cbn [swapForest].
      destruct (swapTree item1 item2 (Node p kids)) as [t'|] eqn:Et; cbn [option_map].
      * destruct Hcase as [-> Hrep']. destruct (swapTree_ptrs _ _ _ _ Et) as [Hroot _].
        cbn [map]. rewrite Hroot. cbn [root_of].
        repeat split; [constructor; [exact Hrep'|constructor]|exact Hfr_all|apply Hco2..].
      * destruct Hcase as [-> Hsame].
        repeat split; [exact Hsame|exact Hfr_all|apply Hco2..].
    + change (map root_of (Node p kids :: Node p2 kids2 :: rest))
        with (p :: p2 :: map root_of rest).
      rewrite swapLoop_pair. unfold swap_post, swapped. rewrite swapForest_pair.
      cbn [root_of]. destruct (is_pair item1 item2 p p2).
      * exists h. repeat split.
        -- apply Forall_cons in Hrep_ts as [Hrep2 Hrep_rest].
           constructor; [exact Hrep2|]. constructor; [exact Hrep_t|exact Hrep_rest].
        -- intros q it0 Hq. exists (Children it0). rewrite set_Children_same. exact Hq.
      * rewrite Hp, Hc, Hres1. fold h2.
        destruct (swapTree item1 item2 (Node p kids)) as [t'|] eqn:Et.
        -- destruct Hcase as [-> Hrep']. destruct (swapTree_ptrs _ _ _ _ Et) as [Hroot _].
           exists h2. cbn [map]. rewrite Hroot. cbn [root_of].
           repeat split; [constructor; [exact Hrep'|exact Hrest2]|exact Hfr_all
                         |apply Hco2..].
        -- destruct Hcase as [-> Hsame]. rewrite Hsame in *.
           destruct (IH h (before ++ [p]) Hrep_ts Hnd_ts Hht_ts)
             as (h' & Hcase' & Hfr' & Hco').
           change (map root_of (Node p2 kids2 :: rest))
             with (p2 :: map root_of rest) in Hcase'.
           unfold swapped in Hcase'.
           exists h'.
           assert (Hfr_h' : forall q, q ∉ forest_ptrs (Node p kids :: Node p2 kids2 :: rest) ->
                      h' !! q = h !! q).
           { intros q Hq. apply Hfr'. intros Hin. apply Hq.
             rewrite forest_ptrs_cons. apply elem_of_app. right. exact Hin. }
           destruct (swapForest (swapTree item1 item2) item1 item2
                       (Node p2 kids2 :: rest)) as [tl'|]; cbn [option_map].
           ++ destruct Hcase' as [Hres' Hrep'].
              repeat split; [rewrite Hres', <- app_assoc; reflexivity| |exact Hfr_h'
                            |apply Hco'..].
              constructor; [|exact Hrep'].
              apply (represents_frame h); [exact Hrep_t|]. intros q Hq. apply Hfr'.
              intros Hin. exact (Hdisj q Hq Hin).
           ++ destruct Hcase' as [Hres' ->].
              repeat split; [rewrite Hres', <- app_assoc; reflexivity|apply Hco'].
Qed.

Lemma swapInList_spec (item1 item2 : ptr) (fuel : nat) :
  forall ts h,
    Forall (represents h) ts -> NoDup (forest_ptrs ts) ->
    Forall (fun t => height t <= fuel) ts ->
    swap_post item1 item2 h ts []
      (swapInList (S fuel) item1 item2 h (map root_of ts)).
Proof.
  induction fuel as [|fuel IH]; intros ts h Hrep Hnd Hht.
  - destruct ts as [|[p kids] ts].
    + exists h. repeat split; try reflexivity.
      intros q it Hq. exists (Children it). rewrite set_Children_same. exact Hq.
    + apply Forall_cons in Hht as [Hht _]. simpl in Hht. lia.
  - cbn [swapInList].
    apply (swapLoop_spec _ item1 item2 fuel); [|exact Hrep|exact Hnd|exact Hht].
    intros kids h0. apply IH.
Qed.

Lemma swapForest_None (recur : tree -> option tree) (below : tree -> bool)
    (item1 item2 : ptr) (ts : list tree) :
  Forall (fun t => recur t = None <-> below t = false) ts ->
  swapForest recur item1 item2 ts = None <->
  adjacent_roots item1 item2 (map root_of ts) || existsb below ts = false.
Proof.
  induction ts as [|t1 ts IH]; intros Hrec; [split; reflexivity|].
  apply Forall_cons in Hrec as [Hrec1 Hrec_ts]. destruct ts as [|t2 rest].
  - cbn [swapForest map adjacent_roots existsb orb]. rewrite orb_false_r.
    destruct Hrec1 as [H1 H2].
    destruct (recur t1) as [t1'|]; cbn [option_map]; split; intros H;
      try discriminate; [discriminate (H2 H)|exact (H1 eq_refl)|reflexivity].
  - rewrite swapForest_pair.
    change (map root_of (t1 :: t2 :: rest))
      with (root_of t1 :: root_of t2 :: map root_of rest).
    change (adjacent_roots item1 item2 (root_of t1 :: root_of t2 :: map root_of rest))
      with (is_pair item1 item2 (root_of t1) (root_of t2)
            || adjacent_roots item1 item2 (map root_of (t2 :: rest))).
    change (existsb below (t1 :: t2 :: rest))
      with (below t1 || existsb below (t2 :: rest)).
    specialize (IH Hrec_ts).
    destruct (is_pair item1 item2 (root_of t1) (root_of t2)); [split; discriminate|].
    destruct (recur t1) as [t1'|] eqn:E.
    + destruct (below t1) eqn:B.
      * rewrite orb_true_r. split; discriminate.
      * destruct Hrec1 as [_ Hrec1]. discriminate (Hrec1 eq_refl).
    + destruct Hrec1 as [Hrec1 _]. rewrite (Hrec1 eq_refl). cbn [orb].
      destruct IH as [H1 H2].
      destruct (swapForest recur item1 item2 (t2 :: rest)); cbn [option_map];
        split; intros H; try discriminate;
        [discriminate (H2 H)|exact (H1 eq_refl)|reflexivity].
Qed.

Lemma swapTree_None (item1 item2 : ptr) (t : tree) :
  swapTree item1 item2 t = None <-> adjacent_below item1 item2 t = false.
Proof.
  induction t as [p kids IH] using tree_induction. cbn [swapTree adjacent_below].
  destruct (swapForest_None _ _ item1 item2 _ IH) as [H1 H2].
  destruct (swapForest (swapTree item1 item2) item1 item2 kids); cbn [option_map];
    split; intros H; try discriminate;
    [discriminate (H2 H)|exact (H1 eq_refl)|reflexivity].
Qed.

Lemma swapped_None (item1 item2 : ptr) (ts : list tree) :
  swapped item1 item2 ts = None <-> adjacent item1 item2 ts = false.
Proof.
  apply swapForest_None. apply Forall_forall. intros t _. apply swapTree_None.
Qed.

Lemma moveItemUp_levels (soon : Time -> bool) (fuel : nat) (m : model)
    (items : list ptr) (cur prev : ptr) (c pv : Item) :
  getVisibleItems soon fuel m = Some items ->
  cursor m <> 0 ->
  items !! cursor m = Some cur -> items !! (cursor m - 1) = Some prev ->
  heap m !! cur = Some c -> heap m !! prev = Some pv ->
  Level c <> Level pv ->
  moveItemUp soon fuel m
  = Some (setStatus (str "Cannot move across different levels") m).
Proof.
  intros Hv Hc Hcur Hprev Hhc Hhp Hl. unfold moveItemUp.
  rewrite Hv, Hcur, Hprev, Hhc, Hhp.
  apply lookup_lt_Some in Hcur.
  destruct (length items =? 0)%nat eqn:E1; [apply Nat.eqb_eq in E1; lia|].
  destruct (cursor m =? 0)%nat eqn:E2; [apply Nat.eqb_eq in E2; lia|].
  apply Nat.eqb_neq in Hl. rewrite Hl. reflexivity.
Qed.

(** X5: what [swapItems] and the level test of [moveItemUp] do.  For
    a file whose roots and their descendants form the trees [ts], no
    item occurring twice:
    [swapItems] exchanges the two items when they are neighbours in a
    list (the roots or the children of an item), whatever their
    levels, by leaving a store that represents the trees with the pair
    exchanged; when they are neighbours nowhere, the model after the
    call is the model before it; in both cases it has no result and
    sets no status.  The levels are compared by the caller:
    [moveItemUp] refuses, with a status and no other change, when the
    item under the cursor and the visible item before it differ in
    level. *)
Theorem swapItems_neighbours_any_level (soon : Time -> bool) (fuel : nat)
    (m : model) (ts : list tree) (item1 item2 : ptr)
    (items : list ptr) (cur prev : ptr) (c pv : Item) :
  (Items (m_orgFile m) = map root_of ts ->
   Forall (represents (heap m)) ts ->
   NoDup (forest_ptrs ts) ->
   Forall (fun t => height t <= fuel) ts ->
   exists m',
     swapItems (S fuel) m item1 item2 = Some m' /\
     ((cursor m', mode m', statusMsg m', editingItem m', itemToDelete m',
       reorderMode m')
      = (cursor m, mode m, statusMsg m, editingItem m, itemToDelete m,
         reorderMode m)) /\
     children_only (heap m) (heap m') /\
     (adjacent item1 item2 ts = false -> m' = m) /\
     (adjacent item1 item2 ts = true ->
      exists ts', swapped item1 item2 ts = Some ts' /\
                  Items (m_orgFile m') = map root_of ts' /\
                  Forall (represents (heap m')) ts'))
  /\
  (getVisibleItems soon fuel m = Some items ->
   cursor m <> 0 ->
   items !! cursor m = Some cur -> items !! (cursor m - 1) = Some prev ->
   heap m !! cur = Some c -> heap m !! prev = Some pv ->
   Level c <> Level pv ->
   moveItemUp soon fuel m
   = Some (setStatus (str "Cannot move across different levels") m)).
Proof.
  split; [|apply moveItemUp_levels].
  intros Hroots Hrep Hnd Hht.
  destruct (swapInList_spec item1 item2 fuel ts (heap m) Hrep Hnd Hht)
    as (h' & Hcase & _ & Hco).
  unfold swapItems. rewrite Hroots.
  pose proof (swapped_None item1 item2 ts) as Hadj.
  destruct (swapped item1 item2 ts) as [ts'|] eqn:Esw.
  - destruct Hcase as [-> Hrep']. cbn [app].
    eexists. split; [reflexivity|]. cbn. repeat split; try apply Hco.
    + intros Hfalse. apply Hadj in Hfalse. discriminate.
    + intros _. exists ts'. auto.
  - destruct Hcase as [-> ->]. cbn [app].
    eexists. split; [reflexivity|]. cbn. repeat split; try apply Hco.
    + intros _. rewrite <- Hroots.
      destruct m as [hp [path roots] cu mo sm ed itd ro]. reflexivity.
    + intros Htrue. destruct Hadj as [Hadj _]. rewrite (Hadj eq_refl) in Htrue.
      discriminate.
Qed.

Lemma swapItems_not_adjacent (fuel : nat) (m : model) (ts : list tree)
    (item1 item2 : ptr) :
  Items (m_orgFile m) = map root_of ts ->
  Forall (represents (heap m)) ts ->
  NoDup (forest_ptrs ts) ->
  Forall (fun t => height t <= fuel) ts ->
  adjacent item1 item2 ts = false ->
  swapItems (S fuel) m item1 item2 = Some m.
Proof.
  intros Hroots Hrep Hnd Hht Hadj.
  destruct (swapInList_spec item1 item2 fuel ts (heap m) Hrep Hnd Hht)
    as (h' & Hcase & _ & _).
  apply swapped_None in Hadj. rewrite Hadj in Hcase. destruct Hcase as [Hres ->].
  unfold swapItems. rewrite Hroots, Hres. cbn [app]. rewrite <- Hroots.
  destruct m as [hp [path roots] cu mo sm ed itd ro]. reflexivity.
Qed.

(** C8, where the code departs from it.  For a file whose roots and
    their descendants form the trees [ts], no item occurring twice:
    when the item under the cursor and the visible item before it have
    the same level but are neighbours in no list (not among the roots,
    not among the children of any item), [moveItemUp] changes nothing
    in the tree and still moves the cursor up and sets the status
    "Item moved up": [swapItems] has no result to tell it that nothing
    was exchanged. *)
Theorem moveItemUp_reports_a_move_not_made (soon : Time -> bool) (fuel : nat)
    (m : model) (ts : list tree) (items : list ptr) (cur prev : ptr)
    (c pv : Item) :
  Items (m_orgFile m) = map root_of ts ->
  Forall (represents (heap m)) ts ->
  NoDup (forest_ptrs ts) ->
  Forall (fun t => height t <= fuel) ts ->
  getVisibleItems soon (S fuel) m = Some items ->
  cursor m <> 0 ->
  items !! cursor m = Some cur -> items !! (cursor m - 1) = Some prev ->
  heap m !! cur = Some c -> heap m !! prev = Some pv ->
  Level c = Level pv ->
  adjacent cur prev ts = false ->
  moveItemUp soon (S fuel) m
  = Some (setStatus (str "Item moved up") (set_cursor (cursor m - 1) m)).
Proof.
  intros Hroots Hrep Hnd Hht Hv Hc Hcur Hprev Hhc Hhp Hl Hadj.
  unfold moveItemUp. rewrite Hv, Hcur, Hprev, Hhc, Hhp.
  apply lookup_lt_Some in Hcur.
  destruct (length items =? 0)%nat eqn:E1; [apply Nat.eqb_eq in E1; lia|].
  destruct (cursor m =? 0)%nat eqn:E2; [apply Nat.eqb_eq in E2; lia|].
  apply Nat.eqb_eq in Hl. rewrite Hl.
  rewrite (swapItems_not_adjacent fuel m ts cur prev Hroots Hrep Hnd Hht Hadj).
  reflexivity.
Qed.

(** ** Reading the lines back from a text *)

Lemma rawLines_line (l rest : gostring) :
  forallb (not_char LF) l = true ->
  rawLines (l ++ LF :: rest) = l :: rawLines rest.
Proof.
  induction l as [|c l IH]; intros Hl.
  - reflexivity.
  - simpl in Hl. apply andb_true_iff in Hl as [Hc Hl].
    cbn [app rawLines]. unfold not_char in Hc. rewrite Ascii.eqb_sym in Hc.
    apply negb_true_iff in Hc. rewrite Hc, (IH Hl). reflexivity.
Qed.

Lemma rawLines_joinLines (lines : list gostring) :
  forallb (fun l => forallb (not_char LF) l) lines = true ->
  rawLines (joinLines lines) = lines.
Proof.
  induction lines as [|l lines IH]; intros H; [reflexivity|].
  simpl in H. apply andb_true_iff in H as [Hl Hls].
  unfold joinLines. cbn [map concat]. rewrite <- app_assoc. cbn [app].
  rewrite (rawLines_line _ _ Hl). f_equal. apply IH, Hls.
Qed.

Lemma dropCR_plain (l : gostring) : ends_with_CR l = false -> dropCR l = l.
Proof.
  unfold ends_with_CR. induction l as [|c l IH]; [reflexivity|].
  destruct l as [|d l].
  - cbn. intros ->. reflexivity.
  - rewrite last_cons_cons. intros H. cbn [dropCR]. f_equal. apply IH, H.
Qed.

Lemma scanLines_joinLines (lines : list gostring) :
  forallb plain_line lines = true -> scanLines (joinLines lines) = Some lines.
Proof.
  intros H. unfold scanLines.
  assert (H1 : forallb (fun l => forallb (not_char LF) l) lines = true).
  { apply forallb_forall. intros l Hl. rewrite forallb_forall in H.
    specialize (H l Hl). unfold plain_line in H.
    apply andb_true_iff in H as [H _]. apply andb_true_iff in H as [H _]. exact H. }
  rewrite (rawLines_joinLines _ H1).
  assert (H2 : forallb fits lines = true).
  { apply forallb_forall. intros l Hl. rewrite forallb_forall in H.
    specialize (H l Hl). unfold plain_line in H.
    apply andb_true_iff in H as [_ H]. exact H. }
  rewrite H2. f_equal. clear H1 H2.
  induction lines as [|l lines IH]; [reflexivity|].
  simpl in H. apply andb_true_iff in H as [Hl Hls]. cbn [map]. f_equal.
  - apply dropCR_plain. unfold plain_line in Hl.
    apply andb_true_iff in Hl as [Hl _]. apply andb_true_iff in Hl as [_ Hl].
    apply negb_true_iff in Hl. exact Hl.
  - apply IH, Hls.
Qed.

(** ** Lines the parser keeps as they are *)

Lemma bytes_eqb_eq (a b : gostring) : bytes_eqb a b = true -> a = b.
Proof.
  revert b. induction a as [|x a IH]; intros [|y b]; simpl; try discriminate.
  - reflexivity.
  - intros H. apply andb_true_iff in H as [Hx Hab].
    apply Ascii.eqb_eq in Hx as ->. rewrite (IH _ Hab). reflexivity.
Qed.

Lemma flat_app (h1 h2 : list Item) : flat (h1 ++ h2) = flat h1 ++ flat h2.
Proof. unfold flat. rewrite map_app, concat_app. reflexivity. Qed.

Lemma flat_alter_same (g : Item -> Item) (q : ptr) (h : list Item) :
  (forall it, rawText (g it) = rawText it) -> flat (alter g q h) = flat h.
Proof.
  intros Hg. revert q. induction h as [|x h IH]; intros q; [reflexivity|].
  destruct q as [|q]; unfold flat in *; cbn [alter list_alter map concat].
  - rewrite Hg. reflexivity.
  - f_equal. apply IH.
Qed.

Lemma flat_alter_last (f : Item -> Item) (p : ptr) (h : list Item) (it : Item)
    (extra : gostring) :
  h !! p = Some it -> S p = length h ->
  rawText (f it) = rawText it ++ extra ->
  flat (alter f p h) = flat h ++ extra.
Proof.
  intros Hp Hlen Hf.
  destruct (last_Some h it) as [Hlast _].
  destruct Hlast as [h0 ->].
  { rewrite last_lookup. replace (pred (length h)) with p by lia. exact Hp. }
  rewrite length_app in Hlen. simpl in Hlen.
  rewrite alter_app_r_alt by lia. replace (p - length h0) with 0 by lia.
  cbn [alter list_alter]. rewrite !flat_app. unfold flat. cbn [map concat].
  rewrite Hf, !app_nil_r, app_assoc. reflexivity.
Qed.

Lemma rawText_note (line : gostring) (it : Item) :
  rawText (set_Notes (Notes it ++ [line]) it) = rawText it ++ line ++ [LF].
Proof.
  unfold rawText, notesText, headingText. cbn.
  rewrite map_app, concat_app. cbn. rewrite app_nil_r, <- !app_assoc. reflexivity.
Qed.

Lemma rawText_keeps (f : Item -> Item) (it : Item) :
  keeps_node f -> Notes (f it) = Notes it -> rawText (f it) = rawText it.
Proof.
  intros Hk Hn. destruct (Hk it) as (HL & HS & HT & _).
  unfold rawText, notesText, headingText. rewrite HL, HS, HT, Hn. reflexivity.
Qed.

Lemma rawText_content (line : gostring) (it : Item) :
  negb (is_nil (TrimSpace line)) || negb (is_nil (Notes it)) = true ->
  rawText (contentLine line it) = rawText it ++ line ++ [LF].
Proof.
  intros Hkeep. rewrite <- rawText_note.
  destruct (keeps_node_content line it) as (HL & HS & HT & _).
  unfold rawText, notesText, headingText. rewrite HL, HS, HT, Notes_contentLine.
  destruct (is_nil (TrimSpace line)), (is_nil (Notes it)); try discriminate;
    reflexivity.
Qed.

Lemma flat_appendNote (line : gostring) (st0 st : scan) :
  same_tree st0 st -> scan_ok st -> currentItem st <> None ->
  flat (store (appendNote line st0)) = flat (store st) ++ line ++ [LF].
Proof.
  intros (Hs & _ & Hc & _) (_ & _ & Hlast) Hopen. unfold appendNote. rewrite Hc.
  destruct (currentItem st) as [p|]; [|contradiction]. cbn [store set_store].
  rewrite Hs. destruct (lookup_lt_is_Some_2 (store st) p ltac:(lia)) as [it Hit].
  apply (flat_alter_last _ p _ it); [exact Hit|exact Hlast|apply rawText_note].
Qed.

Lemma flat_headingLine (stars state title : gostring) (st : scan) :
  flat (store (headingLine stars state title st))
  = flat (store st) ++ renderHeading stars state title ++ [LF].
Proof.
  unfold headingLine.
  assert (Hnew : flat (store st ++ [mkItem (length stars) state title None None [] []
                                           false []])
                 = flat (store st) ++ renderHeading stars state title ++ [LF]).
  { rewrite flat_app. f_equal. unfold flat, rawText, headingText, notesText,
      renderHeading. cbn. rewrite !app_nil_r, <- !app_assoc. reflexivity. }
  destruct (popStack _ _ _); cbn [store]; [exact Hnew|].
  rewrite flat_alter_same; [exact Hnew|]. intros it. reflexivity.
Qed.

(** The step of the scanning loop on a line that is kept. *)
Lemma flat_parseLine (st : scan) (line : gostring) :
  scan_ok st -> kept st line = true ->
  flat (store (parseLine st line)) = flat (store st) ++ line ++ [LF].
Proof.
  intros Hok. unfold kept, parseLine.
  assert (Hnote : forall st0, same_tree st0 st ->
            match currentItem st with Some _ => true | None => false end = true ->
            flat (store (appendNote line st0)) = flat (store st) ++ line ++ [LF]).
  { intros st0 Hsame Hopen. apply (flat_appendNote _ _ st Hsame Hok).
    destruct (currentItem st); [discriminate|discriminate]. }
  destruct (drawerStart line); [apply Hnote; repeat split|].
  destruct (drawerEnd line && inLogbookDrawer st); [apply Hnote; repeat split|].
  destruct (codeBlockStart line); [apply Hnote; repeat split|].
  destruct (codeBlockEnd line); [apply Hnote; repeat split|].
  destruct (inCodeBlock st); [apply Hnote; repeat split|]. cbn [orb].
  destruct (headingPattern line) as [[[stars state] title]|].
  - intros H. apply bytes_eqb_eq in H. rewrite flat_headingLine, H. reflexivity.
  - destruct (currentItem st) as [p|] eqn:Hc; [|discriminate].
    destruct (store st !! p) as [it|] eqn:Hp; [|discriminate].
    intros Hkeep. cbn [store set_store].
    destruct Hok as (_ & _ & Hlast). rewrite Hc in Hlast.
    apply (flat_alter_last _ p _ it); [exact Hp|exact Hlast|].
    apply rawText_content, Hkeep.
Qed.

Lemma flat_parseLines (path : gostring) (lines : list gostring) :
  kept_all (initial path) lines = true ->
  flat (store (parseLines path lines)) = joinLines lines.
Proof.
  unfold parseLines.
  assert (Hgen : forall st, scan_ok st -> kept_all st lines = true ->
            flat (store (fold_left parseLine lines st))
            = flat (store st) ++ joinLines lines).
  { induction lines as [|l lines IH]; intros st Hok Hk.
    - cbn. rewrite app_nil_r. reflexivity.
    - cbn [kept_all] in Hk. apply andb_true_iff in Hk as [Hl Hls].
      cbn [fold_left]. rewrite (IH _ (scan_ok_parseLine _ _ Hok) Hls).
      rewrite (flat_parseLine _ _ Hok Hl). unfold joinLines. cbn [map concat].
      rewrite <- !app_assoc. reflexivity. }
  intros Hk. rewrite Hgen; [reflexivity| |exact Hk].
  repeat split. constructor.
Qed.

(** ** The trees the parser builds *)

Lemma forest_ptrs_app (ts1 ts2 : list tree) :
  forest_ptrs (ts1 ++ ts2) = forest_ptrs ts1 ++ forest_ptrs ts2.
Proof. unfold forest_ptrs. rewrite map_app, concat_app. reflexivity. Qed.

Lemma forest_ptrs_one (t : tree) : forest_ptrs [t] = ptrs t.
Proof. unfold forest_ptrs. cbn. apply app_nil_r. Qed.

Lemma on_spine_prefix (a b : list ptr) (ts : list tree) :
  on_spine ts (a ++ b) -> on_spine ts a.
Proof.
  revert ts. induction a as [|s a IH]; intros ts; [constructor|].
  cbn [app on_spine]. intros (ts0 & kids & Hts & Hk).
  exists ts0, kids. split; [exact Hts|apply IH, Hk].
Qed.

Lemma on_spine_last (stack : list ptr) (ts : list tree) (p : ptr) :
  on_spine ts stack -> last stack = Some p -> p ∈ forest_ptrs ts.
Proof.
  revert ts. induction stack as [|s rest IH]; intros ts; [discriminate|].
  intros (ts0 & kids & -> & Hk) Hlast.
  rewrite forest_ptrs_app, forest_ptrs_one, ptrs_Node. apply elem_of_app. right.
  destruct rest as [|s' rest'].
  - injection Hlast as ->. left.
  - rewrite last_cons_cons in Hlast. right. apply (IH kids Hk Hlast).
Qed.

Lemma represents_valid (h : list Item) (t : tree) (q : ptr) :
  represents h t -> q ∈ ptrs t -> q < length h.
Proof.
  induction t as [p kids IH] using tree_induction. intros Hrep.
  inversion Hrep as [p' kids' it Hp Hc Hkids]; subst. rewrite ptrs_Node.
  intros Hq. apply elem_of_cons in Hq as [->|Hq]; [apply (lookup_lt_Some _ _ _ Hp)|].
  clear Hrep Hp Hc. induction kids as [|k kids IHk]; [inversion Hq|].
  apply Forall_cons in IH as [IHk0 IH']. apply Forall_cons in Hkids as [Hk Hkids'].
  rewrite forest_ptrs_cons in Hq. apply elem_of_app in Hq as [Hq|Hq].
  - apply IHk0; assumption.
  - apply IHk; assumption.
Qed.

Lemma represents_all_valid (h : list Item) (ts : list tree) (q : ptr) :
  Forall (represents h) ts -> q ∈ forest_ptrs ts -> q < length h.
Proof.
  induction ts as [|t ts IH]; intros Hrep Hq; [inversion Hq|].
  apply Forall_cons in Hrep as [Ht Hts]. rewrite forest_ptrs_cons in Hq.
  apply elem_of_app in Hq as [Hq|Hq]; [apply (represents_valid h t)|apply IH]; assumption.
Qed.

Lemma represents_keeps (f : Item -> Item) (p : ptr) (h : list Item) (t : tree) :
  keeps_node f -> represents h t -> represents (alter f p h) t.
Proof.
  intros Hf. induction t as [q kids IH] using tree_induction. intros Hrep.
  inversion Hrep as [q' kids' it Hq Hc Hkids]; subst.
  assert (Hq' : exists it', alter f p h !! q = Some it' /\ Children it' = Children it).
  { destruct (decide (p = q)) as [->|Hne].
    - exists (f it). rewrite list_lookup_alter_eq, Hq. split; [reflexivity|].
      apply (Hf it).
    - exists it. rewrite list_lookup_alter_ne by exact Hne. auto. }
  destruct Hq' as (it' & Hit' & Hc').
  apply (represents_node _ q kids it'); [exact Hit'|congruence|].
  clear Hrep Hq Hc Hit' Hc'. induction kids as [|k kids IHk]; constructor.
  - apply Forall_cons in IH as [IHk0 _]. apply Forall_cons in Hkids as [Hk _].
    apply IHk0, Hk.
  - apply Forall_cons in IH as [_ IH']. apply Forall_cons in Hkids as [_ Hkids'].
    apply IHk; assumption.
Qed.

(** A new leaf hung under the last entry of the stack. *)
Lemma graft (h : list Item) (leaf : Item) (parent : ptr) :
  Children leaf = [] ->
  forall stack ts,
    last stack = Some parent -> on_spine ts stack ->
    Forall (represents h) ts -> NoDup (forest_ptrs ts) ->
    exists ts',
      map root_of ts' = map root_of ts /\
      Forall (represents
                (alter (fun it => set_Children (Children it ++ [length h]) it)
                       parent (h ++ [leaf]))) ts' /\
      forest_ptrs ts' = forest_ptrs ts ++ [length h] /\
      on_spine ts' (stack ++ [length h]).
Proof.
  intros Hleaf.
  set (h' := alter (fun it => set_Children (Children it ++ [length h]) it)
                   parent (h ++ [leaf])).
  assert (Hframe : forall q, q < length h -> q <> parent -> h' !! q = h !! q).
  { intros q Hq Hne. unfold h'. rewrite list_lookup_alter_ne by congruence.
    apply lookup_app_l, Hq. }
  induction stack as [|s rest IH]; intros ts Hlast Hsp Hrep Hnd; [discriminate|].
  destruct Hsp as (ts0 & kids & -> & Hk).
  apply Forall_app in Hrep as [Hrep0 Hrep_s].
  apply Forall_cons in Hrep_s as [Hrep_s _].
  inversion Hrep_s as [s' kids' it Hs Hc Hrep_kids]; subst s' kids'.
  rewrite forest_ptrs_app, forest_ptrs_one, ptrs_Node in Hnd.
  apply NoDup_app in Hnd as (Hnd0 & Hdisj & Hnd_s).
  apply NoDup_cons in Hnd_s as [Hs_kids Hnd_kids].
  assert (Hparent : parent ∈ s :: forest_ptrs kids).
  { destruct rest as [|s' rest'].
    - injection Hlast as ->. left.
    - rewrite last_cons_cons in Hlast. right. apply (on_spine_last _ _ _ Hk Hlast). }
  assert (Hrep0' : Forall (represents h') ts0).
  { apply (represents_all_frame h); [exact Hrep0|]. intros q Hq. apply Hframe.
    - apply (represents_all_valid h ts0); assumption.
    - intros ->. exact (Hdisj parent Hq Hparent). }
  assert (Hs_lt : s < length h) by (apply (lookup_lt_Some _ _ _ Hs)).
  destruct rest as [|s' rest'].
  - injection Hlast as <-.
    exists (ts0 ++ [Node s (kids ++ [Node (length h) []])]).
    rewrite !map_app, !forest_ptrs_app, !forest_ptrs_one, !ptrs_Node, forest_ptrs_app,
      forest_ptrs_one. cbn [map root_of ptrs concat app].
    repeat split.
    + apply Forall_app. split; [exact Hrep0'|]. constructor; [|constructor].
      apply (represents_node _ s _ (set_Children (Children it ++ [length h]) it)).
      * unfold h'. rewrite list_lookup_alter_eq, (lookup_app_l_Some _ _ _ _ Hs).
        reflexivity.
      * cbn. rewrite Hc, map_app. reflexivity.
      * apply Forall_app. split.
        -- apply (represents_all_frame h); [exact Hrep_kids|]. intros q Hq.
           apply Hframe; [apply (represents_all_valid h kids); assumption|].
           intros ->. exact (Hs_kids Hq).
        -- constructor; [|constructor].
           apply (represents_node _ (length h) [] leaf); [|exact Hleaf|constructor].
           unfold h'. rewrite list_lookup_alter_ne by lia.
           rewrite lookup_app_r, Nat.sub_diag by lia. reflexivity.
    + rewrite <- !app_assoc. reflexivity.
    + cbn [app on_spine]. eexists _, _. split; [reflexivity|].
      eexists _, _. split; [reflexivity|constructor].
  - rewrite last_cons_cons in Hlast.
    destruct (IH kids Hlast Hk Hrep_kids Hnd_kids) as (kids' & Hroots & Hrep' & Hptrs & Hsp').
    exists (ts0 ++ [Node s kids']).
    rewrite !map_app, !forest_ptrs_app, !forest_ptrs_one, !ptrs_Node, Hptrs.
    repeat split.
    + apply Forall_app. split; [exact Hrep0'|]. constructor; [|constructor].
      apply (represents_node _ s _ it); [|congruence|exact Hrep'].
      rewrite Hframe; [exact Hs|exact Hs_lt|]. intros ->.
      apply Hs_kids, (on_spine_last _ _ _ Hk Hlast).
    + rewrite <- !app_assoc. reflexivity.
    + cbn [app on_spine]. eexists _, _. split; [reflexivity|exact Hsp'].
Qed.

Lemma tree_inv_update (f : Item -> Item) (p : ptr) (st0 st : scan) :
  keeps_node f -> same_tree st0 st -> tree_inv st ->
  tree_inv (set_store (alter f p (store st0)) st0).
Proof.
  intros Hf (Hs & Ho & _ & Hk) (ts & Hroots & Hrep & Hptrs & Hsp).
  exists ts. cbn. rewrite length_alter, Hs, Ho, Hk. repeat split; try assumption.
  eapply Forall_impl; [exact Hrep|]. intros t. apply represents_keeps, Hf.
Qed.

Lemma tree_inv_appendNote (line : gostring) (st0 st : scan) :
  same_tree st0 st -> tree_inv st -> tree_inv (appendNote line st0).
Proof.
  intros Hsame Hinv. unfold appendNote. destruct (currentItem st0).
  - apply (tree_inv_update _ _ _ st); [apply keeps_node_note|exact Hsame|exact Hinv].
  - destruct Hsame as (Hs & Ho & _ & Hk), Hinv as (ts & H).
    exists ts. rewrite Hs, Ho, Hk. exact H.
Qed.

Lemma tree_inv_headingLine (stars state title : gostring) (st : scan) :
  tree_inv st -> tree_inv (headingLine stars state title st).
Proof.
  intros (ts & Hroots & Hrep & Hptrs & Hsp). unfold headingLine.
  set (leaf := mkItem (length stars) state title None None [] [] false []).
  destruct (popStack_suffix (store st) (length stars) (itemStack st)) as [popped Hpop].
  rewrite Hpop, reverse_app in Hsp. apply on_spine_prefix in Hsp.
  assert (Hnd : NoDup (forest_ptrs ts)) by (rewrite Hptrs; apply NoDup_seq).
  destruct (popStack (store st) (length stars) (itemStack st)) as [|parent rest].
  - exists (ts ++ [Node (length (store st)) []]). cbn.
    rewrite length_app, Hroots, map_app, forest_ptrs_app, forest_ptrs_one, Hptrs.
    cbn. rewrite Nat.add_1_r, seq_S. repeat split.
    + apply Forall_app. split.
      * apply (represents_all_frame (store st)); [exact Hrep|]. intros q Hq.
        apply lookup_app_l, (represents_all_valid _ ts); assumption.
      * constructor; [|constructor].
        apply (represents_node _ _ [] leaf); [|reflexivity|constructor].
        rewrite lookup_app_r, Nat.sub_diag by lia. reflexivity.
    + eexists _, _. split; [reflexivity|constructor].
  - destruct (graft (store st) leaf parent eq_refl (reverse (parent :: rest)) ts)
      as (ts' & Hroots' & Hrep' & Hptrs' & Hsp'); try assumption.
    { rewrite last_reverse. reflexivity. }
    exists ts'. cbn [store orgFile Items itemStack].
    rewrite length_alter, length_app, Hroots, Hroots', Hptrs', Hptrs.
    cbn [length]. rewrite Nat.add_1_r, seq_S. repeat split; [exact Hrep'|].
    rewrite (reverse_cons (parent :: rest)). exact Hsp'.
Qed.

Lemma tree_inv_parseLines (path : gostring) (lines : list gostring) :
  tree_inv (parseLines path lines).
Proof.
  apply parseLines_ind.
  - exists []. repeat split. constructor.
  - intros st line Hinv. apply parseLine_cases.
    + intros st0 Hsame. apply (tree_inv_appendNote _ _ st Hsame Hinv).
    + intros. apply tree_inv_headingLine, Hinv.
    + intros p _. apply (tree_inv_update _ _ st st);
        [apply keeps_node_content|repeat split|exact Hinv].
    + intros _. exact Hinv.
Qed.

(** ** Save writes the items in document order *)

Lemma concat_text_forest (h : list Item) (kids : list tree) :
  concat (map (fun k => concat (map (text_at h) (ptrs k))) kids)
  = concat (map (text_at h) (forest_ptrs kids)).
Proof.
  induction kids as [|k kids IH]; [reflexivity|].
  rewrite forest_ptrs_cons, map_app, concat_app. cbn [map concat]. rewrite IH.
  reflexivity.
Qed.

Lemma writeItem_preorder (h : list Item) (t : tree) :
  forall fuel, represents h t -> height t <= fuel ->
  writeItem fuel h [] (root_of t) = Some (concat (map (text_at h) (ptrs t))).
Proof.
  induction t as [p kids IH] using tree_induction. intros fuel Hrep Hht.
  destruct fuel as [|fuel]; [simpl in Hht; lia|].
  inversion Hrep as [p' kids' it Hp Hc Hkids]; subst.
  cbn [root_of writeItem]. rewrite Hp, writeOwn_ownText, Hc.
  rewrite (writeEach_concat _ _ (map (fun k => concat (map (text_at h) (ptrs k))) kids)
             (writeItem_prefix fuel h)).
  - rewrite concat_text_forest, ptrs_Node. cbn [map concat app].
    replace (text_at h p) with (ownText it) by (unfold text_at; rewrite Hp; reflexivity).
    reflexivity.
  - pose proof (height_kids _ _ _ Hht) as Hhk. clear Hrep Hp Hc Hht.
    induction kids as [|k kids IHk]; constructor.
    + apply Forall_cons in IH as [IHk0 _]. apply Forall_cons in Hkids as [Hk _].
      apply Forall_cons in Hhk as [Hh _]. apply IHk0; assumption.
    + apply Forall_cons in IH as [_ IH']. apply Forall_cons in Hkids as [_ Hkids'].
      apply Forall_cons in Hhk as [_ Hhk']. apply IHk; assumption.
Qed.

Lemma writeEach_preorder (h : list Item) (fuel : nat) (ts : list tree) :
  Forall (represents h) ts -> Forall (fun t => height t <= fuel) ts ->
  writeEach (writeItem fuel h) [] (map root_of ts)
  = Some (concat (map (text_at h) (forest_ptrs ts))).
Proof.
  intros Hrep Hht.
  rewrite (writeEach_concat _ _ (map (fun k => concat (map (text_at h) (ptrs k))) ts)
             (writeItem_prefix fuel h)).
  - rewrite concat_text_forest. reflexivity.
  - induction ts as [|t ts IH]; constructor.
    + apply Forall_cons in Hrep as [Ht _]. apply Forall_cons in Hht as [Hh _].
      apply writeItem_preorder; assumption.
    + apply Forall_cons in Hrep as [_ Hts]. apply Forall_cons in Hht as [_ Hhs].
      apply IH; assumption.
Qed.

Lemma height_le_ptrs (t : tree) : height t <= length (ptrs t).
Proof.
  induction t as [p kids IH] using tree_induction. rewrite ptrs_Node.
  cbn [height length]. apply le_n_S.
  induction kids as [|k kids IHk]; [constructor|].
  apply Forall_cons in IH as [IHk0 IH']. rewrite forest_ptrs_cons, length_app.
  cbn [map fold_right]. specialize (IHk IH'). lia.
Qed.

Lemma heights_le_ptrs (ts : list tree) :
  Forall (fun t => height t <= length (forest_ptrs ts)) ts.
Proof.
  induction ts as [|t ts IH]; constructor.
  - rewrite forest_ptrs_cons, length_app. pose proof (height_le_ptrs t). lia.
  - eapply Forall_impl; [exact IH|]. intros t' Ht'. cbn beta in *.
    rewrite forest_ptrs_cons, length_app. lia.
Qed.

Lemma text_at_seq (pre h : list Item) :
  map (text_at (pre ++ h)) (seq (length pre) (length h)) = map ownText h.
Proof.
  revert pre. induction h as [|x h IH]; intros pre; [reflexivity|].
  cbn [length seq map]. f_equal.
  - unfold text_at. rewrite list_lookup_middle by reflexivity. reflexivity.
  - specialize (IH (pre ++ [x])). rewrite <- app_assoc, length_app in IH.
    cbn in IH. rewrite Nat.add_1_r in IH. exact IH.
Qed.

(** ** A directive that set a field is among the notes *)

Lemma space2_bytes (c1 c2 : ascii) :
  space2 c1 c2 = true -> space_byte c1 = true /\ space_byte c2 = true.
Proof.
  unfold space2. intros H. apply andb_true_iff in H as [H1 H2].
  apply Ascii.eqb_eq in H1 as ->.
  apply orb_true_iff in H2 as [H2|H2]; apply Ascii.eqb_eq in H2 as ->;
    split; reflexivity.
Qed.

Lemma space3_bytes (c1 c2 c3 : ascii) :
  space3 c1 c2 c3 = true ->
  space_byte c1 = true /\ space_byte c2 = true /\ space_byte c3 = true.
Proof.
  unfold space3. intros H.
  repeat match goal with
         | E : _ || _ = true |- _ => apply orb_true_iff in E as [E|E]
         | E : _ && _ = true |- _ =>
             let E' := fresh in apply andb_true_iff in E as [E E']
         | E : Ascii.eqb _ _ = true |- _ => apply Ascii.eqb_eq in E; subst
         end;
    repeat split; try reflexivity.
  unfold space_byte. apply orb_true_iff. right. assumption.
Qed.

Lemma trimLeft_split (n : nat) :
  forall l, length l <= n ->
  exists pre, l = pre ++ trimLeft l /\ Forall (fun c => space_byte c = true) pre.
Proof.
  induction n as [|n IH]; intros l Hn.
  - destruct l; [|simpl in Hn; lia]. exists []. split; [reflexivity|constructor].
  - destruct l as [|c1 t1]; [exists []; split; [reflexivity|constructor]|].
    cbn [trimLeft]. cbn [length] in Hn.
    destruct (ascii_space c1) eqn:E1.
    { destruct (IH t1 ltac:(lia)) as (pre & Hl & Hpre). exists (c1 :: pre). split.
      - cbn [app]. f_equal. exact Hl.
      - constructor; [|exact Hpre]. unfold space_byte. rewrite E1. reflexivity. }
    destruct t1 as [|c2 t2]; [exists []; split; [reflexivity|constructor]|].
    cbn [length] in Hn.
    destruct (space2 c1 c2) eqn:E2.
    { destruct (space2_bytes _ _ E2) as [B1 B2].
      destruct (IH t2 ltac:(lia)) as (pre & Hl & Hpre). exists (c1 :: c2 :: pre). split.
      - cbn [app]. do 2 f_equal. exact Hl.
      - repeat constructor; assumption. }
    destruct t2 as [|c3 t3]; [exists []; split; [reflexivity|constructor]|].
    cbn [length] in Hn.
    destruct (space3 c1 c2 c3) eqn:E3.
    { destruct (space3_bytes _ _ _ E3) as (B1 & B2 & B3).
      destruct (IH t3 ltac:(lia)) as (pre & Hl & Hpre).
      exists (c1 :: c2 :: c3 :: pre). split.
      - cbn [app]. do 3 f_equal. exact Hl.
      - repeat constructor; assumption. }
    exists []. split; [reflexivity|constructor].
Qed.

Lemma blank_bytes (l : gostring) :
  TrimSpace l = [] -> Forall (fun c => space_byte c = true) l.
Proof.
  unfold TrimSpace. intros H.
  destruct (trimLeft_split (length l) l (le_n _)) as (pre & Hl & Hpre).
  destruct (trimLeft l) as [|c t] eqn:Et.
  - rewrite Hl, app_nil_r. exact Hpre.
  - cbn [trimRight] in H.
    destruct (is_nil (trimLeft (c :: t))) eqn:E; [|discriminate].
    destruct (trimLeft_split (length (c :: t)) (c :: t) (le_n _)) as (pre' & Ht & Hpre').
    destruct (trimLeft (c :: t)); [|discriminate].
    rewrite app_nil_r in Ht. rewrite Hl, Ht. apply Forall_app. split; assumption.
Qed.

Lemma find_first_weaken {A B} (f : gostring -> option A) (g : gostring -> option B)
    (l : gostring) (x : A) :
  (forall s y, f s = Some y -> exists z, g s = Some z) ->
  find_first f l = Some x -> exists z, find_first g l = Some z.
Proof.
  intros Hfg. induction l as [|c l IH]; cbn [find_first].
  - destruct (f []) as [y|] eqn:E; [|discriminate]. intros _.
    destruct (Hfg _ _ E) as [z ->]. eauto.
  - destruct (f (c :: l)) as [y|] eqn:E.
    + intros _. destruct (Hfg _ _ E) as [z ->]. eauto.
    + intros H. destruct (g (c :: l)); [eauto|]. apply IH, H.
Qed.

Lemma Contains_first_byte (l key : gostring) (c : ascii) :
  Contains l (c :: key) = true -> c ∈ l.
Proof.
  unfold Contains. induction l as [|d l IH]; cbn [find_first strip_prefix];
    [discriminate|].
  destruct (Ascii.eqb c d) eqn:E.
  - apply Ascii.eqb_eq in E as ->. intros _. left.
  - intros H. right. apply IH, H.
Qed.

Lemma directive_not_blank (l key : gostring) (c : ascii) :
  space_byte c = false -> Contains l (c :: key) = true -> TrimSpace l <> [].
Proof.
  intros Hc Hin Hb. apply Contains_first_byte in Hin.
  pose proof (blank_bytes l Hb) as Hall. rewrite Forall_forall in Hall.
  specialize (Hall c Hin). congruence.
Qed.

Lemma angle_directive_Contains (key line m : gostring) :
  find_first (angle_directive_at key) line = Some m -> Contains line key = true.
Proof.
  intros H. unfold Contains.
  assert (Hw : forall s y : gostring, angle_directive_at key s = Some y ->
            exists z, strip_prefix key s = Some z).
  { intros s y. unfold angle_directive_at.
    destruct (strip_prefix key s) as [r|]; [eauto|discriminate]. }
  destruct (find_first_weaken _ (strip_prefix key) _ _ Hw H) as [z ->].
  reflexivity.
Qed.

Lemma mentions_app (marker : gostring) (notes : list gostring) (line : gostring) :
  mentions marker (notes ++ [line]) = mentions marker notes || Contains line marker.
Proof. unfold mentions. rewrite existsb_app. cbn. rewrite orb_false_r. reflexivity. Qed.

Lemma Scheduled_contentLine (line : gostring) (it : Item) :
  Scheduled (contentLine line it) = Scheduled it \/
  exists m, scheduledPattern line = Some m.
Proof.
  unfold contentLine. destruct (scheduledPattern line) as [m|]; [right; eauto|left].
  repeat match goal with
         | |- context [match ?x with _ => _ end] => destruct x
         end; reflexivity.
Qed.

Lemma Deadline_contentLine (line : gostring) (it : Item) :
  Deadline (contentLine line it) = Deadline it \/
  exists m, deadlinePattern line = Some m.
Proof.
  unfold contentLine. destruct (deadlinePattern line) as [m|]; [right; eauto|left].
  repeat match goal with
         | |- context [match ?x with _ => _ end] => destruct x
         end; reflexivity.
Qed.

Lemma noted_after_content (key line : gostring) (c : ascii) (it : Item)
    (field field' : option Time) :
  space_byte c = false ->
  (field <> None -> mentions (c :: key) (Notes it) = true) ->
  (field' = field \/ Contains line (c :: key) = true) ->
  field' <> None ->
  mentions (c :: key) (Notes (contentLine line it)) = true.
Proof.
  intros Hc Hold Hcase Hset. rewrite Notes_contentLine. destruct Hcase as [->|Hin].
  - specialize (Hold Hset). destruct (Notes it) as [|n ns] eqn:E; [discriminate|].
    rewrite andb_false_r, mentions_app, Hold. reflexivity.
  - pose proof (directive_not_blank _ _ _ Hc Hin) as Hnb.
    destruct (TrimSpace line); [contradiction|]. cbn [is_nil andb].
    rewrite mentions_app, Hin. apply orb_true_r.
Qed.

Lemma directives_noted_content (line : gostring) (it : Item) :
  directives_noted it -> directives_noted (contentLine line it).
Proof.
  intros [Hs Hd]. split.
  - apply (noted_after_content (str "CHEDULED:") line "S" it (Scheduled it));
      [reflexivity|exact Hs|].
    destruct (Scheduled_contentLine line it) as [H|[m H]]; [left; exact H|right].
    apply (angle_directive_Contains _ _ m H).
  - apply (noted_after_content (str "EADLINE:") line "D" it (Deadline it));
      [reflexivity|exact Hd|].
    destruct (Deadline_contentLine line it) as [H|[m H]]; [left; exact H|right].
    apply (angle_directive_Contains _ _ m H).
Qed.

Lemma directives_noted_note (line : gostring) (it : Item) :
  directives_noted it -> directives_noted (set_Notes (Notes it ++ [line]) it).
Proof.
  intros [Hs Hd]. split; cbn [Scheduled Deadline Notes set_Notes]; intros H;
    rewrite mentions_app; [rewrite (Hs H)|rewrite (Hd H)]; reflexivity.
Qed.

Lemma directives_noted_parseLines (path : gostring) (lines : list gostring) :
  Forall directives_noted (store (parseLines path lines)).
Proof.
  apply (parseLines_ind (fun st => Forall directives_noted (store st))).
  - constructor.
  - intros st line Hall. apply parseLine_cases.
    + intros st0 (Hs & _). unfold appendNote.
      destruct (currentItem st0); cbn [store set_store]; rewrite Hs; [|exact Hall].
      apply Forall_alter; [exact Hall|]. intros x _. apply directives_noted_note.
    + intros stars state title _. unfold headingLine.
      assert (Hnew : Forall directives_noted
                (store st ++ [mkItem (length stars) state title None None [] [] false []])).
      { apply Forall_app. split; [exact Hall|]. constructor; [|constructor].
        split; intros H; contradiction. }
      destruct (popStack _ _ _); cbn [store]; [exact Hnew|].
      apply Forall_alter; [exact Hnew|]. intros x _ Hx. exact Hx.
    + intros p _. cbn [store set_store]. apply Forall_alter; [exact Hall|].
      intros x _. apply directives_noted_content.
    + intros _. exact Hall.
Qed.

Lemma ownText_rawText (it : Item) :
  directives_noted it -> no_drawer_needed it = true -> ownText it = rawText it.
Proof.
  intros [Hs Hd] Hc. unfold ownText, rawText, scheduledText, deadlineText, drawerText.
  unfold no_drawer_needed in Hc. rewrite Hc.
  destruct (Scheduled it); [rewrite Hs by discriminate|];
    (destruct (Deadline it); [rewrite Hd by discriminate|]); reflexivity.
Qed.

(** C1, as the code has it.  When every line of the text ends in a
    newline with no carriage return before it and fits the scanner,
    every line is kept by the parser (the first line opens an item,
    headings are written as [writeItem] writes them, no blank line
    stands between a heading and the first note of its item) and no
    item of the parsed file has clock entries without a LOGBOOK line
    among its notes, then parsing succeeds and saving the parsed file
    writes the text back unchanged.  SCHEDULED and DEADLINE need no
    precondition: the line that sets the field is always among the
    notes. *)
Theorem round_trip_of_kept_lines (path : gostring) (lines : list gostring) :
  forallb plain_line lines = true ->
  kept_all (initial path) lines = true ->
  forallb no_drawer_needed (store (parseLines path lines)) = true ->
  exists h file,
    ParseOrgFile path (joinLines lines) = Some (h, file) /\
    Save (length h) h file = Some (joinLines lines).
Proof.
  intros Hplain Hkept Hdrawer.
  unfold ParseOrgFile. rewrite (scanLines_joinLines _ Hplain).
  eexists _, _. split; [reflexivity|].
  destruct (tree_inv_parseLines path lines) as (ts & Hroots & Hrep & Hptrs & _).
  set (st := parseLines path lines) in *.
  unfold Save. rewrite Hroots.
  rewrite (writeEach_preorder _ _ ts Hrep).
  - rewrite Hptrs. pose proof (text_at_seq [] (store st)) as Hseq.
    cbn [app length] in Hseq. rewrite Hseq. f_equal.
    rewrite <- (flat_parseLines path lines Hkept). fold st. unfold flat. f_equal.
    apply map_ext_in. intros it Hin. apply ownText_rawText.
    + pose proof (directives_noted_parseLines path lines) as Hall.
      rewrite List.Forall_forall in Hall. apply Hall, Hin.
    + rewrite forallb_forall in Hdrawer. apply Hdrawer, Hin.
  - pose proof (heights_le_ptrs ts) as Hh. rewrite Hptrs, length_seq in Hh. exact Hh.
Qed.

End Properties.

Section ParsedFile.
Context {TL : TimeLib}.

(** ** The forest of a parsed file *)

(** X6: the items of a parsed file form a forest.  The roots of the
    file and the children lists of the items are the roots and the
    nodes of trees over the store, and these trees hold every item
    that was allocated exactly once, in the order of the headings in
    the text: their addresses in preorder are 0, 1, 2, ... *)
Theorem parsed_items_form_forest (path text : gostring) (h : list Item)
    (file : OrgFile) :
  ParseOrgFile path text = Some (h, file) ->
  exists ts,
    Items file = map root_of ts /\
    Forall (represents h) ts /\
    forest_ptrs ts = seq 0 (length h).
Proof.
  unfold ParseOrgFile. destruct (scanLines text) as [lines|]; [|discriminate].
  intros [= <- <-].
  destruct (tree_inv_parseLines path lines) as (ts & Hroots & Hrep & Hptrs & _).
  exists ts. auto.
Qed.

Lemma parsedText_ownText (it : Item) :
  directives_noted it -> ownText it = parsedText it.
Proof.
  intros [Hs Hd]. unfold ownText, parsedText, scheduledText, deadlineText.
  destruct (Scheduled it); [rewrite Hs by discriminate|];
    (destruct (Deadline it); [rewrite Hd by discriminate|]); reflexivity.
Qed.

(** X7: what [Save] writes for a file as [ParseOrgFile] returns it:
    for every item, in the order of the headings, the heading line
    made of level, state and title, a LOGBOOK drawer made of its clock
    entries unless a note mentions :LOGBOOK:, and its notes.  No
    SCHEDULED or DEADLINE line is made up beside the notes, and a fuel
    of the number of items suffices. *)
Theorem Save_of_parsed (path text : gostring) (h : list Item) (file : OrgFile) :
  ParseOrgFile path text = Some (h, file) ->
  Save (length h) h file = Some (concat (map parsedText h)).
Proof.
  unfold ParseOrgFile. destruct (scanLines text) as [lines|]; [|discriminate].
  intros [= <- <-].
  destruct (tree_inv_parseLines path lines) as (ts & Hroots & Hrep & Hptrs & _).
  set (st := parseLines path lines) in *.
  unfold Save. rewrite Hroots, (writeEach_preorder _ _ ts Hrep).
  - rewrite Hptrs. pose proof (text_at_seq [] (store st)) as Hseq.
    cbn [app length] in Hseq. rewrite Hseq. do 2 f_equal.
    apply map_ext_in. intros it Hin. apply parsedText_ownText.
    pose proof (directives_noted_parseLines path lines) as Hall.
    rewrite List.Forall_forall in Hall. apply Hall, Hin.
  - pose proof (heights_le_ptrs ts) as Hh. rewrite Hptrs, length_seq in Hh. exact Hh.
Qed.

End ParsedFile.

Section Parents.
Context {TL : TimeLib}.

(** ** The parent of an item *)

Lemma nearest_below_ext (h h' : list Item) (L n : nat) :
  same_levels h h' n -> nearest_below h' L n = nearest_below h L n.
Proof.
  induction n as [|n IH]; intros H; [reflexivity|]. cbn [nearest_below].
  pose proof (H n (Nat.lt_succ_diag_r n)) as Hn.
  rewrite IH by (intros q Hq; apply H; lia).
  destruct (h !! n), (h' !! n); cbn in Hn; try discriminate; [|reflexivity].
  injection Hn as ->. reflexivity.
Qed.

Lemma popStack_ext (h h' : list Item) (L : nat) (stack : list ptr) (n : nat) :
  same_levels h h' n -> Forall (fun q => q < n) stack ->
  popStack h' L stack = popStack h L stack.
Proof.
  intros H. induction stack as [|top below IH]; intros Hv; [reflexivity|].
  apply Forall_cons in Hv as [Ht Hb]. cbn [popStack]. pose proof (H top Ht) as Hl.
  destruct (h !! top), (h' !! top); cbn in Hl; try discriminate; [|reflexivity].
  injection Hl as ->. rewrite IH by exact Hb. reflexivity.
Qed.

Lemma popStack_popStack (h : list Item) (L L0 : nat) (stack : list ptr) :
  L <= L0 -> popStack h L (popStack h L0 stack) = popStack h L stack.
Proof.
  intros HL. induction stack as [|top below IH]; [reflexivity|].
  cbn [popStack]. destruct (h !! top) as [it|] eqn:Ht.
  - destruct (L0 <=? Level it)%nat eqn:E0.
    + apply Nat.leb_le in E0. rewrite IH.
      replace (L <=? Level it)%nat with true by (symmetry; apply Nat.leb_le; lia).
      reflexivity.
    + cbn [popStack]. rewrite Ht. reflexivity.
  - cbn [popStack]. rewrite Ht. reflexivity.
Qed.

Lemma popStack_valid (h : list Item) (L n : nat) (stack : list ptr) :
  Forall (fun q => q < n) stack -> Forall (fun q => q < n) (popStack h L stack).
Proof.
  intros Hv. destruct (popStack_suffix h L stack) as [popped Hp].
  rewrite Hp in Hv. apply Forall_app in Hv as [_ Hv]. exact Hv.
Qed.

Lemma lookup_alter_keeps (f : Item -> Item) (p q : ptr) (h : list Item) (it' : Item) :
  keeps_node f -> alter f p h !! q = Some it' ->
  exists it, h !! q = Some it /\ Level it' = Level it /\ Children it' = Children it.
Proof.
  intros Hf Hq. destruct (decide (p = q)) as [->|Hne].
  - rewrite list_lookup_alter_eq in Hq. destruct (h !! q) as [it|]; [|discriminate].
    cbn in Hq. injection Hq as <-. exists it. destruct (Hf it) as (Hl & _ & _ & Hc). auto.
  - rewrite list_lookup_alter_ne in Hq by exact Hne. exists it'. auto.
Qed.

Lemma same_levels_alter (f : Item -> Item) (p : ptr) (h : list Item) (n : nat) :
  (forall it, Level (f it) = Level it) -> same_levels h (alter f p h) n.
Proof.
  intros Hf q _. destruct (decide (p = q)) as [->|Hne].
  - rewrite list_lookup_alter_eq. destruct (h !! q); cbn; [rewrite Hf|]; reflexivity.
  - rewrite list_lookup_alter_ne by exact Hne. reflexivity.
Qed.

Lemma nearest_inv_alter (f : Item -> Item) (p : ptr) (h : list Item)
    (roots stack : list ptr) :
  keeps_node f -> nearest_inv h roots stack -> nearest_inv (alter f p h) roots stack.
Proof.
  intros Hf (J1 & J0 & J2 & J3 & J4 & J5 & J6).
  assert (Hlev : forall n, same_levels h (alter f p h) n).
  { intros n. apply same_levels_alter. intros it. apply Hf. }
  unfold nearest_inv. rewrite length_alter. repeat split.
  - intros L. rewrite (popStack_ext h _ L stack (length h)) by auto.
    rewrite (nearest_below_ext h) by auto. apply J1.
  - exact J0.
  - exact J2.
  - intros q parent Hq. destruct (lookup_alter_keeps _ _ _ _ _ Hf Hq) as (it & Hit & _ & ->).
    eapply J3, Hit.
  - intros c child Hc Hin. destruct (lookup_alter_keeps _ _ _ _ _ Hf Hc) as (it & Hit & -> & _).
    rewrite (nearest_below_ext h) by auto. eapply J4; eassumption.
  - intros q parent c child Hq Hin Hc.
    destruct (lookup_alter_keeps _ _ _ _ _ Hf Hq) as (it & Hit & _ & Hch).
    destruct (lookup_alter_keeps _ _ _ _ _ Hf Hc) as (ic & Hic & -> & _).
    rewrite Hch in Hin. rewrite (nearest_below_ext h) by auto. eapply J5; eassumption.
  - intros c Hc. destruct (J6 c Hc) as [Hr|(q & parent & Hq & Hin)]; [left; exact Hr|].
    right. exists q, (if decide (p = q) then f parent else parent). split.
    + destruct (decide (p = q)) as [->|Hne].
      * rewrite list_lookup_alter_eq, Hq. reflexivity.
      * rewrite list_lookup_alter_ne by exact Hne. exact Hq.
    + destruct (decide (p = q)); [|exact Hin].
      destruct (Hf parent) as (_ & _ & _ & ->). exact Hin.
Qed.

Lemma nearest_below_here (h : list Item) (L p : ptr) (item : Item) :
  h !! p = Some item ->
  nearest_below h L (S p) = if (Level item <? L)%nat then Some p else nearest_below h L p.
Proof. intros Hp. cbn [nearest_below]. rewrite Hp. reflexivity. Qed.

(** What the heading branch does to the invariant: [h'] is the store
    with the new cell, possibly with the new address among the children
    of the parent. *)
Lemma nearest_inv_heading (h h' : list Item) (roots roots' stack : list ptr)
    (item : Item) :
  let p := length h in
  let stack' := popStack h (Level item) stack in
  nearest_inv h roots stack ->
  Children item = [] ->
  match stack' with
  | [] => h' = h ++ [item] /\ roots' = roots ++ [p]
  | parent :: _ =>
      h' = alter (fun it => set_Children (Children it ++ [p]) it) parent (h ++ [item])
      /\ roots' = roots
  end ->
  nearest_inv h' roots' (p :: stack').
Proof.
  intros p stack' (J1 & J0 & J2 & J3 & J4 & J5 & J6) Hleaf Hshape.
  assert (Hv' : Forall (fun q => q < length h) stack') by (apply popStack_valid, J0).
  assert (Hlen : length h' = S (length h)).
  { destruct stack'; destruct Hshape as [-> _]; rewrite ?length_alter, length_app;
      cbn; lia. }
  assert (Hold : forall q it, h !! q = Some it ->
            exists it', h' !! q = Some it' /\ Level it' = Level it /\
              (Children it' = Children it \/
               (Children it' = Children it ++ [p] /\ head stack' = Some q))).
  { intros q it Hq. assert (Hq' : (h ++ [item]) !! q = Some it).
    { rewrite lookup_app_l by (eapply lookup_lt_Some, Hq). exact Hq. }
    destruct stack' as [|parent rest]; destruct Hshape as [-> _].
    - exists it. auto.
    - destruct (decide (parent = q)) as [->|Hne].
      + rewrite list_lookup_alter_eq, Hq'. eexists. split; [reflexivity|]. cbn. auto.
      + rewrite list_lookup_alter_ne by exact Hne. exists it. auto. }
  assert (Hnew : exists it', h' !! p = Some it' /\ Level it' = Level item /\
                   Children it' = []).
  { assert (Hp : (h ++ [item]) !! p = Some item).
    { unfold p. rewrite list_lookup_middle by reflexivity. reflexivity. }
    destruct stack' as [|parent rest]; destruct Hshape as [-> _].
    - exists item. auto.
    - apply Forall_cons in Hv' as [Hpar _].
      rewrite list_lookup_alter_ne by (unfold p; lia). exists item. auto. }
  assert (Hlev : same_levels h h' (length h)).
  { intros q Hq. destruct (lookup_lt_is_Some_2 h q Hq) as [it Hit].
    destruct (Hold q it Hit) as (it' & Hit' & Hl & _). rewrite Hit', Hit. cbn.
    rewrite Hl. reflexivity. }
  assert (Hback : forall q it', q < length h -> h' !! q = Some it' ->
            exists it, h !! q = Some it /\ Level it' = Level it /\
              (Children it' = Children it \/
               (Children it' = Children it ++ [p] /\ head stack' = Some q))).
  { intros q it' Hq Hq'. destruct (lookup_lt_is_Some_2 h q Hq) as [it Hit].
    destruct (Hold q it Hit) as (it2 & Hit2 & H2). rewrite Hq' in Hit2.
    injection Hit2 as <-. exists it. auto. }
  destruct Hnew as (new & Hnewp & Hnewl & Hnewc).
  assert (Hstack_top : head stack' = nearest_below h' (Level item) p).
  { unfold stack'. rewrite J1. symmetry. apply nearest_below_ext, Hlev. }
  unfold nearest_inv. rewrite Hlen. repeat split.
  - intros L. cbn [popStack]. rewrite Hnewp, Hnewl.
    rewrite (nearest_below_here h' L (length h) new Hnewp), Hnewl.
    destruct (L <=? Level item)%nat eqn:E.
    + apply Nat.leb_le in E.
      replace (Level item <? L)%nat with false by (symmetry; apply Nat.ltb_ge; lia).
      rewrite (popStack_ext h h' L stack' (length h) Hlev Hv').
      unfold stack'. rewrite popStack_popStack by exact E. rewrite J1.
      symmetry. apply nearest_below_ext, Hlev.
    + apply Nat.leb_gt in E.
      replace (Level item <? L)%nat with true by (symmetry; apply Nat.ltb_lt; lia).
      reflexivity.
  - constructor; [unfold p; lia|]. eapply Forall_impl; [exact Hv'|]. cbn. intros; lia.
  - destruct stack'; destruct Hshape as [_ ->].
    + apply Forall_app. split; [|constructor; [unfold p; lia|constructor]].
      eapply Forall_impl; [exact J2|]. cbn. intros; lia.
    + eapply Forall_impl; [exact J2|]. cbn. intros; lia.
  - intros q parent Hq.
    destruct (decide (q < length h)) as [Hlt|Hge].
    + destruct (Hback q parent Hlt Hq) as (it & Hit & _ & [->|[-> _]]).
      * eapply Forall_impl; [eapply J3, Hit|]. cbn. intros; lia.
      * apply Forall_app. split; [|constructor; [unfold p; lia|constructor]].
        eapply Forall_impl; [eapply J3, Hit|]. cbn. intros; lia.
    + assert (q = p) as -> by (apply lookup_lt_Some in Hq; unfold p; lia).
      rewrite Hnewp in Hq. injection Hq as <-. rewrite Hnewc. constructor.
  - intros c child Hc Hin.
    destruct (decide (c < length h)) as [Hlt|Hge].
    + destruct (Hback c child Hlt Hc) as (it & Hit & -> & _).
      rewrite (nearest_below_ext h h') by (intros q Hq; apply Hlev; lia).
      apply (J4 c it Hit).
      destruct stack'; destruct Hshape as [_ ->]; [|exact Hin].
      apply elem_of_app in Hin as [Hin|Hin]; [exact Hin|].
      apply list_elem_of_singleton in Hin. unfold p in Hin. lia.
    + assert (c = p) as -> by (apply lookup_lt_Some in Hc; unfold p; lia).
      rewrite Hnewp in Hc. injection Hc as <-. rewrite Hnewl, <- Hstack_top.
      destruct stack' as [|parent rest]; [reflexivity|]. destruct Hshape as [_ ->].
      rewrite List.Forall_forall in J2. apply list_elem_of_In, J2 in Hin. unfold p in Hin. lia.
  - intros q parent c child Hq Hin Hc.
    destruct (decide (q < length h)) as [Hlt|Hge].
    + destruct (Hback q parent Hlt Hq) as (it & Hit & _ & Hch).
      assert (Hcase : c ∈ Children it \/ (c = p /\ head stack' = Some q)).
      { destruct Hch as [E|[E Hhead]]; rewrite E in Hin; [left; exact Hin|].
        apply elem_of_app in Hin as [Hin|Hin]; [left; exact Hin|].
        apply list_elem_of_singleton in Hin. right. auto. }
      destruct Hcase as [Hold_in|[-> Hhead]].
      * assert (Hclt : c < length h).
        { pose proof (J3 q it Hit) as Hall. rewrite List.Forall_forall in Hall.
          apply Hall, list_elem_of_In, Hold_in. }
        destruct (Hback c child Hclt Hc) as (ic & Hic & -> & _).
        rewrite (nearest_below_ext h h') by (intros q' Hq'; apply Hlev; lia).
        eapply J5; eassumption.
      * rewrite Hnewp in Hc. injection Hc as <-. rewrite Hnewl, <- Hstack_top.
        exact Hhead.
    + assert (q = p) as -> by (apply lookup_lt_Some in Hq; unfold p; lia).
      rewrite Hnewp in Hq. injection Hq as <-. rewrite Hnewc in Hin.
      apply elem_of_nil in Hin. contradiction.
  - intros c Hc. destruct (decide (c < length h)) as [Hlt|Hge].
    + destruct (J6 c Hlt) as [Hr|(q & parent & Hq & Hin)].
      * left. destruct stack'; destruct Hshape as [_ ->]; [|exact Hr].
        apply elem_of_app. left. exact Hr.
      * right. destruct (Hold q parent Hq) as (it' & Hit' & _ & Hch).
        exists q, it'. split; [exact Hit'|].
        destruct Hch as [->|[-> _]]; [exact Hin|]. apply elem_of_app. left. exact Hin.
    + assert (c = p) as -> by (unfold p; lia).
      destruct stack' as [|parent rest] eqn:Es.
      * left. destruct Hshape as [_ ->]. apply elem_of_app. right. left.
      * right. apply Forall_cons in Hv' as [Hpar _].
        destruct (lookup_lt_is_Some_2 h parent Hpar) as [it Hit].
        destruct (Hold parent it Hit) as (it' & Hit' & _ & Hch).
        exists parent, it'. split; [exact Hit'|].
        destruct Hshape as [-> _]. 
        assert (Hp' : (h ++ [item]) !! parent = Some it).
        { rewrite lookup_app_l by exact Hpar. exact Hit. }
        rewrite list_lookup_alter_eq, Hp' in Hit'. cbn in Hit'. injection Hit' as <-.
        cbn. apply elem_of_app. right. left.
Qed.

Lemma nearest_inv_parseLines (path : gostring) (lines : list gostring) :
  nearest_inv (store (parseLines path lines))
              (Items (orgFile (parseLines path lines)))
              (itemStack (parseLines path lines)).
Proof.
  apply (parseLines_ind
           (fun st => nearest_inv (store st) (Items (orgFile st)) (itemStack st))).
  - unfold nearest_inv. cbn. split; [reflexivity|]. split; [constructor|].
    split; [constructor|]. split; [intros p parent Hp; discriminate|].
    split; [intros c child Hc; discriminate|].
    split; [intros p parent c child Hp; discriminate|]. intros c Hc. lia.
  - intros st line Hinv. apply parseLine_cases.
    + intros st0 (Hs & Hf & Hc & Hk). unfold appendNote.
      destruct (currentItem st0); cbn [store orgFile itemStack set_store];
        rewrite Hs, Hf, Hk; [apply nearest_inv_alter; [apply keeps_node_note|]|];
        exact Hinv.
    + intros stars state title _. unfold headingLine.
      pose proof (fun h' roots' =>
                    nearest_inv_heading (store st) h' (Items (orgFile st)) roots'
                      (itemStack st)
                      (mkItem (length stars) state title None None [] [] false [])
                      Hinv eq_refl) as Hh.
      cbn [Level] in Hh.
      destruct (popStack (store st) (length stars) (itemStack st)) as [|parent rest];
        cbn [store orgFile itemStack Items]; apply Hh; split; reflexivity.
    + intros p _. cbn [store orgFile itemStack set_store].
      apply nearest_inv_alter; [apply keeps_node_content|exact Hinv].
    + intros _. exact Hinv.
Qed.

(** X8: where the parser hangs an item.  An item of a parsed file is
    a root exactly when no item before it in the text has a smaller
    level, and it is a child of [parent] exactly when [parent] is the
    last item before it that has a smaller level. *)
Theorem parent_is_nearest_smaller_level (path text : gostring) (h : list Item)
    (file : OrgFile) (c : ptr) (child : Item) :
  ParseOrgFile path text = Some (h, file) ->
  h !! c = Some child ->
  (c ∈ Items file <-> nearest_below h (Level child) c = None) /\
  (forall p parent, h !! p = Some parent ->
     (c ∈ Children parent <-> nearest_below h (Level child) c = Some p)).
Proof.
  unfold ParseOrgFile. destruct (scanLines text) as [lines|]; [|discriminate].
  intros [= <- <-] Hc.
  destruct (nearest_inv_parseLines path lines) as (_ & _ & _ & _ & J4 & J5 & J6).
  set (st := parseLines path lines) in *.
  assert (Hlt : c < length (store st)) by (eapply lookup_lt_Some, Hc).
  split.
  - split; [apply J4, Hc|]. intros Hnone.
    destruct (J6 c Hlt) as [Hr|(q & parent & Hq & Hin)]; [exact Hr|].
    rewrite (J5 q parent c child Hq Hin Hc) in Hnone. discriminate.
  - intros p parent Hp. split; [intros Hin; eapply J5; eassumption|]. intros Hsome.
    destruct (J6 c Hlt) as [Hr|(q & parent' & Hq & Hin)].
    + rewrite (J4 c child Hc Hr) in Hsome. discriminate.
    + rewrite (J5 q parent' c child Hq Hin Hc) in Hsome. injection Hsome as ->.
      rewrite Hp in Hq. injection Hq as ->. exact Hin.
Qed.

End Parents.

Section Preamble.
Context {TL : TimeLib}.

(** ** The drawer flag *)

Lemma find_first_spaces {A} (f : gostring -> option A) (ws s : gostring) :
  (forall c r, re_space c = true -> f (c :: r) = None) ->
  forallb re_space ws = true -> find_first f (ws ++ s) = find_first f s.
Proof.
  intros Hf. induction ws as [|c ws IH]; intros Hws; [reflexivity|].
  cbn in Hws. apply andb_prop in Hws as [Hc Hws]. cbn [app find_first].
  rewrite (Hf c _ Hc). apply IH, Hws.
Qed.

Lemma find_first_blank {A} (f : gostring -> option A) (ws : gostring) :
  (forall c r, re_space c = true -> f (c :: r) = None) -> f [] = None ->
  forallb re_space ws = true -> find_first f ws = None.
Proof.
  intros Hf Hnil Hws. rewrite <- (app_nil_r ws), find_first_spaces by assumption.
  cbn. rewrite Hnil. reflexivity.
Qed.

Lemma strip_prefix_space (c k : ascii) (key r : gostring) :
  re_space c = true -> re_space k = false -> strip_prefix (k :: key) (c :: r) = None.
Proof.
  intros Hc Hk. cbn. destruct (Ascii.eqb k c) eqn:E; [|reflexivity].
  apply Ascii.eqb_eq in E. subst. congruence.
Qed.

Lemma whole_line_key_split (key line : gostring) :
  whole_line_key key line = true ->
  exists ws r, line = ws ++ key ++ r /\ forallb re_space ws = true /\
               forallb re_space r = true.
Proof.
  unfold whole_line_key. intros H.
  destruct (strip_prefix key (dropWhile re_space line)) as [r|] eqn:E; [|discriminate].
  exists (takeWhile re_space line), r. split; [|split; [apply takeWhile_all|exact H]].
  rewrite <- (strip_prefix_Some _ _ _ E). symmetry. apply takeWhile_dropWhile.
Qed.

Lemma drawerEnd_no_directive (line : gostring) :
  drawerEnd line = true ->
  scheduledPattern line = None /\ deadlinePattern line = None /\
  clockPattern line = None /\ headingPattern line = None /\
  codeBlockStart line = false /\ codeBlockEnd line = false /\
  is_nil (TrimSpace line) = false.
Proof.
  intros H. pose proof (whole_line_key_not_blank ":" (str "END:") line eq_refl H) as Hnb.
  destruct (whole_line_key_split _ _ H) as (ws & r & -> & Hws & Hr).
  assert (Hs : forall key : gostring, forall c r0, re_space c = true ->
            match key with k :: _ => re_space k = false | [] => False end ->
            angle_directive_at key (c :: r0) = None).
  { intros key c r0 Hc Hk. unfold angle_directive_at. destruct key as [|k key]; [contradiction|].
    rewrite strip_prefix_space by assumption. reflexivity. }
  assert (Hc : forall c r0, re_space c = true -> clock_at (c :: r0) = None).
  { intros c r0 Hc. unfold clock_at. unfold str. cbn [list_ascii_of_string].
    rewrite strip_prefix_space by (assumption || reflexivity). reflexivity. }
  repeat split.
  - unfold scheduledPattern. rewrite find_first_spaces by
      (assumption || (intros; apply Hs; [assumption|reflexivity])).
    unfold str. cbn.
    apply find_first_blank; [intros; apply (Hs (list_ascii_of_string "SCHEDULED:"));
                               [assumption|reflexivity]|reflexivity|exact Hr].
  - unfold deadlinePattern. rewrite find_first_spaces by
      (assumption || (intros; apply Hs; [assumption|reflexivity])).
    unfold str. cbn.
    apply find_first_blank; [intros; apply (Hs (list_ascii_of_string "DEADLINE:"));
                               [assumption|reflexivity]|reflexivity|exact Hr].
  - unfold clockPattern. rewrite find_first_spaces by assumption.
    unfold str. cbn. apply find_first_blank; [exact Hc|reflexivity|exact Hr].
  - unfold headingPattern. destruct ws as [|c ws].
    + reflexivity.
    + cbn in Hws. apply andb_prop in Hws as [Hc0 _]. cbn [app takeWhile dropWhile].
      destruct (is_char "*" c) eqn:E; [|reflexivity].
      apply Ascii.eqb_eq in E. subst. discriminate.
  - unfold codeBlockStart, line_starts_key. unfold drawerEnd, whole_line_key in H.
    destruct (strip_prefix (str ":END:") _) as [r0|] eqn:E; [|discriminate].
    apply strip_prefix_Some in E. rewrite E. reflexivity.
  - unfold codeBlockEnd, line_starts_key. unfold drawerEnd, whole_line_key in H.
    destruct (strip_prefix (str ":END:") _) as [r0|] eqn:E; [|discriminate].
    apply strip_prefix_Some in E. rewrite E. reflexivity.
  - destruct (TrimSpace _); [contradiction|reflexivity].
Qed.

Lemma contentLine_plain (line : gostring) (it : Item) :
  scheduledPattern line = None -> deadlinePattern line = None ->
  clockPattern line = None -> is_nil (TrimSpace line) = false ->
  contentLine line it = set_Notes (Notes it ++ [line]) it.
Proof.
  intros Hs Hd Hc Hn. unfold contentLine. rewrite Hs, Hd, Hc, Hn. reflexivity.
Qed.

Lemma same_but_drawer_eq (st st' : scan) :
  same_but_drawer st st' -> inLogbookDrawer st = inLogbookDrawer st' -> st = st'.
Proof.
  destruct st as [h f cur stack code d], st' as [h' f' cur' stack' code' d'].
  unfold same_but_drawer. cbn. intros (-> & -> & -> & -> & ->) ->. reflexivity.
Qed.

Lemma parseLine_drawer_flag (st st' : scan) (line : gostring) :
  same_but_drawer st st' ->
  same_but_drawer (parseLine st line) (parseLine st' line).
Proof.
  intros Hsame.
  destruct st as [h f cur stack code d], st' as [h' f' cur' stack' code' d'].
  destruct Hsame as (Hh & Hf & Hc & Hk & Hb). cbn in Hh, Hf, Hc, Hk, Hb. subst.
  assert (Hnote : forall b0 c1 c2 : bool,
            same_but_drawer (appendNote line (mkScan h' f' cur' stack' b0 c1))
                            (appendNote line (mkScan h' f' cur' stack' b0 c2))).
  { intros. unfold appendNote. cbn [currentItem]. destruct cur'; repeat split. }
  unfold parseLine. cbn [inLogbookDrawer inCodeBlock currentItem store].
  destruct (drawerStart line); [apply Hnote|].
  destruct (drawerEnd line) eqn:Eend; [|cbn [andb]].
  - destruct (drawerEnd_no_directive line Eend) as (Hs & Hd & Hcl & Hhd & Hcs & Hce & Hn).
    rewrite Hcs, Hce, Hhd.
    assert (Hend : forall b b0 b1 : bool,
              same_but_drawer
                (appendNote line (set_inLogbookDrawer b0 (mkScan h' f' cur' stack' code' b1)))
                (if code' then appendNote line (mkScan h' f' cur' stack' code' b)
                 else match cur' with
                      | Some p => set_store (alter (contentLine line) p h')
                                            (mkScan h' f' cur' stack' code' b)
                      | None => mkScan h' f' cur' stack' code' b
                      end)).
    { intros b b0 b1. unfold appendNote. cbn [currentItem set_inLogbookDrawer store].
      destruct code', cur'; repeat split. cbn [store set_store].
      apply list_alter_ext; [|reflexivity]. intros x _. symmetry.
      apply contentLine_plain; assumption. }
    destruct d, d'; cbn [andb].
    + apply Hnote.
    + apply Hend.
    + destruct (Hend false false true) as (E1 & E2 & E3 & E4 & E5).
      repeat split; symmetry; assumption.
    + repeat split.
  - destruct (codeBlockStart line); [apply Hnote|].
    destruct (codeBlockEnd line); [apply Hnote|].
    destruct code'; [apply Hnote|].
    destruct (headingPattern line) as [[[stars state] title]|].
    + unfold headingLine. cbn [store itemStack orgFile inCodeBlock inLogbookDrawer].
      destruct (popStack h' (length stars) stack'); repeat split.
    + destruct cur'; repeat split.
Qed.

Lemma fold_drawer_flag (lines : list gostring) (st st' : scan) :
  same_but_drawer st st' ->
  same_but_drawer (fold_left parseLine lines st) (fold_left parseLine lines st').
Proof.
  revert st st'. induction lines as [|l lines IH]; intros st st' H; [exact H|].
  cbn [fold_left]. apply IH, parseLine_drawer_flag, H.
Qed.

(** X9: the flag [inLogbookDrawer] of the scanning loop has no effect
    on what is parsed: started with the flag set either way, the same
    lines lead to the same store and the same file. *)
Theorem drawer_flag_unobserved (st : scan) (b : bool) (lines : list gostring) :
  store (fold_left parseLine lines (set_inLogbookDrawer b st))
  = store (fold_left parseLine lines st) /\
  orgFile (fold_left parseLine lines (set_inLogbookDrawer b st))
  = orgFile (fold_left parseLine lines st).
Proof.
  destruct (fold_drawer_flag lines (set_inLogbookDrawer b st) st) as (Hs & Hf & _).
  - repeat split.
  - auto.
Qed.

(** ** Text in front of the first heading *)

Lemma preamble_skipped (path : gostring) (pre : list gostring) :
  Forall preamble_line pre ->
  same_but_drawer (fold_left parseLine pre (initial path)) (initial path).
Proof.
  intros Hpre. 
  assert (H : forall st, same_but_drawer st (initial path) ->
                         same_but_drawer (fold_left parseLine pre st) (initial path)).
  { induction Hpre as [|l pre [Hh Hc] _ IH]; intros st Hst; [exact Hst|].
    cbn [fold_left]. apply IH.
    destruct st as [h f cur stack code d].
    destruct Hst as (Hs & Hf & Hcur & Hk & Hb). cbn in Hs, Hf, Hcur, Hk, Hb. subst.
    unfold parseLine, appendNote.
    cbn [inLogbookDrawer inCodeBlock currentItem store set_inLogbookDrawer
         set_inCodeBlock].
    rewrite Hh, Hc.
    destruct (drawerStart l); [repeat split|].
    destruct (drawerEnd l && d); [repeat split|].
    destruct (codeBlockEnd l); repeat split. }
  apply H. repeat split.
Qed.

(** X10: the text in front of the first heading is dropped: lines
    that are no headings and start no code block, put in front of a
    file, change nothing of the store and the file it parses to. *)
Theorem text_before_first_heading_dropped (path : gostring)
    (pre rest : list gostring) :
  Forall preamble_line pre ->
  store (parseLines path (pre ++ rest)) = store (parseLines path rest) /\
  orgFile (parseLines path (pre ++ rest)) = orgFile (parseLines path rest).
Proof.
  intros Hpre. unfold parseLines. rewrite fold_left_app.
  destruct (fold_drawer_flag rest _ _ (preamble_skipped path pre Hpre)) as (Hs & Hf & _).
  auto.
Qed.

End Preamble.

Section Headings.
Context {TL : TimeLib}.

(** ** A written heading read back *)

Lemma takeWhile_stars (n : nat) (c : ascii) (r : gostring) :
  is_char "*" c = false ->
  takeWhile (is_char "*") (Repeat "*" n ++ c :: r) = Repeat "*" n /\
  dropWhile (is_char "*") (Repeat "*" n ++ c :: r) = c :: r.
Proof.
  intros Hc. induction n as [|n [IH1 IH2]].
  - cbn [Repeat repeat app takeWhile dropWhile]. rewrite Hc. auto.
  - cbn [Repeat repeat app takeWhile dropWhile].
    change (is_char "*" "*") with true. cbn iota. unfold Repeat in *.
    rewrite IH1, IH2. auto.
Qed.

Lemma ws_one (c : ascii) (r : gostring) :
  re_space c = false -> length (takeWhile re_space (" " :: c :: r)) = 1.
Proof. intros Hc. cbn. rewrite Hc. reflexivity. Qed.

Lemma dot_plus_eol_title (state title : gostring) :
  plain_title state title = true -> dot_plus_eol title = true.
Proof.
  unfold plain_title, dot_plus_eol. intros H.
  apply andb_prop in H as [H _]. apply andb_prop in H as [H1 H2].
  rewrite H2. destruct title; [discriminate|reflexivity].
Qed.

Lemma keyword_skip (kw : gostring) (kws : list gostring) (s : gostring) :
  strip_prefix kw s = None ->
  keyword_then_title (kw :: kws) s = keyword_then_title kws s.
Proof. intros H. cbn [keyword_then_title]. rewrite H. reflexivity. Qed.

Lemma keyword_found (kw : gostring) (c : ascii) (r : gostring) :
  kw ∈ keywords -> re_space c = false -> dot_plus_eol (c :: r) = true ->
  keyword_then_title keywords (kw ++ " " :: c :: r) = Some (kw, c :: r).
Proof.
  intros Hkw Hc Hdot.
  assert (Hhere : forall rest,
            keyword_then_title (kw :: rest) (kw ++ " " :: c :: r) = Some (kw, c :: r)).
  { intros rest. cbn [keyword_then_title].
    rewrite strip_prefix_app, ws_one by exact Hc.
    cbn [ws_then_title drop]. rewrite Hdot. reflexivity. }
  unfold keywords in *.
  do 4 (apply elem_of_cons in Hkw as [->|Hkw];
        [rewrite ?keyword_skip by reflexivity; apply Hhere|]).
  apply elem_of_nil in Hkw. contradiction.
Qed.

Lemma heading_reparsed (item : Item) :
  1 <= Level item -> State item ∈ valid_states ->
  plain_title (State item) (Title item) = true ->
  exists line,
    headingText item = line ++ [LF] /\
    headingPattern line = Some (Repeat "*" (Level item), State item, Title item).
Proof.
  intros Hlevel Hstate Htitle.
  exists (Repeat "*" (Level item)
          ++ (if is_nil (State item) then [] else str " " ++ State item)
          ++ str " " ++ Title item).
  split; [unfold headingText; rewrite <- !app_assoc; reflexivity|].
  pose proof (dot_plus_eol_title _ _ Htitle) as Hdot.
  destruct (Title item) as [|c r] eqn:Et; [discriminate|].
  assert (Hc : re_space c = false).
  { unfold plain_title in Htitle. apply andb_prop in Htitle as [H _].
    apply andb_prop in H as [H _]. apply negb_true_iff in H. exact H. }
  unfold headingPattern.
  assert (Hrest : exists rest,
            (if is_nil (State item) then [] else str " " ++ State item) ++ str " " ++ c :: r
            = " " :: rest /\
            ws_then_heading (length (takeWhile re_space (" " :: rest))) (" " :: rest)
            = Some (State item, c :: r)).
  { apply elem_of_cons in Hstate as [E|Hkw].
    - rewrite E in *. exists (c :: r). split; [reflexivity|]. rewrite ws_one by exact Hc.
      cbn [ws_then_heading drop]. unfold plain_title in Htitle.
      apply andb_prop in Htitle as [_ H]. cbn [is_nil negb orb] in H.
      fold keywords. destruct (keyword_then_title keywords (c :: r)); [discriminate|].
      rewrite Hdot. reflexivity.
    - fold keywords in Hkw. exists (State item ++ " " :: c :: r).
      assert (Hfirst : exists k kw', State item = k :: kw' /\ re_space k = false).
      { unfold keywords in Hkw.
        do 4 (apply elem_of_cons in Hkw as [E|Hkw];
                [rewrite E; eexists _, _; split; reflexivity|]).
        apply elem_of_nil in Hkw. contradiction. }
      destruct Hfirst as (k & kw' & Ek & Hk). split; [rewrite Ek; reflexivity|].
      rewrite Ek at 1 2. cbn [app]. rewrite ws_one by exact Hk.
      change (k :: kw' ++ " " :: c :: r) with ((k :: kw') ++ " " :: c :: r).
      rewrite <- Ek. cbn [ws_then_heading drop]. rewrite drop_0.
      fold keywords. rewrite keyword_found by assumption. reflexivity. }
  destruct Hrest as (rest & -> & Hws).
  destruct (takeWhile_stars (Level item) " " rest eq_refl) as [-> ->].
  rewrite Hws. destruct (Level item); [lia|]. reflexivity.
Qed.

(** X11: a heading line written by [writeItem] is read back.  For an
    item of level 1 or more with one of the five states and a title
    that starts with a character that is no white space, has no
    newline and, when the item has no state, does not itself start
    with a keyword followed by white space and a title: the line
    [writeItem] writes matches the heading pattern with the stars of
    the level, the state and the title of the item. *)
Theorem written_heading_parses_back (item : Item) :
  1 <= Level item -> State item ∈ valid_states ->
  plain_title (State item) (Title item) = true ->
  exists line,
    headingText item = line ++ [LF] /\
    headingPattern line = Some (Repeat "*" (Level item), State item, Title item).
Proof. apply heading_reparsed. Qed.

End Headings.

(** ** Timestamps written and read back *)

Lemma two_digits (n : nat) :
  n < 100 ->
  exists c d, GoTime.appendInt n 2 = [c; d] /\ is_digit c = true /\
              is_digit d = true /\ GoTime.digit c * 10 + GoTime.digit d = n.
Proof.
  intros Hn.
  assert (H : forallb (fun n => match GoTime.appendInt n 2 with
                                | [c; d] => is_digit c && is_digit d &&
                                            (GoTime.digit c * 10 + GoTime.digit d =? n)%nat
                                | _ => false
                                end) (seq 0 100) = true) by (vm_compute; reflexivity).
  rewrite forallb_forall in H. specialize (H n).
  destruct (GoTime.appendInt n 2) as [|c [|d [|]]];
    try (exfalso; cut (false = true); [discriminate|apply H, in_seq; lia]).
  exists c, d. split; [reflexivity|].
  assert (Hb : is_digit c && is_digit d &&
               (GoTime.digit c * 10 + GoTime.digit d =? n)%nat = true)
    by (apply H, in_seq; lia).
  apply andb_prop in Hb as [Hb H3]. apply andb_prop in Hb as [H1 H2].
  apply Nat.eqb_eq in H3. auto.
Qed.

Lemma digit_char (r : nat) :
  r < 10 ->
  is_digit (ascii_of_nat (48 + r)) = true /\ GoTime.digit (ascii_of_nat (48 + r)) = r.
Proof.
  intros Hr. do 10 (destruct r as [|r]; [split; reflexivity|]). lia.
Qed.

Lemma decimal_small (fuel n : nat) (acc : gostring) :
  n < 10 -> GoTime.decimal (S fuel) n acc = ascii_of_nat (48 + n) :: acc.
Proof.
  intros Hn. cbn [GoTime.decimal]. rewrite Nat.mod_small by exact Hn.
  replace (n <? 10)%nat with true by (symmetry; apply Nat.ltb_lt; exact Hn).
  reflexivity.
Qed.

Lemma decimal_step (fuel n : nat) (acc : gostring) :
  10 <= n ->
  GoTime.decimal (S fuel) n acc
  = GoTime.decimal fuel (n / 10) (ascii_of_nat (48 + n mod 10) :: acc).
Proof.
  intros Hn. cbn [GoTime.decimal].
  replace (n <? 10)%nat with false by (symmetry; apply Nat.ltb_ge; exact Hn).
  reflexivity.
Qed.

Lemma div10_lt (a k : nat) : a / 10 < k -> a < 10 * k.
Proof.
  intros H. pose proof (Nat.div_mod_eq a 10). pose proof (Nat.mod_upper_bound a 10).
  lia.
Qed.

Lemma div10_ge (a k : nat) : k <= a / 10 -> 10 * k <= a.
Proof. intros H. pose proof (Nat.div_mod_eq a 10). lia. Qed.

(** The four digits of a number below ten thousand. *)
Lemma four_digits (n : nat) :
  n < 10 * 10 * 10 * 10 ->
  GoTime.appendInt n 4
  = map (fun r => ascii_of_nat (48 + r))
        [n / 1000; n / 100 mod 10; n / 10 mod 10; n mod 10].
Proof.
  intros Hn. unfold GoTime.appendInt.
  assert (Hfuel : forall fuel, n < fuel ->
            repeat "0" (4 - length (GoTime.decimal fuel n []))
            ++ GoTime.decimal fuel n []
            = map (fun r => ascii_of_nat (48 + r))
                  [n / 1000; n / 100 mod 10; n / 10 mod 10; n mod 10]);
    [|apply Hfuel; lia].
  intros fuel Hf.
  replace (n / 100) with (n / 10 / 10) by (rewrite Nat.Div0.div_div; reflexivity).
  replace (n / 1000) with (n / 10 / 10 / 10) by (rewrite !Nat.Div0.div_div; reflexivity).
  destruct (Nat.lt_ge_cases n 10) as [H1|H1].
  { destruct fuel as [|fuel]; [lia|]. rewrite decimal_small by exact H1.
    cbn [length Nat.sub repeat app map].
    rewrite (Nat.div_small n 10), (Nat.mod_small n) by exact H1. reflexivity. }
  destruct fuel as [|fuel]; [lia|]. rewrite decimal_step by exact H1.
  pose proof (div10_ge n 1) as G1.
  destruct (Nat.lt_ge_cases (n / 10) 10) as [H2|H2].
  { destruct fuel as [|fuel]; [lia|]. rewrite decimal_small by exact H2.
    cbn [length Nat.sub repeat app map].
    rewrite (Nat.div_small (n / 10) 10), (Nat.mod_small (n / 10)) by exact H2.
    reflexivity. }
  pose proof (div10_ge n 10 H2) as G2.
  destruct fuel as [|fuel]; [lia|]. rewrite decimal_step by exact H2.
  destruct (Nat.lt_ge_cases (n / 10 / 10) 10) as [H3|H3].
  { destruct fuel as [|fuel]; [lia|]. rewrite decimal_small by exact H3.
    cbn [length Nat.sub repeat app map].
    rewrite (Nat.div_small (n / 10 / 10) 10), (Nat.mod_small (n / 10 / 10))
      by exact H3.
    reflexivity. }
  pose proof (div10_ge (n / 10) 10 H3) as G3. pose proof (div10_ge n 100 G3) as G3'.
  destruct fuel as [|fuel]; [lia|]. rewrite decimal_step by exact H3.
  assert (H4 : n / 10 / 10 / 10 < 10).
  { rewrite !Nat.Div0.div_div. apply Nat.Div0.div_lt_upper_bound. lia. }
  destruct fuel as [|fuel]; [lia|]. rewrite decimal_small by exact H4.
  reflexivity.
Qed.

Lemma four_digits_value (n : nat) :
  n < 10 * 10 * 10 * 10 ->
  exists a b c d,
    GoTime.appendInt n 4 = [a; b; c; d] /\
    GoTime.all_digits [a; b; c; d] = true /\ GoTime.atoi_digits [a; b; c; d] = n.
Proof.
  intros Hn. rewrite (four_digits n Hn). cbn [map]. eexists _, _, _, _.
  split; [reflexivity|].
  assert (H1 : n / 1000 < 10) by (apply Nat.Div0.div_lt_upper_bound; lia).
  pose proof (Nat.mod_upper_bound (n / 100) 10 ltac:(lia)) as H2.
  pose proof (Nat.mod_upper_bound (n / 10) 10 ltac:(lia)) as H3.
  pose proof (Nat.mod_upper_bound n 10 ltac:(lia)) as H4.
  destruct (digit_char _ H1) as [D1 V1]. destruct (digit_char _ H2) as [D2 V2].
  destruct (digit_char _ H3) as [D3 V3]. destruct (digit_char _ H4) as [D4 V4].
  split.
  - unfold GoTime.all_digits. cbn [forallb]. unfold is_digit in D1, D2, D3, D4.
    rewrite D1, D2, D3, D4. reflexivity.
  - unfold GoTime.atoi_digits. cbn [fold_left]. rewrite V1, V2, V3, V4.
    pose proof (Nat.div_mod_eq n 10). pose proof (Nat.div_mod_eq (n / 10) 10).
    pose proof (Nat.div_mod_eq (n / 100) 10).
    replace (n / 100) with (n / 10 / 10) in * by (rewrite Nat.Div0.div_div; reflexivity).
    replace (n / 1000) with (n / 10 / 10 / 10) by (rewrite !Nat.Div0.div_div; reflexivity).
    lia.
Qed.

Lemma getnum_two (n : nat) (rest : gostring) (fixed : bool) :
  n < 100 -> GoTime.getnum (GoTime.appendInt n 2 ++ rest) fixed = Some (n, rest).
Proof.
  intros Hn. destruct (two_digits n Hn) as (c & d & -> & Hc & Hd & Hv).
  unfold GoTime.getnum, GoTime.isDigit. cbn [app lookup list_lookup].
  unfold is_digit in Hc, Hd. rewrite Hc, Hd. cbn [negb]. rewrite Hv. reflexivity.
Qed.

Lemma two_digits_not_space (n : nat) (rest : gostring) :
  n < 100 ->
  dropWhile (is_char " ") (GoTime.appendInt n 2 ++ rest) = GoTime.appendInt n 2 ++ rest.
Proof.
  intros Hn. destruct (two_digits n Hn) as (c & d & -> & Hc & _).
  cbn [app dropWhile]. destruct (is_char " " c) eqn:E; [|reflexivity].
  apply Ascii.eqb_eq in E. subst. discriminate.
Qed.

Lemma weekday_lt (x : GoTime.t) : GoTime.weekday x < 7.
Proof. unfold GoTime.weekday. apply Nat.mod_upper_bound. lia. Qed.

Lemma weekday_name (x : GoTime.t) (rest : gostring) :
  let name := nth (GoTime.weekday x) GoTime.shortDayNames [] in
  GoTime.lookup GoTime.shortDayNames (name ++ rest) = Some rest /\
  dropWhile (is_char " ") (name ++ rest) = name ++ rest.
Proof.
  pose proof (weekday_lt x) as Hw. destruct (GoTime.weekday x) as [|w]; [split; reflexivity|].
  do 6 (destruct w as [|w]; [split; reflexivity|]). lia.
Qed.

(** The text of a date, as the layout "2006-01-02 Mon" writes it. *)
Lemma Format_date (x : GoTime.t) :
  GoTime.Format x (str "2006-01-02 Mon")
  = GoTime.appendInt (GoTime.year x) 4 ++ "-" :: GoTime.appendInt (GoTime.month x) 2
    ++ "-" :: GoTime.appendInt (GoTime.day x) 2
    ++ " " :: nth (GoTime.weekday x) GoTime.shortDayNames [].
Proof.
  unfold GoTime.Format.
  change (GoTime.chunks _ _) with
    [GoTime.stdLongYear; GoTime.literal "-"; GoTime.stdZeroMonth; GoTime.literal "-";
     GoTime.stdZeroDay; GoTime.literal " "; GoTime.stdWeekDay].
  cbn [map concat GoTime.format1]. rewrite app_nil_r.
  repeat (rewrite <- ?app_assoc; cbn [app]). reflexivity.
Qed.

(** One step of [parse], chunk by chunk. *)
Lemma parse_literal (c : ascii) (cs : list GoTime.chunk) (value : gostring)
    (acc : GoTime.t) :
  GoTime.parse (GoTime.literal c :: cs) value acc
  = match GoTime.skip value c with
    | Some value' => GoTime.parse cs value' acc
    | None => None
    end.
Proof. reflexivity. Qed.

Lemma parse_year (n : nat) (cs : list GoTime.chunk) (rest : gostring) (acc : GoTime.t) :
  n < 10 * 10 * 10 * 10 ->
  GoTime.parse (GoTime.stdLongYear :: cs) (GoTime.appendInt n 4 ++ rest) acc
  = GoTime.parse cs rest
      (GoTime.mk n (GoTime.month acc) (GoTime.day acc) (GoTime.hour acc)
                 (GoTime.minute acc) (GoTime.second acc) (GoTime.nsec acc)).
Proof.
  intros Hn. destruct (four_digits_value _ Hn) as (a & b & c & d & -> & Hdig & Hval).
  change (GoTime.parse (GoTime.stdLongYear :: cs) ([a; b; c; d] ++ rest) acc)
    with (if GoTime.all_digits [a; b; c; d]
          then GoTime.parse cs rest
                 (GoTime.mk (GoTime.atoi_digits [a; b; c; d]) (GoTime.month acc)
                            (GoTime.day acc) (GoTime.hour acc) (GoTime.minute acc)
                            (GoTime.second acc) (GoTime.nsec acc))
          else None).
  rewrite Hdig, Hval. reflexivity.
Qed.

Lemma parse_month (n : nat) (cs : list GoTime.chunk) (rest : gostring) (acc : GoTime.t) :
  1 <= n <= 12 ->
  GoTime.parse (GoTime.stdZeroMonth :: cs) (GoTime.appendInt n 2 ++ rest) acc
  = GoTime.parse cs rest
      (GoTime.mk (GoTime.year acc) n (GoTime.day acc) (GoTime.hour acc)
                 (GoTime.minute acc) (GoTime.second acc) (GoTime.nsec acc)).
Proof.
  intros Hn. cbn [GoTime.parse]. rewrite getnum_two by lia.
  replace (1 <=? n)%nat with true by (symmetry; apply Nat.leb_le; lia).
  replace (n <=? 12)%nat with true by (symmetry; apply Nat.leb_le; lia).
  reflexivity.
Qed.

Lemma parse_day (n : nat) (cs : list GoTime.chunk) (rest : gostring) (acc : GoTime.t) :
  n < 100 ->
  GoTime.parse (GoTime.stdZeroDay :: cs) (GoTime.appendInt n 2 ++ rest) acc
  = GoTime.parse cs rest
      (GoTime.mk (GoTime.year acc) (GoTime.month acc) n (GoTime.hour acc)
                 (GoTime.minute acc) (GoTime.second acc) (GoTime.nsec acc)).
Proof. intros Hn. cbn [GoTime.parse]. rewrite getnum_two by lia. reflexivity. Qed.

Lemma parse_weekday (x : GoTime.t) (cs : list GoTime.chunk) (rest : gostring)
    (acc : GoTime.t) :
  GoTime.parse (GoTime.literal " " :: GoTime.stdWeekDay :: cs)
    (" " :: nth (GoTime.weekday x) GoTime.shortDayNames [] ++ rest) acc
  = GoTime.parse cs rest acc.
Proof.
  destruct (weekday_name x rest) as [Hlook Hdrop]. cbn zeta in Hlook, Hdrop.
  rewrite parse_literal. unfold GoTime.skip. change (Ascii.eqb " " " ") with true.
  cbn iota. cbn [dropWhile]. change (is_char " " " ") with true. cbn iota.
  rewrite Hdrop. cbn [GoTime.parse]. rewrite Hlook. reflexivity.
Qed.

Lemma parse_dash (cs : list GoTime.chunk) (rest : gostring) (acc : GoTime.t) :
  GoTime.parse (GoTime.literal "-" :: cs) ("-" :: rest) acc = GoTime.parse cs rest acc.
Proof. reflexivity. Qed.

Lemma days_below (m y : nat) : GoTime.daysIn m y <= 31.
Proof.
  unfold GoTime.daysIn.
  destruct m as [|[|[|[|[|[|[|[|[|[|[|[|]]]]]]]]]]]]; try destruct (GoTime.isLeap _); lia.
Qed.

Lemma valid_date_bounds (x : GoTime.t) :
  valid_date x = true ->
  GoTime.year x < 10 * 10 * 10 * 10 /\ 1 <= GoTime.month x <= 12 /\
  1 <= GoTime.day x <= GoTime.daysIn (GoTime.month x) (GoTime.year x).
Proof.
  unfold valid_date. intros Hv.
  repeat (apply andb_prop in Hv as [Hv ?]).
  repeat match goal with
         | H : (_ <=? _)%nat = true |- _ => apply Nat.leb_le in H
         | H : (_ <=? _)%N = true |- _ => apply N.leb_le in H
         end.
  lia.
Qed.

(** Reading the date back, whatever follows it in the layout. *)
Lemma parse_date (x acc : GoTime.t) (cs : list GoTime.chunk) (rest : gostring) :
  valid_date x = true ->
  GoTime.parse
    (GoTime.stdLongYear :: GoTime.literal "-" :: GoTime.stdZeroMonth
     :: GoTime.literal "-" :: GoTime.stdZeroDay :: GoTime.literal " "
     :: GoTime.stdWeekDay :: cs)
    (GoTime.Format x (str "2006-01-02 Mon") ++ rest) acc
  = GoTime.parse cs rest
      (GoTime.mk (GoTime.year x) (GoTime.month x) (GoTime.day x) (GoTime.hour acc)
                 (GoTime.minute acc) (GoTime.second acc) (GoTime.nsec acc)).
Proof.
  intros Hv. destruct (valid_date_bounds x Hv) as (Hy & Hm & Hd).
  pose proof (days_below (GoTime.month x) (GoTime.year x)) as H31.
  rewrite Format_date.
  repeat (rewrite <- ?app_assoc; cbn [app]).
  rewrite parse_year by exact Hy. rewrite parse_dash.
  rewrite parse_month by exact Hm. rewrite parse_dash.
  rewrite parse_day by lia. rewrite parse_weekday. reflexivity.
Qed.

Lemma date_reparsed (x : GoTime.t) :
  valid_date x = true ->
  @parseOrgDate goTime (@formatOrgDate goTime x) = Some (date_of x).
Proof.
  intros Hv. destruct (valid_date_bounds x Hv) as (Hy & Hm & Hd).
  unfold parseOrgDate, formatOrgDate. cbn [first_layout time_Parse time_Format goTime].
  unfold GoTime.Parse at 1.
  change (GoTime.chunks _ (str "2006-01-02 Mon 15:04")) with
    [GoTime.stdLongYear; GoTime.literal "-"; GoTime.stdZeroMonth; GoTime.literal "-";
     GoTime.stdZeroDay; GoTime.literal " "; GoTime.stdWeekDay; GoTime.literal " ";
     GoTime.stdHour; GoTime.literal ":"; GoTime.stdZeroMinute].
  rewrite <- (app_nil_r (GoTime.Format x _)) at 1. rewrite parse_date by exact Hv.
  change (GoTime.parse (GoTime.literal " " :: _) [] _) with (@None GoTime.t).
  cbv iota. unfold GoTime.Parse at 1.
  change (GoTime.chunks _ (str "2006-01-02 Mon")) with
    [GoTime.stdLongYear; GoTime.literal "-"; GoTime.stdZeroMonth; GoTime.literal "-";
     GoTime.stdZeroDay; GoTime.literal " "; GoTime.stdWeekDay].
  rewrite <- (app_nil_r (GoTime.Format x _)) at 1. rewrite parse_date by exact Hv.
  cbn [GoTime.parse is_nil GoTime.day GoTime.month GoTime.year GoTime.hour
       GoTime.minute GoTime.second GoTime.nsec].
  replace (1 <=? GoTime.day x)%nat with true by (symmetry; apply Nat.leb_le; lia).
  replace (GoTime.day x <=? _)%nat with true by (symmetry; apply Nat.leb_le; lia).
  reflexivity.
Qed.

Lemma Format_clock (x : GoTime.t) :
  GoTime.Format x (str "2006-01-02 Mon 15:04")
  = GoTime.Format x (str "2006-01-02 Mon")
    ++ " " :: GoTime.appendInt (GoTime.hour x) 2
    ++ ":" :: GoTime.appendInt (GoTime.minute x) 2.
Proof.
  unfold GoTime.Format.
  change (GoTime.chunks _ (str "2006-01-02 Mon 15:04")) with
    ([GoTime.stdLongYear; GoTime.literal "-"; GoTime.stdZeroMonth; GoTime.literal "-";
      GoTime.stdZeroDay; GoTime.literal " "; GoTime.stdWeekDay]
     ++ [GoTime.literal " "; GoTime.stdHour; GoTime.literal ":"; GoTime.stdZeroMinute]).
  change (GoTime.chunks _ (str "2006-01-02 Mon")) with
    [GoTime.stdLongYear; GoTime.literal "-"; GoTime.stdZeroMonth; GoTime.literal "-";
     GoTime.stdZeroDay; GoTime.literal " "; GoTime.stdWeekDay].
  rewrite map_app, concat_app. f_equal.
  cbn [map concat GoTime.format1 app]. rewrite app_nil_r. reflexivity.
Qed.

Lemma parse_time_of_day (hh mm : nat) (acc : GoTime.t) :
  hh < 24 -> mm < 60 ->
  1 <= GoTime.day acc <= GoTime.daysIn (GoTime.month acc) (GoTime.year acc) ->
  GoTime.parse [GoTime.literal " "; GoTime.stdHour; GoTime.literal ":";
                GoTime.stdZeroMinute]
    (" " :: GoTime.appendInt hh 2 ++ ":" :: GoTime.appendInt mm 2) acc
  = Some (GoTime.mk (GoTime.year acc) (GoTime.month acc) (GoTime.day acc) hh mm
                    (GoTime.second acc) (GoTime.nsec acc)).
Proof.
  intros Hh Hm Hd. rewrite parse_literal. unfold GoTime.skip.
  change (Ascii.eqb " " " ") with true. cbn iota. cbn [dropWhile].
  change (is_char " " " ") with true. cbn iota.
  rewrite two_digits_not_space by lia. cbn [GoTime.parse].
  rewrite getnum_two by lia.
  replace (hh <? 24)%nat with true by (symmetry; apply Nat.ltb_lt; exact Hh).
  unfold GoTime.skip. change (Ascii.eqb ":" " ") with false. cbn iota.
  change (Ascii.eqb ":" ":") with true. cbn iota.
  rewrite <- (app_nil_r (GoTime.appendInt mm 2)), getnum_two by lia.
  replace (mm <? 60)%nat with true by (symmetry; apply Nat.ltb_lt; exact Hm).
  cbn [is_nil GoTime.day GoTime.month GoTime.year].
  replace (1 <=? GoTime.day acc)%nat with true by (symmetry; apply Nat.leb_le; lia).
  replace (GoTime.day acc <=? _)%nat with true by (symmetry; apply Nat.leb_le; lia).
  reflexivity.
Qed.

Lemma clock_reparsed (x : GoTime.t) :
  valid_clock x = true ->
  @parseClockTimestamp goTime (@formatClockTimestamp goTime x) = Some (minute_of x).
Proof.
  unfold valid_clock. intros Hv. apply andb_prop in Hv as [Hv Hmin].
  apply andb_prop in Hv as [Hv Hhour]. apply Nat.ltb_lt in Hmin, Hhour.
  destruct (valid_date_bounds x Hv) as (Hy & Hm & Hd).
  unfold parseClockTimestamp, formatClockTimestamp.
  cbn [first_layout time_Parse time_Format goTime]. unfold GoTime.Parse at 1.
  change (GoTime.chunks _ (str "2006-01-02 Mon 15:04")) with
    [GoTime.stdLongYear; GoTime.literal "-"; GoTime.stdZeroMonth; GoTime.literal "-";
     GoTime.stdZeroDay; GoTime.literal " "; GoTime.stdWeekDay; GoTime.literal " ";
     GoTime.stdHour; GoTime.literal ":"; GoTime.stdZeroMinute].
  rewrite Format_clock, parse_date by exact Hv.
  rewrite parse_time_of_day by assumption. reflexivity.
Qed.

(** The day names of the first days of year 0, which count with the
    year before. *)
Example weekday_of_year_0 :
  GoTime.Format (GoTime.mk 0 1 15 0 0 0 0%N) (str "2006-01-02 Mon")
  = str "0000-01-15 Sat"
  /\ GoTime.Format (GoTime.mk 0 3 1 0 0 0 0%N) (str "2006-01-02 Mon")
     = str "0000-03-01 Wed".
Proof. split; reflexivity. Qed.

(** X12: [parseOrgDate] reads back what [formatOrgDate] writes: for a
    day of the calendar in the years 0 to 9999, that day at midnight
    (the time of day is not written). *)
Theorem written_date_parses_back (x : GoTime.t) :
  valid_date x = true ->
  @parseOrgDate goTime (@formatOrgDate goTime x) = Some (date_of x).
Proof. apply date_reparsed. Qed.

(** X13: [parseClockTimestamp] reads back what [formatClockTimestamp]
    writes: for a time on a day of the calendar in the years 0 to 9999,
    that time cut to the minute (seconds are not written). *)
Theorem written_clock_parses_back (x : GoTime.t) :
  valid_clock x = true ->
  @parseClockTimestamp goTime (@formatClockTimestamp goTime x) = Some (minute_of x).
Proof. apply clock_reparsed. Qed.

Section Views.
Context {TL : TimeLib}.

(** ** What Save leaves out *)

Lemma writeEach_ext (write write' : gostring -> ptr -> option gostring)
    (w : gostring) (items : list ptr) :
  (forall w x, write w x = write' w x) ->
  writeEach write w items = writeEach write' w items.
Proof.
  intros H. revert w. induction items as [|x items IH]; intros w; [reflexivity|].
  cbn [writeEach]. rewrite H. destruct (write' w x); [apply IH|reflexivity].
Qed.

Lemma writeItem_alter (f : Item -> Item) (p : ptr) (h : list Item) (it : Item) :
  h !! p = Some it -> Children (f it) = Children it -> ownText (f it) = ownText it ->
  forall fuel w q, writeItem fuel (alter f p h) w q = writeItem fuel h w q.
Proof.
  intros Hp Hc Ho. induction fuel as [|fuel IH]; intros w q; [reflexivity|].
  cbn [writeItem]. destruct (decide (p = q)) as [->|Hne].
  - rewrite list_lookup_alter_eq, Hp. cbn [fmap option_fmap option_map].
    rewrite !writeOwn_ownText, Ho, Hc. apply writeEach_ext, IH.
  - rewrite list_lookup_alter_ne by exact Hne.
    destruct (h !! q); [apply writeEach_ext, IH|reflexivity].
Qed.

Lemma ownText_entries (entries : list ClockEntry) (it : Item) :
  mentions (str ":LOGBOOK:") (Notes it) = true ->
  ownText (set_ClockEntries entries it) = ownText it.
Proof.
  intros H. unfold ownText, drawerText. cbn [Notes ClockEntries set_ClockEntries].
  rewrite H, !orb_true_r. reflexivity.
Qed.

(** X14: clock entries of an item whose notes mention :LOGBOOK: are
    not written.  After [ClockIn] or [ClockOut] on such an item [Save]
    writes what it wrote before: the new entry or the new end is lost
    with the file. *)
Theorem clocking_beside_a_drawer_is_not_saved (fuel : nat) (h : list Item)
    (file : OrgFile) (p : ptr) (it : Item) (now : Time) :
  h !! p = Some it ->
  mentions (str ":LOGBOOK:") (Notes it) = true ->
  Save fuel (alter (fun it => fst (ClockIn now it)) p h) file = Save fuel h file /\
  Save fuel (alter (fun it => fst (ClockOut now it)) p h) file = Save fuel h file.
Proof.
  intros Hp Hm. unfold Save. split; apply writeEach_ext; intros w x;
    apply (writeItem_alter _ p h it Hp).
  - unfold ClockIn. destruct (IsClockedIn it); reflexivity.
  - unfold ClockIn. destruct (IsClockedIn it); [reflexivity|].
    apply ownText_entries, Hm.
  - unfold ClockOut. destruct (clockOutLoop _ _ _); reflexivity.
  - unfold ClockOut. destruct (clockOutLoop _ _ _); [|reflexivity].
    apply ownText_entries, Hm.
Qed.

(** ** The list view *)

Lemma flatten_nil (fuel : nat) (h : list Item) (items : list ptr) :
  flatten (S fuel) h items [] = Some items.
Proof. reflexivity. Qed.

Lemma flatten_cons (fuel : nat) (h : list Item) (items : list ptr) (item : ptr)
    (lst : list ptr) :
  flatten (S fuel) h items (item :: lst)
  = match h !! item with
    | Some it =>
        if negb (Folded it) then
          match flatten fuel h (items ++ [item]) (Children it) with
          | Some items' => flatten (S fuel) h items' lst
          | None => None
          end
        else flatten (S fuel) h (items ++ [item]) lst
    | None => None
    end.
Proof. reflexivity. Qed.

Lemma flatten_visible (h : list Item) (fuel : nat) :
  forall (ts : list tree) (items : list ptr),
    Forall (represents h) ts -> Forall (fun t => height t <= fuel) ts ->
    flatten (S fuel) h items (map root_of ts)
    = Some (items ++ concat (map (visible h) ts)).
Proof.
  induction fuel as [|fuel IHf]; intros ts; induction ts as [|t ts IHt];
    intros items Hrep Hht.
  - rewrite app_nil_r. reflexivity.
  - apply Forall_cons in Hht as [Ht _]. destruct t. cbn in Ht. lia.
  - rewrite app_nil_r. reflexivity.
  - apply Forall_cons in Hrep as [Hrt Hrts]. apply Forall_cons in Hht as [Ht Hts].
    inversion Hrt as [p kids it Hp Hc Hkids]; subst.
    cbn [map root_of]. rewrite flatten_cons, Hp.
    cbn [concat map visible]. rewrite Hp.
    destruct (Folded it); cbn [negb].
    + rewrite IHt by assumption. rewrite <- app_assoc. reflexivity.
    + rewrite Hc, IHf by (try assumption; eapply height_kids, Ht).
      rewrite IHt by assumption. rewrite <- !app_assoc. reflexivity.
Qed.

(** X15: [GetAllItems] lists the items of the trees in preorder,
    leaving out what is below a folded item: every root, and below an
    item that is not folded its children in the same way. *)
Theorem GetAllItems_shows_unfolded (fuel : nat) (h : list Item) (file : OrgFile)
    (ts : list tree) :
  Items file = map root_of ts ->
  Forall (represents h) ts ->
  Forall (fun t => height t <= fuel) ts ->
  GetAllItems (S fuel) h file = Some (concat (map (visible h) ts)).
Proof.
  intros Hroots Hrep Hht. unfold GetAllItems. rewrite Hroots.
  apply (flatten_visible h fuel ts [] Hrep Hht).
Qed.

Lemma visible_unfolded (h : list Item) (t : tree) :
  Forall (fun it => Folded it = false) h -> represents h t -> visible h t = ptrs t.
Proof.
  intros Hall. induction t as [p kids IH] using tree_induction. intros Hrep.
  inversion Hrep as [p' kids' it Hp Hc Hkids]; subst.
  cbn [visible]. rewrite Hp, ptrs_Node.
  rewrite List.Forall_forall in Hall. rewrite (Hall it) by (eapply list_elem_of_In, list_elem_of_lookup_2, Hp).
  f_equal. unfold forest_ptrs. f_equal. clear Hrep Hp Hc.
  induction kids as [|k kids IHk]; [reflexivity|].
  apply Forall_cons in IH as [IH1 IH2]. apply Forall_cons in Hkids as [Hk1 Hk2].
  cbn [map]. rewrite IH1 by exact Hk1. rewrite IHk by assumption. reflexivity.
Qed.

Lemma Folded_contentLine (line : gostring) (it : Item) :
  Folded (contentLine line it) = Folded it.
Proof.
  unfold contentLine.
  destruct (scheduledPattern line) as [m1|]; [destruct (parseOrgDate m1)|];
    (destruct (deadlinePattern line) as [m2|]; [destruct (parseOrgDate m2)|]);
    (destruct (clockPattern line) as [[c1 c2]|]; [destruct (parseClockTimestamp c1)|]);
    cbn [Notes set_Scheduled set_Deadline set_ClockEntries];
    match goal with |- context [if ?b then _ else _] => destruct b end; reflexivity.
Qed.

Lemma parsed_unfolded (path : gostring) (lines : list gostring) :
  Forall (fun it => Folded it = false) (store (parseLines path lines)).
Proof.
  apply (parseLines_ind (fun st => Forall (fun it => Folded it = false) (store st))).
  - constructor.
  - intros st line Hall. apply parseLine_cases.
    + intros st0 (Hs & _). unfold appendNote.
      destruct (currentItem st0); cbn [store set_store]; rewrite Hs; [|exact Hall].
      apply Forall_alter; [exact Hall|]. intros x _ Hx. exact Hx.
    + intros stars state title _. unfold headingLine.
      assert (Hnew : Forall (fun it => Folded it = false)
                (store st ++ [mkItem (length stars) state title None None [] [] false []])).
      { apply Forall_app. split; [exact Hall|]. constructor; [reflexivity|constructor]. }
      destruct (popStack (store st) (length stars) (itemStack st)); cbn [store];
        [exact Hnew|].
      apply Forall_alter; [exact Hnew|]. intros x _ Hx. exact Hx.
    + intros p _. cbn [store set_store]. apply Forall_alter; [exact Hall|].
      intros x _ Hx. rewrite Folded_contentLine. exact Hx.
    + intros _. exact Hall.
Qed.

(** X16: on a file as [ParseOrgFile] returns it (nothing is folded)
    [GetAllItems] lists every item, in the order of the headings. *)
Theorem parsed_file_shows_every_item (path text : gostring) (h : list Item)
    (file : OrgFile) :
  ParseOrgFile path text = Some (h, file) ->
  GetAllItems (S (length h)) h file = Some (seq 0 (length h)).
Proof.
  unfold ParseOrgFile. destruct (scanLines text) as [lines|]; [|discriminate].
  intros [= <- <-].
  destruct (tree_inv_parseLines path lines) as (ts & Hroots & Hrep & Hptrs & _).
  assert (Hht : Forall (fun t => height t <= length (store (parseLines path lines))) ts).
  { pose proof (heights_le_ptrs ts) as Hh. rewrite Hptrs, length_seq in Hh. exact Hh. }
  unfold GetAllItems. rewrite Hroots, (flatten_visible _ _ ts [] Hrep Hht).
  rewrite <- Hptrs. unfold forest_ptrs. cbn [app]. do 2 f_equal.
  apply map_ext_in. intros t Ht. apply visible_unfolded; [apply parsed_unfolded|].
  rewrite List.Forall_forall in Hrep. apply Hrep, Ht.
Qed.

(** ** The agenda *)

Lemma agenda_nil (soon : Time -> bool) (fuel : nat) (h : list Item) (items : list ptr) :
  agenda soon (S fuel) h items [] = Some items.
Proof. reflexivity. Qed.

Lemma agenda_cons (soon : Time -> bool) (fuel : nat) (h : list Item)
    (items : list ptr) (item : ptr) (lst : list ptr) :
  agenda soon (S fuel) h items (item :: lst)
  = match h !! item with
    | Some it =>
        match agenda soon fuel h (items ++ agenda_entries soon h item) (Children it) with
        | Some items' => agenda soon (S fuel) h items' lst
        | None => None
        end
    | None => None
    end.
Proof.
  cbn [agenda]. unfold agenda_entries. destruct (h !! item) as [it|]; [|reflexivity].
  destruct (Scheduled it) as [t|]; [destruct (soon t)|];
    (destruct (Deadline it) as [t'|]; [destruct (soon t')|]);
    rewrite <- ?app_assoc, ?app_nil_r; reflexivity.
Qed.

Lemma agenda_preorder (soon : Time -> bool) (h : list Item) (fuel : nat) :
  forall (ts : list tree) (items : list ptr),
    Forall (represents h) ts -> Forall (fun t => height t <= fuel) ts ->
    agenda soon (S fuel) h items (map root_of ts)
    = Some (items ++ concat (map (agenda_entries soon h) (forest_ptrs ts))).
Proof.
  induction fuel as [|fuel IHf]; intros ts; induction ts as [|t ts IHt];
    intros items Hrep Hht.
  - rewrite app_nil_r. reflexivity.
  - apply Forall_cons in Hht as [Ht _]. destruct t. cbn in Ht. lia.
  - rewrite app_nil_r. reflexivity.
  - apply Forall_cons in Hrep as [Hrt Hrts]. apply Forall_cons in Hht as [Ht Hts].
    inversion Hrt as [p kids it Hp Hc Hkids]; subst.
    cbn [map root_of]. rewrite agenda_cons, Hp.
    rewrite Hc, IHf by (try assumption; eapply height_kids, Ht).
    rewrite IHt by assumption.
    rewrite forest_ptrs_cons, ptrs_Node, map_app, concat_app. cbn [map concat].
    rewrite <- !app_assoc. reflexivity.
Qed.

(** X17: the agenda lists the items in preorder, folded or not, one
    entry for a scheduled date that is soon and one for a deadline that
    is soon: an item with both is listed twice, an item with neither
    is left out. *)
Theorem agenda_lists_every_soon_date (soon : Time -> bool) (fuel : nat) (m : model)
    (ts : list tree) :
  mode m = modeAgenda ->
  Items (m_orgFile m) = map root_of ts ->
  Forall (represents (heap m)) ts ->
  Forall (fun t => height t <= fuel) ts ->
  getVisibleItems soon (S fuel) m
  = Some (concat (map (agenda_entries soon (heap m)) (forest_ptrs ts))).
Proof.
  intros Hmode Hroots Hrep Hht. unfold getVisibleItems. rewrite Hmode, Hroots.
  apply (agenda_preorder soon (heap m) fuel ts [] Hrep Hht).
Qed.

End Views.

Section Reordering.
Context {TL : TimeLib}.

(** ** swapItems reorders, and nothing else *)

Lemma reordered_refl (h : list Item) : reordered h h.
Proof.
  unfold reordered. induction h as [|it h IH]; constructor; [|exact IH].
  split; [reflexivity|apply set_Children_same].
Qed.

Lemma reordered_trans (h1 h2 h3 : list Item) :
  reordered h1 h2 -> reordered h2 h3 -> reordered h1 h3.
Proof.
  unfold reordered. intros H12. revert h3.
  induction H12 as [|a b h1 h2 [Hp Hs] _ IH]; intros h3 H23; inversion H23 as [|b' c ? h3' [Hp' Hs'] Hrest]; subst;
    constructor.
  - split; [etransitivity; eassumption|].
    rewrite <- Hs, <- Hs'. destruct c. reflexivity.
  - apply IH, Hrest.
Qed.

Lemma reordered_alter (h h' : list Item) (a : ptr) (cell : Item) (children : list ptr) :
  reordered h h' -> h !! a = Some cell -> children ≡ₚ Children cell ->
  reordered h (alter (set_Children children) a h').
Proof.
  unfold reordered. intros H. revert a. induction H as [|x y h h' [Hp Hs] Hrest IH];
    intros a Ha Hperm; [constructor|].
  destruct a as [|a]; cbn in Ha |- *.
  - injection Ha as ->. constructor; [|exact Hrest].
    split; [exact Hperm|]. rewrite <- Hs. destruct y. reflexivity.
  - constructor; [split; assumption|]. apply IH; assumption.
Qed.

Lemma swapLoop_reorders
    (recur : list Item -> list ptr -> option (list Item * list ptr * bool))
    (item1 item2 : ptr) :
  (forall h items h' items' sw,
     recur h items = Some (h', items', sw) -> items' ≡ₚ items /\ reordered h h') ->
  forall rest h before h' items' sw,
    swapLoop recur item1 item2 h before rest = Some (h', items', sw) ->
    items' ≡ₚ before ++ rest /\ reordered h h'.
Proof.
  intros Hrec rest. induction rest as [|a rest IH]; intros h before h' items' sw Hrun.
  - cbn in Hrun. injection Hrun as <- <- <-. rewrite app_nil_r.
    split; [reflexivity|apply reordered_refl].
  - destruct rest as [|b after].
    + cbn [swapLoop] in Hrun. destruct (h !! a) as [cell|] eqn:Ha; [|discriminate].
      destruct (recur h (Children cell)) as [[[h1 children] swapped]|] eqn:Er;
        [|discriminate].
      injection Hrun as <- <- <-. destruct (Hrec _ _ _ _ _ Er) as [Hperm Hre].
      split; [reflexivity|]. eapply reordered_alter; eassumption.
    + cbn [swapLoop] in Hrun.
      destruct ((a =? item1)%nat && (b =? item2)%nat).
      { injection Hrun as <- <- <-. split; [|apply reordered_refl].
        apply Permutation_app_head, perm_swap. }
      destruct ((a =? item2)%nat && (b =? item1)%nat).
      { injection Hrun as <- <- <-. split; [|apply reordered_refl].
        apply Permutation_app_head, perm_swap. }
      destruct (h !! a) as [cell|] eqn:Ha; [|discriminate].
      destruct (recur h (Children cell)) as [[[h1 children] swapped]|] eqn:Er;
        [|discriminate].
      destruct (Hrec _ _ _ _ _ Er) as [Hperm Hre].
      pose proof (reordered_alter _ _ _ _ _ Hre Ha Hperm) as Hre'.
      destruct swapped.
      * injection Hrun as <- <- <-. split; [reflexivity|exact Hre'].
      * apply IH in Hrun as [Hp Hr]. split.
        -- rewrite Hp, <- app_assoc. reflexivity.
        -- eapply reordered_trans; eassumption.
Qed.

Lemma swapInList_reorders (item1 item2 : ptr) (fuel : nat) :
  forall h items h' items' sw,
    swapInList fuel item1 item2 h items = Some (h', items', sw) ->
    items' ≡ₚ items /\ reordered h h'.
Proof.
  induction fuel as [|fuel IH]; intros h items h' items' sw Hrun; [discriminate|].
  cbn [swapInList] in Hrun.
  apply (swapLoop_reorders _ item1 item2 IH) in Hrun. exact Hrun.
Qed.

(** X18: [swapItems] reorders and does nothing else.  Whatever the two
    items and the tree, when the call returns the roots are a
    permutation of the roots before, every item of the store is
    itself up to the order of its children, and the other fields of
    the model are untouched. *)
Theorem swapItems_only_reorders (fuel : nat) (m m' : model) (item1 item2 : ptr) :
  swapItems fuel m item1 item2 = Some m' ->
  Items (m_orgFile m') ≡ₚ Items (m_orgFile m) /\
  reordered (heap m) (heap m') /\
  set_tree (heap m) (Items (m_orgFile m)) m' = m.
Proof.
  unfold swapItems. intros Hrun.
  destruct (swapInList fuel item1 item2 (heap m) (Items (m_orgFile m)))
    as [[[h roots] sw]|] eqn:E; [|discriminate].
  injection Hrun as <-. apply swapInList_reorders in E as [Hp Hr].
  split; [exact Hp|]. split; [exact Hr|].
  destruct m as [hp [path roots0] c md st ed del re]. reflexivity.
Qed.

End Reordering.

(** ** The notes shown in the list view *)

Lemma filterLoop_app (b : bool) (filtered notes : list gostring) :
  filterLoop b filtered notes = filtered ++ filterLoop b [] notes.
Proof.
  revert b filtered. induction notes as [|note notes IH]; intros b filtered.
  - cbn. rewrite app_nil_r. reflexivity.
  - cbn [filterLoop]. cbv zeta.
    repeat match goal with |- context [if ?c then _ else _] => destruct c end;
      try apply IH.
    rewrite IH, (IH _ ([] ++ [note])), app_assoc. reflexivity.
Qed.

Lemma filterLoop_sublist (b : bool) (notes : list gostring) :
  sublist (filterLoop b [] notes) notes.
Proof.
  revert b. induction notes as [|note notes IH]; intros b; [constructor|].
  cbn [filterLoop]. cbv zeta.
  repeat match goal with |- context [if ?c then _ else _] => destruct c end;
    try (apply sublist_cons, IH).
  rewrite filterLoop_app. cbn [app]. apply sublist_skip, IH.
Qed.

Lemma filterLoop_shown (b : bool) (notes : list gostring) :
  Forall (fun note => hidden_note note = false) (filterLoop b [] notes).
Proof.
  revert b. induction notes as [|note notes IH]; intros b; [constructor|].
  cbn [filterLoop]. cbv zeta.
  destruct (bytes_eqb (TrimSpace note) (str ":LOGBOOK:")) eqn:E1; [apply IH|].
  destruct (bytes_eqb (TrimSpace note) (str ":END:") && b); [apply IH|].
  destruct b; [apply IH|].
  destruct (HasPrefix (TrimSpace note) (str "SCHEDULED:")
            || HasPrefix (TrimSpace note) (str "DEADLINE:")) eqn:E2; [apply IH|].
  rewrite filterLoop_app. cbn [app]. constructor; [|apply IH].
  unfold hidden_note. rewrite E1. cbn [orb]. exact E2.
Qed.

Lemma filterLoop_id (notes : list gostring) :
  Forall (fun note => hidden_note note = false) notes ->
  filterLoop false [] notes = notes.
Proof.
  induction 1 as [|note notes Hn _ IH]; [reflexivity|].
  unfold hidden_note in Hn. apply orb_false_elim in Hn as [Hn H3].
  apply orb_false_elim in Hn as [H1 H2].
  cbn [filterLoop]. cbv zeta. rewrite H1, H2, H3, andb_false_r. cbn [orb].
  rewrite filterLoop_app, IH. reflexivity.
Qed.

(** X19: the notes [filterLogbookDrawer] returns are notes of the
    item in their order; none of them is a :LOGBOOK: line or starts
    with SCHEDULED: or DEADLINE: (white space around the line apart);
    filtering them once more changes nothing. *)
Theorem filterLogbookDrawer_filters (notes : list gostring) :
  sublist (filterLogbookDrawer notes) notes /\
  Forall (fun note => hidden_note note = false) (filterLogbookDrawer notes) /\
  filterLogbookDrawer (filterLogbookDrawer notes) = filterLogbookDrawer notes.
Proof.
  unfold filterLogbookDrawer. split; [apply filterLoop_sublist|].
  split; [apply filterLoop_shown|]. apply filterLoop_id, filterLoop_shown.
Qed.

(** ** Drawer lines of the parser and of the list view *)

Lemma trimRight_spaces (r : gostring) : forallb re_space r = true -> trimRight r = [].
Proof.
  intros Hr. destruct r as [|c t]; [reflexivity|]. cbn [trimRight].
  rewrite <- (app_nil_r (c :: t)), (trimLeft_spaces (c :: t) [] Hr). reflexivity.
Qed.

Lemma trimRight_text (key r : gostring) :
  forallb starts_text key = true -> trimRight (key ++ r) = key ++ trimRight r.
Proof.
  induction key as [|c key IH]; intros Hk; [reflexivity|].
  cbn in Hk. apply andb_prop in Hk as [Hc Hk]. cbn [app trimRight].
  rewrite (trimLeft_text c _ Hc). cbn [is_nil]. rewrite IH by exact Hk. reflexivity.
Qed.

Lemma whole_line_key_trimmed (c : ascii) (key line : gostring) :
  forallb starts_text (c :: key) = true ->
  whole_line_key (c :: key) line = true -> TrimSpace line = c :: key.
Proof.
  intros Hk H. destruct (whole_line_key_split _ _ H) as (ws & r & -> & Hws & Hr).
  unfold TrimSpace. rewrite (trimLeft_spaces ws _ Hws). cbn [app].
  pose proof Hk as Hk'. cbn in Hk'. apply andb_prop in Hk' as [Hc _].
  rewrite (trimLeft_text c _ Hc).
  change (c :: key ++ r) with ((c :: key) ++ r).
  rewrite trimRight_text by exact Hk. rewrite trimRight_spaces by exact Hr.
  apply app_nil_r.
Qed.

(** X20: a line the parser takes for the start of a drawer is
    :LOGBOOK: once it is trimmed, and a line it can take for the end
    of a drawer is :END: once it is trimmed, which is how the list view
    recognizes these lines. *)
Theorem drawer_lines_agree (line : gostring) :
  (drawerStart line = true -> TrimSpace line = str ":LOGBOOK:") /\
  (drawerEnd line = true -> TrimSpace line = str ":END:").
Proof.
  split; intros H.
  - apply (whole_line_key_trimmed ":" (str "LOGBOOK:") line eq_refl H).
  - apply (whole_line_key_trimmed ":" (str "END:") line eq_refl H).
Qed.

Section Durations.
Context {TL : TimeLib} {DL : DurationLib}.

(** ** Clocked time *)

Lemma totalLoop_closed (now now' : nat -> Time) (entries : list ClockEntry) :
  Forall (fun x => End x <> None) entries ->
  forall i j total, totalLoop now i total entries = totalLoop now' j total entries.
Proof.
  induction 1 as [|e entries He _ IH]; intros i j total; [reflexivity|].
  cbn [totalLoop]. destruct (End e); [apply IH|contradiction].
Qed.

Lemma currentLoop_closed (now : Time) (entries : list ClockEntry) :
  Forall (fun x => End x <> None) entries -> currentLoop now entries = 0%Z.
Proof.
  induction 1 as [|e entries He _ IH]; [reflexivity|].
  cbn [currentLoop]. destruct (End e); [exact IH|contradiction].
Qed.

Lemma totalLoop_app (now : nat -> Time) (a b : list ClockEntry) :
  forall i total,
    totalLoop now i total (a ++ b)
    = totalLoop now (i + length a) (totalLoop now i total a) b.
Proof.
  induction a as [|e a IH]; intros i total.
  - cbn. rewrite Nat.add_0_r. reflexivity.
  - cbn [app totalLoop length]. rewrite IH. f_equal. lia.
Qed.

Lemma open_entries_closed (entries : list ClockEntry) :
  open_entries entries = 0 -> Forall (fun x => End x <> None) entries.
Proof.
  unfold open_entries. induction entries as [|e entries IH]; intros H; [constructor|].
  cbn [List.filter] in H. unfold isOpen in H at 1. destruct (End e) eqn:E.
  - constructor; [congruence|apply IH, H].
  - discriminate.
Qed.

(** X21: for an item with at most one open clock entry: after
    [ClockOut] at the time [now], [GetCurrentClockDuration] is 0
    whenever it is asked, and [GetTotalClockDuration], whenever it is
    asked, is what it was at the time [now] before the call. *)
Theorem clocked_time_after_ClockOut (now : Time) (later : nat -> Time)
    (later' : Time) (item : Item) :
  open_entries (ClockEntries item) <= 1 ->
  GetCurrentClockDuration later' (fst (ClockOut now item)) = 0%Z /\
  GetTotalClockDuration later (fst (ClockOut now item))
  = GetTotalClockDuration (fun _ => now) item.
Proof.
  intros Hone. destruct (IsClockedIn item) eqn:Ein.
  - destruct (ClockOut_clocked now item Ein) as (before & e & after & Hsplit & He & Hafter & ->).
    assert (Hbefore : Forall (fun x => End x <> None) before).
    { apply open_entries_closed. rewrite Hsplit, open_entries_app in Hone.
      assert (Hopen : open_entries (e :: after) = S (open_entries after)).
      { unfold open_entries. cbn [List.filter]. unfold isOpen at 1. rewrite He.
        reflexivity. }
      rewrite Hopen in Hone. lia. }
    unfold GetCurrentClockDuration, GetTotalClockDuration.
    cbn [fst ClockEntries set_ClockEntries].
    split.
    + apply currentLoop_closed. apply Forall_app. split; [exact Hbefore|].
      constructor; [discriminate|exact Hafter].
    + rewrite Hsplit, !totalLoop_app.
      cbn [totalLoop End Start]. rewrite He. unfold time_Since.
      rewrite (totalLoop_closed later (fun _ => now) before Hbefore 0 0).
      apply totalLoop_closed, Hafter.
  - rewrite (ClockOut_idle now item Ein). cbn [fst].
    assert (Hall : Forall (fun x => End x <> None) (ClockEntries item)).
    { apply open_entries_closed. unfold IsClockedIn in Ein.
      rewrite existsb_isOpen in Ein. apply negb_false_iff, Nat.eqb_eq in Ein. exact Ein. }
    split; [apply currentLoop_closed, Hall|]. apply totalLoop_closed, Hall.
Qed.

End Durations.

(** The fields of a model after the setters. *)
Ltac model_simpl :=
  cbn [heap m_orgFile Items Path cursor mode statusMsg editingItem itemToDelete
       reorderMode set_cursor set_mode setStatus set_tree set_heap set_editingItem
       set_itemToDelete].

Section Dialogs.
Context {TL : TimeLib} {IL : InputLib}.


(** ** Trimmed text *)

Lemma trimLeft_head (n : nat) :
  forall s c r, length s <= n -> trimLeft s = c :: r -> ascii_space c = false.
Proof.
  induction n as [|n IH]; intros s c r Hlen H.
  - destruct s; [discriminate|cbn in Hlen; lia].
  - destruct s as [|c1 t1]; [discriminate|]. cbn [trimLeft] in H. cbn in Hlen.
    destruct (ascii_space c1) eqn:E1; [apply (IH t1 c r); [lia|exact H]|].
    destruct t1 as [|c2 t2]; [injection H as <- <-; exact E1|].
    destruct (space2 c1 c2); [apply (IH t2 c r); [cbn in Hlen; lia|exact H]|].
    destruct t2 as [|c3 t3]; [injection H as <- <-; exact E1|].
    destruct (space3 c1 c2 c3); [apply (IH t3 c r); [cbn in Hlen; lia|exact H]|].
    injection H as <- <-. exact E1.
Qed.

Lemma trimLeft_suffix (s : gostring) : exists pre, s = pre ++ trimLeft s.
Proof.
  destruct (trimLeft_split (length s) s (le_n _)) as (pre & H & _). exists pre. exact H.
Qed.

Lemma trimRight_prefix (s : gostring) : exists post, s = trimRight s ++ post.
Proof.
  induction s as [|c t [post IH]]; [exists []; reflexivity|].
  cbn [trimRight]. destruct (is_nil (trimLeft (c :: t))).
  - exists (c :: t). reflexivity.
  - exists post. cbn [app]. rewrite <- IH. reflexivity.
Qed.

Lemma trimRight_head (s : gostring) (c : ascii) (r : gostring) :
  trimRight s = c :: r -> exists t, s = c :: t.
Proof.
  destruct s as [|c1 t1]; [discriminate|]. cbn [trimRight].
  destruct (is_nil (trimLeft (c1 :: t1))); [discriminate|].
  intros [= <- _]. exists t1. reflexivity.
Qed.

Lemma TrimSpace_head (s : gostring) (c : ascii) (r : gostring) :
  TrimSpace s = c :: r -> re_space c = false.
Proof.
  unfold TrimSpace. intros H. destruct (trimRight_head _ _ _ H) as [t Ht].
  pose proof (trimLeft_head (length s) s c t (le_n _) Ht) as Hc.
  destruct (re_space c) eqn:E; [|reflexivity].
  apply re_space_ascii_space in E. congruence.
Qed.

Lemma TrimSpace_no_LF (s : gostring) :
  forallb (not_char LF) s = true -> forallb (not_char LF) (TrimSpace s) = true.
Proof.
  intros H. unfold TrimSpace. destruct (trimLeft_suffix s) as [pre Hpre].
  destruct (trimRight_prefix (trimLeft s)) as [post Hpost].
  rewrite Hpre, Hpost, !forallb_app in H.
  apply andb_prop in H as [_ H]. apply andb_prop in H as [H _]. exact H.
Qed.

(** ** Capture *)

Lemma represents_grow (h : list Item) (extra : list Item) (t : tree) :
  represents h t -> represents (h ++ extra) t.
Proof.
  intros Hrep. apply (represents_frame h); [exact Hrep|].
  intros q Hq. apply lookup_app_l. eapply represents_valid; eassumption.
Qed.

Lemma visible_in_ptrs (h : list Item) (t : tree) (q : ptr) :
  q ∈ visible h t -> q ∈ ptrs t.
Proof.
  induction t as [p kids IH] using tree_induction. cbn [visible]. rewrite ptrs_Node.
  intros Hq. apply elem_of_cons in Hq as [->|Hq]; [left|]. right.
  destruct (h !! p) as [it|]; [|apply elem_of_nil in Hq; contradiction].
  destruct (Folded it); [apply elem_of_nil in Hq; contradiction|].
  unfold forest_ptrs. induction kids as [|k kids IHk]; [exact Hq|].
  apply Forall_cons in IH as [IH1 IH2]. cbn [map concat] in Hq |- *.
  apply elem_of_app in Hq as [Hq|Hq]; apply elem_of_app; [left; apply IH1, Hq|].
  right. apply IHk; assumption.
Qed.

Lemma visible_in_forest (h : list Item) (ts : list tree) (q : ptr) :
  q ∈ concat (map (visible h) ts) -> q ∈ forest_ptrs ts.
Proof.
  unfold forest_ptrs. induction ts as [|t ts IH]; [intros H; exact H|].
  cbn [map concat]. intros Hq.
  apply elem_of_app in Hq as [Hq|Hq]; apply elem_of_app;
    [left; eapply visible_in_ptrs, Hq|right; apply IH, Hq].
Qed.

(** X22: Enter in the capture dialog on a title that is not blank.
    A TODO item of level 1 with the trimmed title is allocated and put
    in front of the roots, the trees of the file are otherwise as they
    were, the list view is back with the cursor at 0, and the item
    under the cursor is the new one.  The new item is well formed, and
    when the input has no newline its heading line is read back by
    the heading pattern as level 1, TODO and the trimmed title. *)
Theorem updateCapture_puts_item_first (soon : Time -> bool) (fuel : nat)
    (value name : gostring) (m : model) (ts : list tree) :
  TrimSpace value <> [] ->
  Items (m_orgFile m) = map root_of ts ->
  Forall (represents (heap m)) ts ->
  Forall (fun t => height t <= fuel) ts ->
  let new := length (heap m) in
  let item := mkItem 1 StateTODO (TrimSpace value) None None [] [] false [] in
  let m' := updateCapture value (KeyMsg KeyEnter name) m in
  heap m' = heap m ++ [item] /\
  Items (m_orgFile m') = map root_of (Node new [] :: ts) /\
  Forall (represents (heap m')) (Node new [] :: ts) /\
  well_formed item /\
  mode m' = modeList /\ cursor m' = 0 /\
  (exists rest, getVisibleItems soon (S (S fuel)) m' = Some (new :: rest)) /\
  (forallb (not_char LF) value = true ->
   exists line, headingText item = line ++ [LF] /\
                headingPattern line = Some (str "*", StateTODO, TrimSpace value)).
Proof.
  intros Hne Hroots Hrep Hht new item m'.
  assert (Hm' : m' = set_cursor 0 (set_mode modeList
                       (setStatus (str "TODO captured!")
                          (set_tree (heap m ++ [item]) (new :: Items (m_orgFile m)) m)))).
  { unfold m', updateCapture. destruct (TrimSpace value); [contradiction|reflexivity]. }
  assert (Hrep' : Forall (represents (heap m ++ [item])) (Node new [] :: ts)).
  { constructor.
    - apply (represents_node _ new [] item); [|reflexivity|constructor].
      unfold new. rewrite list_lookup_middle by reflexivity. reflexivity.
    - eapply Forall_impl; [exact Hrep|]. intros t. apply represents_grow. }
  rewrite Hm'. model_simpl.
  split; [reflexivity|]. split; [cbn; rewrite Hroots; reflexivity|].
  split; [exact Hrep'|]. split.
  { split; [cbn; lia|]. split; [exact Hne|]. right. left. }
  split; [reflexivity|]. split; [reflexivity|]. split.
  - unfold getVisibleItems, GetAllItems. model_simpl.
    pose proof (flatten_visible (heap m ++ [item]) (S fuel) (Node new [] :: ts) []
                  Hrep') as Hflat.
    cbn [map root_of] in Hflat. rewrite <- Hroots in Hflat. rewrite Hflat.
    + cbn [map concat visible app]. eexists. reflexivity.
    + constructor; [cbn; lia|]. eapply Forall_impl; [exact Hht|]. cbn. intros; lia.
  - intros Hlf. apply (heading_reparsed item).
    + cbn. lia.
    + right. left.
    + unfold plain_title. cbn [State Title item is_nil negb orb]. rewrite andb_true_r.
      rewrite (TrimSpace_no_LF _ Hlf), andb_true_r.
      destruct (TrimSpace value) as [|c r] eqn:E; [contradiction|].
      rewrite (TrimSpace_head _ _ _ E). reflexivity.
Qed.

(** ** Sub-tasks *)

Lemma root_of_add_child (p new : ptr) (t : tree) : root_of (add_child p new t) = root_of t.
Proof. destruct t. reflexivity. Qed.

Lemma represents_add_child (h : list Item) (p : ptr) (leaf : Item) (t : tree) :
  Children leaf = [] -> p < length h ->
  represents h t ->
  represents (alter (addChild (length h)) p (h ++ [leaf])) (add_child p (length h) t).
Proof.
  intros Hleaf Hp.
  assert (Hnew : represents (alter (addChild (length h)) p (h ++ [leaf]))
                            (Node (length h) [])).
  { apply (represents_node _ _ [] leaf); [|exact Hleaf|constructor].
    rewrite list_lookup_alter_ne by lia.
    rewrite list_lookup_middle by reflexivity. reflexivity. }
  induction t as [q kids IH] using tree_induction. intros Hrep.
  inversion Hrep as [q' kids' it Hq Hc Hkids]; subst.
  assert (Hq' : (h ++ [leaf]) !! q = Some it).
  { rewrite lookup_app_l by (eapply lookup_lt_Some, Hq). exact Hq. }
  assert (Hkids' : Forall (represents (alter (addChild (length h)) p (h ++ [leaf])))
                          (map (add_child p (length h)) kids)).
  { clear Hrep Hc. induction kids as [|k kids IHk]; [constructor|].
    apply Forall_cons in IH as [IH1 IH2]. apply Forall_cons in Hkids as [Hk1 Hk2].
    cbn [map]. constructor; [apply IH1, Hk1|apply IHk; assumption]. }
  assert (Hroots : map root_of (map (add_child p (length h)) kids) = map root_of kids).
  { rewrite map_map. apply map_ext. intros k. apply root_of_add_child. }
  cbn [add_child]. destruct (q =? p)%nat eqn:E.
  - apply Nat.eqb_eq in E. subst q.
    apply (represents_node _ _ _ (addChild (length h) it)).
    + rewrite list_lookup_alter_eq, Hq'. reflexivity.
    + cbn [addChild Children]. rewrite map_app, Hroots, Hc. reflexivity.
    + apply Forall_app. split; [exact Hkids'|]. constructor; [exact Hnew|constructor].
  - apply Nat.eqb_neq in E. apply (represents_node _ _ _ it).
    + rewrite list_lookup_alter_ne by congruence. exact Hq'.
    + rewrite app_nil_r, Hroots. exact Hc.
    + rewrite app_nil_r. exact Hkids'.
Qed.

Lemma levels_ok_addChild (h : list Item) (p : ptr) (parent leaf : Item) :
  h !! p = Some parent -> Children leaf = [] -> Level parent < Level leaf ->
  levels_ok h -> levels_ok (alter (addChild (length h)) p (h ++ [leaf])).
Proof.
  intros Hp Hleaf Hlevel Hok q cell c Hq Hc.
  assert (Hplt : p < length h) by (eapply lookup_lt_Some, Hp).
  assert (Hold : forall x it, h !! x = Some it ->
            exists it', alter (addChild (length h)) p (h ++ [leaf]) !! x = Some it' /\
                        Level it' = Level it).
  { intros x it Hx. assert (Hx' : (h ++ [leaf]) !! x = Some it).
    { rewrite lookup_app_l by (eapply lookup_lt_Some, Hx). exact Hx. }
    destruct (decide (p = x)) as [->|Hne].
    - rewrite list_lookup_alter_eq, Hx'. eexists. split; reflexivity.
    - rewrite list_lookup_alter_ne by exact Hne. eauto. }
  assert (Hleaf' : alter (addChild (length h)) p (h ++ [leaf]) !! length h = Some leaf).
  { rewrite list_lookup_alter_ne by lia. rewrite list_lookup_middle by reflexivity.
    reflexivity. }
  destruct (decide (q < length h)) as [Hlt|Hge].
  - destruct (lookup_lt_is_Some_2 h q Hlt) as [it Hit].
    assert (Hit' : (h ++ [leaf]) !! q = Some it) by (rewrite lookup_app_l; assumption).
    destruct (decide (p = q)) as [->|Hne].
    + rewrite list_lookup_alter_eq, Hit' in Hq. injection Hq as <-.
      cbn [addChild Children Level] in Hc |- *. rewrite Hp in Hit. injection Hit as <-.
      apply elem_of_app in Hc as [Hc|Hc].
      * destruct (Hok q parent c Hp Hc) as (child & Hchild & Hl).
        destruct (Hold c child Hchild) as (child' & Hc' & Hl'). exists child'.
        split; [exact Hc'|lia].
      * apply list_elem_of_singleton in Hc. subst c. exists leaf. auto.
    + rewrite list_lookup_alter_ne, Hit' in Hq by exact Hne. injection Hq as <-.
      destruct (Hok q it c Hit Hc) as (child & Hchild & Hl).
      destruct (Hold c child Hchild) as (child' & Hc' & Hl'). exists child'.
      split; [exact Hc'|lia].
  - assert (q = length h) as ->.
    { apply lookup_lt_Some in Hq. rewrite length_alter, length_app in Hq. cbn in Hq. lia. }
    rewrite Hleaf' in Hq. injection Hq as <-. rewrite Hleaf in Hc.
    apply elem_of_nil in Hc. contradiction.
Qed.

(** X23: Enter in the sub-task dialog on a title that is not blank.
    A TODO item one level below the item the dialog was opened for is
    allocated and appended to the children of that item, which is
    unfolded; the trees of the file are the trees before with that new
    leaf.  Children stay of a greater level than their parents and
    well-formed items stay so; the list view is back, the dialog's
    item is forgotten and the cursor stays where it was. *)
Theorem updateAddSubTask_adds_last_child (value name : gostring) (m : model)
    (ts : list tree) (p : ptr) (parent : Item) :
  editingItem m = Some p ->
  heap m !! p = Some parent ->
  TrimSpace value <> [] ->
  Items (m_orgFile m) = map root_of ts ->
  Forall (represents (heap m)) ts ->
  let new := length (heap m) in
  let item := mkItem (Level parent + 1) StateTODO (TrimSpace value) None None
                     [] [] false [] in
  exists m',
    updateAddSubTask value (KeyMsg KeyEnter name) m = Some m' /\
    heap m' = alter (addChild new) p (heap m ++ [item]) /\
    Items (m_orgFile m') = map root_of (map (add_child p new) ts) /\
    Forall (represents (heap m')) (map (add_child p new) ts) /\
    (levels_ok (heap m) -> levels_ok (heap m')) /\
    (Forall well_formed (heap m) -> Forall well_formed (heap m')) /\
    mode m' = modeList /\ editingItem m' = None /\ cursor m' = cursor m.
Proof.
  intros Hed Hp Hne Hroots Hrep new item.
  assert (Hplt : p < length (heap m)) by (eapply lookup_lt_Some, Hp).
  exists (set_editingItem None
            (set_mode modeList
               (setStatus (str "Sub-task added!")
                  (set_heap (alter (addChild new) p (heap m ++ [item])) m)))).
  split.
  { unfold updateAddSubTask. rewrite Hed, Hp. subst item.
    destruct (TrimSpace value); [contradiction|]. reflexivity. }
  model_simpl. split; [reflexivity|]. split.
  { rewrite Hroots, map_map. apply map_ext. intros t. symmetry. apply root_of_add_child. }
  split.
  { rewrite List.Forall_forall in Hrep. apply List.Forall_forall. intros t Ht.
    apply in_map_iff in Ht as (t0 & <- & Ht0).
    apply represents_add_child; [reflexivity|exact Hplt|apply Hrep, Ht0]. }
  split.
  { intros Hok. apply (levels_ok_addChild _ _ parent); [exact Hp|reflexivity| |exact Hok].
    cbn. lia. }
  split; [|auto].
  intros Hwf. apply Forall_alter.
  - apply Forall_app. split; [exact Hwf|]. constructor; [|constructor].
    split; [cbn; lia|]. split; [exact Hne|]. right. left.
  - intros x _ Hx. exact Hx.
Qed.

(** ** Deleting the item of the dialog *)

Lemma height_prune (target : ptr) (t : tree) :
  forall t', prune target t = Some t' -> height t' <= height t.
Proof.
  induction t as [p kids IH] using tree_induction. intros t'. cbn [prune].
  destruct (p =? target)%nat; [discriminate|]. intros [= <-]. cbn [height].
  apply le_n_S. induction kids as [|k kids IHk]; [constructor|].
  apply Forall_cons in IH as [IH1 IH2]. specialize (IHk IH2).
  cbn [keep_some map fold_right].
  destruct (prune target k) as [k'|] eqn:E; cbn [map fold_right].
  - specialize (IH1 k' eq_refl). lia.
  - lia.
Qed.

Lemma heights_prune_all (target : ptr) (ts : list tree) (fuel : nat) :
  Forall (fun t => height t <= fuel) ts ->
  Forall (fun t => height t <= fuel) (prune_all target ts).
Proof.
  unfold prune_all. induction 1 as [|t ts Ht _ IH]; [constructor|].
  cbn [keep_some]. destruct (prune target t) as [t'|] eqn:E; [|exact IH].
  constructor; [|exact IH]. pose proof (height_prune target t t' E). lia.
Qed.

(** X24: y or Y in the delete dialog.  The item of the dialog is
    removed with everything below it, the trees of the file being the
    trees before without that subtree; the list view is back with the
    status "Item deleted", the item is not among the visible items,
    and the cursor is on a visible item unless none is left. *)
Theorem updateConfirmDelete_removes_the_item (soon : Time -> bool) (fuel : nat)
    (type : KeyType) (name : gostring) (m : model) (ts : list tree) (target : ptr) :
  name = str "y" \/ name = str "Y" ->
  itemToDelete m = Some target ->
  Items (m_orgFile m) = map root_of ts ->
  Forall (represents (heap m)) ts ->
  NoDup (forest_ptrs ts) ->
  Forall (fun t => height t <= fuel) ts ->
  exists m' items,
    updateConfirmDelete soon (S fuel) (KeyMsg type name) m = Some m' /\
    Items (m_orgFile m') = map root_of (prune_all target ts) /\
    Forall (represents (heap m')) (prune_all target ts) /\
    mode m' = modeList /\ itemToDelete m' = None /\
    statusMsg m' = str "Item deleted" /\
    getVisibleItems soon (S fuel) m' = Some items /\
    (target ∉ items) /\
    (items = [] \/ cursor m' < length items).
Proof.
  intros Hname Hdel Hroots Hrep Hnd Hht.
  destruct (removeFromList_spec target fuel ts (heap m) Hrep Hnd Hht)
    as (h' & Hrun & Hrep' & _).
  cbn [app] in Hrun.
  set (m1 := setStatus (str "Item deleted")
               (set_itemToDelete None
                  (set_mode modeList
                     (set_tree h' (map root_of (prune_all target ts)) m)))).
  set (items := concat (map (visible h') (prune_all target ts))).
  assert (Hvis : getVisibleItems soon (S fuel) m1 = Some items).
  { unfold getVisibleItems, GetAllItems, m1. model_simpl.
    apply (flatten_visible h' fuel _ [] Hrep'). apply heights_prune_all, Hht. }
  assert (Hrun' : updateConfirmDelete soon (S fuel) (KeyMsg type name) m
                  = Some (if (length items <=? cursor m1)%nat && (0 <? length items)%nat
                          then set_cursor (length items - 1) m1 else m1)).
  { unfold updateConfirmDelete.
    replace (bytes_eqb name (str "y") || bytes_eqb name (str "Y")) with true
      by (destruct Hname as [-> | ->]; reflexivity).
    rewrite Hdel. unfold deleteItem. rewrite Hroots, Hrun. fold m1. rewrite Hvis.
    destruct (_ && _); reflexivity. }
  eexists _, items. split; [exact Hrun'|].
  assert (Hgone : target ∉ items).
  { intros Hin. apply visible_in_forest, prune_all_ptrs in Hin as [_ Hin]. congruence. }
  destruct ((length items <=? cursor m1)%nat && (0 <? length items)%nat) eqn:E;
    (split; [reflexivity|]); (split; [exact Hrep'|]); (split; [reflexivity|]);
    (split; [reflexivity|]); (split; [reflexivity|]); (split; [exact Hvis|]);
    (split; [exact Hgone|]).
  - apply andb_prop in E as [_ E]. apply Nat.ltb_lt in E. right. cbn [cursor set_cursor].
    lia.
  - destruct items as [|x items']; [left; reflexivity|right].
    apply andb_false_iff in E as [E|E].
    + apply Nat.leb_gt in E. exact E.
    + apply Nat.ltb_ge in E. cbn in E. lia.
Qed.

End Dialogs.

Section Deadlines.
Context {TL : TimeLib} {IL : InputLib}.

(** ** The deadline dialog *)

Lemma updateDeadlineNote_found (line : gostring) (notes : list gostring) :
  existsb deadlineNote notes = true ->
  exists pre old post,
    notes = pre ++ old :: post /\
    Forall (fun note => deadlineNote note = false) pre /\
    deadlineNote old = true /\
    updateDeadlineNote line notes = (pre ++ line :: post, true).
Proof.
  induction notes as [|note notes IH]; [discriminate|]. cbn [existsb updateDeadlineNote].
  destruct (deadlineNote note) eqn:E.
  - intros _. exists [], note, notes. repeat split; [constructor|exact E].
  - cbn [orb]. intros H. destruct (IH H) as (pre & old & post & -> & Hpre & Hold & ->).
    exists (note :: pre), old, post. repeat split; [constructor; assumption|exact Hold].
Qed.

Lemma updateDeadlineNote_none (line : gostring) (notes : list gostring) :
  existsb deadlineNote notes = false ->
  updateDeadlineNote line notes = (notes, false) /\ withoutDeadline notes = notes.
Proof.
  unfold withoutDeadline.
  induction notes as [|note notes IH]; [split; reflexivity|].
  cbn [existsb updateDeadlineNote List.filter]. intros H.
  apply orb_false_elim in H as [-> H]. destruct (IH H) as [-> ->]. split; reflexivity.
Qed.

Lemma Contains_app_r (a b key : gostring) :
  Contains b key = true -> Contains (a ++ b) key = true.
Proof.
  unfold Contains. intros H. induction a as [|c a IH]; [exact H|].
  cbn [app find_first]. destruct (strip_prefix key (c :: a ++ b)); [reflexivity|exact IH].
Qed.

Lemma mentions_middle (marker line : gostring) (pre post : list gostring) :
  Contains line marker = true -> mentions marker (pre ++ line :: post) = true.
Proof.
  intros H. unfold mentions. rewrite existsb_app. cbn [existsb]. rewrite H.
  apply orb_true_r.
Qed.

Lemma setDeadline_spec (deadline : Time) (it : Item) :
  let it' := setDeadline deadline it in
  Deadline it' = Some deadline /\
  set_Notes (Notes it) (set_Deadline (Deadline it) it') = it /\
  (existsb deadlineNote (Notes it) = true ->
   deadlineText it' = [] /\
   exists pre old post,
     Notes it = pre ++ old :: post /\
     Forall (fun note => deadlineNote note = false) pre /\
     deadlineNote old = true /\
     Notes it' = pre ++ deadlineLine deadline :: post) /\
  (existsb deadlineNote (Notes it) = false ->
   Notes it' = Notes it /\
   deadlineText it' = if mentions (str "DEADLINE:") (Notes it) then []
                      else deadlineLine deadline ++ [LF]).
Proof.
  intros it'. unfold it', setDeadline. cbn [Notes set_Deadline].
  fold (deadlineLine deadline).
  destruct (existsb deadlineNote (Notes it)) eqn:E.
  - destruct (updateDeadlineNote_found (deadlineLine deadline) _ E)
      as (pre & old & post & Hsplit & Hpre & Hold & ->).
    split; [reflexivity|]. split; [destruct it; reflexivity|].
    split; [|discriminate]. intros _. split.
    + unfold deadlineText. cbn [Deadline Notes set_Notes set_Deadline].
      rewrite mentions_middle; [reflexivity|].
      unfold deadlineLine. apply (Contains_app_r [] _ (str "DEADLINE:")).
      reflexivity.
    + exists pre, old, post. auto.
  - destruct (updateDeadlineNote_none (deadlineLine deadline) _ E) as [-> Hid].
    rewrite Hid. split; [reflexivity|]. split; [destruct it; reflexivity|].
    split; [discriminate|]. intros _. split; [reflexivity|].
    unfold deadlineText, deadlineLine. cbn [Deadline Notes set_Notes set_Deadline].
    destruct (mentions _ _); [reflexivity|]. rewrite <- !app_assoc. reflexivity.
Qed.

(** X25: Enter in the deadline dialog on an input that parses to a
    date.  The deadline of the dialog's item is that date and nothing
    but the deadline and the notes of the item changes.  When a note
    starts with DEADLINE: (white space apart), the first such note is
    replaced by the DEADLINE line of the date and the other notes
    stay, so that [writeItem] makes up no DEADLINE line.  When no note
    starts with DEADLINE:, the notes stay as they are, and [writeItem]
    makes up the DEADLINE line of the date unless some note mentions
    DEADLINE: elsewhere in its text, in which case the new deadline is
    not written. *)
Theorem updateSetDeadline_sets (now : Time) (value name : gostring) (m : model)
    (p : ptr) (it : Item) (deadline : Time) :
  TrimSpace value <> [] ->
  parseDeadlineInput now (TrimSpace value) = inl deadline ->
  editingItem m = Some p ->
  heap m !! p = Some it ->
  let m' := updateSetDeadline now value (KeyMsg KeyEnter name) m in
  statusMsg m' = str "Deadline set!" /\ mode m' = modeList /\
  editingItem m' = None /\
  exists it',
    heap m' !! p = Some it' /\
    Deadline it' = Some deadline /\
    set_Notes (Notes it) (set_Deadline (Deadline it) it') = it /\
    (existsb deadlineNote (Notes it) = true ->
     deadlineText it' = [] /\
     exists pre old post,
       Notes it = pre ++ old :: post /\
       Forall (fun note => deadlineNote note = false) pre /\
       deadlineNote old = true /\
       Notes it' = pre ++ deadlineLine deadline :: post) /\
    (existsb deadlineNote (Notes it) = false ->
     Notes it' = Notes it /\
     deadlineText it' = if mentions (str "DEADLINE:") (Notes it) then []
                        else deadlineLine deadline ++ [LF]).
Proof.
  intros Hne Hparse Hed Hp m'. unfold m', updateSetDeadline. rewrite Hed, Hparse.
  destruct (TrimSpace value); [contradiction|]. cbn [is_nil]. model_simpl.
  split; [reflexivity|]. split; [reflexivity|]. split; [reflexivity|].
  exists (setDeadline deadline it).
  split; [rewrite list_lookup_alter_eq, Hp; reflexivity|]. apply setDeadline_spec.
Qed.

Lemma withoutDeadline_sublist (notes : list gostring) :
  sublist (withoutDeadline notes) notes.
Proof.
  unfold withoutDeadline. induction notes as [|note notes IH]; [constructor|].
  cbn [List.filter]. destruct (negb (deadlineNote note));
    [apply sublist_skip|apply sublist_cons]; exact IH.
Qed.

Lemma withoutDeadline_clean (notes : list gostring) :
  Forall (fun note => deadlineNote note = false) (withoutDeadline notes).
Proof.
  unfold withoutDeadline. apply List.Forall_forall. intros note Hin.
  apply filter_In in Hin as [_ H]. apply negb_true_iff in H. exact H.
Qed.

(** X26: Enter in the deadline dialog on a blank input.  The item of
    the dialog has no deadline, its notes are the notes before
    without those that start with DEADLINE: (white space apart),
    nothing else of the item changes and [writeItem] makes up no
    DEADLINE line. *)
Theorem updateSetDeadline_clears (now : Time) (value name : gostring) (m : model)
    (p : ptr) (it : Item) :
  TrimSpace value = [] ->
  editingItem m = Some p ->
  heap m !! p = Some it ->
  let m' := updateSetDeadline now value (KeyMsg KeyEnter name) m in
  statusMsg m' = str "Deadline cleared!" /\ mode m' = modeList /\
  editingItem m' = None /\
  exists it',
    heap m' !! p = Some it' /\
    Deadline it' = None /\ deadlineText it' = [] /\
    set_Notes (Notes it) (set_Deadline (Deadline it) it') = it /\
    sublist (Notes it') (Notes it) /\
    Forall (fun note => deadlineNote note = false) (Notes it') /\
    (forall note, note ∈ Notes it -> deadlineNote note = false -> note ∈ Notes it').
Proof.
  intros Hblank Hed Hp m'. unfold m', updateSetDeadline. rewrite Hblank, Hed.
  cbn [is_nil]. model_simpl. split; [reflexivity|]. split; [reflexivity|].
  split; [reflexivity|]. exists (clearDeadline it).
  split; [rewrite list_lookup_alter_eq, Hp; reflexivity|].
  unfold clearDeadline. cbn [Deadline Notes set_Notes set_Deadline].
  split; [reflexivity|]. split; [reflexivity|]. split; [destruct it; reflexivity|].
  split; [apply withoutDeadline_sublist|]. split; [apply withoutDeadline_clean|].
  intros note Hin Hn. apply list_elem_of_In, filter_In. split.
  - apply list_elem_of_In, Hin.
  - rewrite Hn. reflexivity.
Qed.

End Deadlines.

(** ** Written directives read back *)

Lemma Contains_infix (s key : gostring) :
  Contains s key = true -> exists pre post, s = pre ++ key ++ post.
Proof.
  unfold Contains. induction s as [|c s IH]; cbn [find_first].
  - destruct (strip_prefix key []) as [r|] eqn:E; [|discriminate].
    intros _. exists [], r. cbn [app]. apply (strip_prefix_Some _ _ _ E).
  - destruct (strip_prefix key (c :: s)) as [r|] eqn:E.
    + intros _. exists [], r. cbn [app]. apply (strip_prefix_Some _ _ _ E).
    + intros H. destruct (IH H) as (pre & post & ->). exists (c :: pre), post. reflexivity.
Qed.

Lemma Contains_needs (s key : gostring) (c : ascii) :
  c ∈ key -> forallb (not_char c) s = true -> Contains s key = false.
Proof.
  intros Hc Hs. destruct (Contains s key) eqn:E; [|reflexivity].
  destruct (Contains_infix _ _ E) as (pre & post & ->).
  rewrite !forallb_app in Hs. apply andb_prop in Hs as [_ Hs].
  apply andb_prop in Hs as [Hs _]. rewrite forallb_forall in Hs.
  apply list_elem_of_In, Hs in Hc. unfold not_char in Hc.
  rewrite Ascii.eqb_refl in Hc. discriminate.
Qed.

Lemma digits_stamp (l : gostring) :
  forallb is_digit l = true -> forallb stamp_char l = true.
Proof.
  intros H. rewrite forallb_forall in H |- *. intros c Hc. unfold stamp_char.
  rewrite (H c Hc). reflexivity.
Qed.

Lemma two_digits_stamp (n : nat) :
  n < 100 -> forallb stamp_char (GoTime.appendInt n 2) = true.
Proof.
  intros Hn. destruct (two_digits n Hn) as (c & d & -> & Hc & Hd & _).
  apply digits_stamp. cbn. rewrite Hc, Hd. reflexivity.
Qed.

Lemma Format_date_chars (x : GoTime.t) :
  valid_date x = true ->
  forallb stamp_char (GoTime.Format x (str "2006-01-02 Mon")) = true /\
  GoTime.Format x (str "2006-01-02 Mon") <> [].
Proof.
  intros Hv. destruct (valid_date_bounds x Hv) as (Hy & Hm & Hd).
  pose proof (days_below (GoTime.month x) (GoTime.year x)) as H31.
  rewrite Format_date.
  destruct (four_digits_value _ Hy) as (a & b & c & d & -> & Hdig & _).
  split; [|discriminate].
  cbn [app]. repeat (cbn [forallb]; rewrite ?forallb_app).
  change (GoTime.all_digits [a; b; c; d]) with (forallb is_digit [a; b; c; d]) in Hdig.
  apply digits_stamp in Hdig. cbn [forallb] in Hdig.
  repeat (apply andb_prop in Hdig as [? Hdig]).
  rewrite !two_digits_stamp by lia.
  assert (Hw : forallb stamp_char (nth (GoTime.weekday x) GoTime.shortDayNames []) = true).
  { pose proof (weekday_lt x) as Hw. destruct (GoTime.weekday x) as [|w]; [reflexivity|].
    do 6 (destruct w as [|w]; [reflexivity|]). lia. }
  rewrite Hw.
  repeat match goal with H : stamp_char _ = true |- _ => rewrite H; clear H end.
  reflexivity.
Qed.

Lemma stamp_char_not (c d : ascii) :
  stamp_char d = false -> forall l, forallb stamp_char l = true ->
  forallb (not_char d) l = true.
Proof.
  intros Hd l Hl. rewrite forallb_forall in Hl |- *. intros x Hx. unfold not_char.
  destruct (Ascii.eqb d x) eqn:E; [|reflexivity].
  apply Ascii.eqb_eq in E. subst. rewrite (Hl x Hx) in Hd. discriminate.
Qed.

Lemma delimited_text (opening closing : ascii) (txt rest : gostring) :
  txt <> [] -> forallb (not_char closing) txt = true ->
  delimited opening closing (opening :: txt ++ closing :: rest) = Some (txt, rest).
Proof.
  intros Hne Hno. unfold delimited. rewrite Ascii.eqb_refl.
  assert (Hd : dropWhile (not_char closing) (txt ++ closing :: rest) = closing :: rest
               /\ takeWhile (not_char closing) (txt ++ closing :: rest) = txt).
  { clear Hne. induction txt as [|c txt IH].
    - cbn. unfold not_char. rewrite Ascii.eqb_refl. auto.
    - cbn in Hno. apply andb_prop in Hno as [Hc Hno]. cbn [app dropWhile takeWhile].
      rewrite Hc. destruct (IH Hno) as [-> ->]. auto. }
  destruct Hd as [-> ->]. destruct txt; [contradiction|reflexivity].
Qed.

Lemma find_first_here {A} (f : gostring -> option A) (s : gostring) (x : A) :
  f s = Some x -> find_first f s = Some x.
Proof. intros H. destruct s; cbn [find_first]; rewrite H; reflexivity. Qed.

Lemma angle_directive_here (key txt : gostring) :
  txt <> [] -> forallb (not_char ">") txt = true ->
  find_first (angle_directive_at key) (key ++ " " :: "<" :: txt ++ [">"]) = Some txt.
Proof.
  intros Hne Hno. apply find_first_here. unfold angle_directive_at.
  rewrite strip_prefix_app. cbn [dropWhile]. change (re_space " ") with true.
  cbn iota. change (re_space "<") with false. cbn iota.
  rewrite delimited_text by assumption. reflexivity.
Qed.

Lemma no_directive (key line : gostring) :
  Contains line key = false -> find_first (angle_directive_at key) line = None.
Proof.
  intros H. destruct (find_first _ line) as [m|] eqn:E; [|reflexivity].
  apply angle_directive_Contains in E. congruence.
Qed.

Lemma contentLine_Scheduled (line m1 : gostring) (t : Time) (it : Item) :
  scheduledPattern line = Some m1 -> parseOrgDate m1 = Some t ->
  deadlinePattern line = None ->
  Scheduled (contentLine line it) = Some t /\ Deadline (contentLine line it) = Deadline it.
Proof.
  intros Hs Hp Hd. unfold contentLine. rewrite Hs, Hp, Hd.
  destruct (clockPattern line) as [[c1 c2]|]; [destruct (parseClockTimestamp c1)|];
    cbn [Notes set_Scheduled set_ClockEntries];
    match goal with |- context [if ?b then _ else _] => destruct b end;
    split; reflexivity.
Qed.

Lemma contentLine_Deadline (line m1 : gostring) (t : Time) (it : Item) :
  deadlinePattern line = Some m1 -> parseOrgDate m1 = Some t ->
  scheduledPattern line = None ->
  Deadline (contentLine line it) = Some t /\ Scheduled (contentLine line it) = Scheduled it.
Proof.
  intros Hd Hp Hs. unfold contentLine. rewrite Hs, Hd, Hp.
  destruct (clockPattern line) as [[c1 c2]|]; [destruct (parseClockTimestamp c1)|];
    cbn [Notes set_Deadline set_ClockEntries];
    match goal with |- context [if ?b then _ else _] => destruct b end;
    split; reflexivity.
Qed.

Lemma directive_shape {TL : TimeLib} (t : Time) :
  scheduledLine t = str "SCHEDULED:" ++ " " :: "<" :: formatOrgDate t ++ [">"] /\
  deadlineLine t = str "DEADLINE:" ++ " " :: "<" :: formatOrgDate t ++ [">"].
Proof.
  unfold scheduledLine, deadlineLine. generalize (formatOrgDate t). intros txt.
  split; reflexivity.
Qed.

Lemma Contains_other (c : ascii) (lit key txt : gostring) :
  c ∈ key -> forallb (not_char c) (lit ++ [" "; "<"; ">"]) = true ->
  forallb (not_char c) txt = true ->
  Contains (lit ++ " " :: "<" :: txt ++ [">"]) key = false.
Proof.
  intros Hin Hlit Htxt. apply (Contains_needs _ _ c Hin).
  rewrite forallb_app in Hlit |- *. apply andb_prop in Hlit as [H1 H2].
  rewrite H1. cbn [forallb andb] in H2 |- *. rewrite forallb_app.
  apply andb_prop in H2 as [-> H2]. apply andb_prop in H2 as [-> H2].
  rewrite Htxt. exact H2.
Qed.

(** X27: the SCHEDULED line and the DEADLINE line of a day of the
    calendar (years 0 to 9999), as [writeItem] and the deadline dialog
    write them, are read back by the parser: as a content line each
    sets the field it names to that day and leaves the other field as
    it is. *)
Theorem written_directives_parse_back (d : GoTime.t) (it : @Item goTime) :
  valid_date d = true ->
  Scheduled (contentLine (scheduledLine d) it) = Some (date_of d) /\
  Deadline (contentLine (scheduledLine d) it) = Deadline it /\
  Deadline (contentLine (deadlineLine d) it) = Some (date_of d) /\
  Scheduled (contentLine (deadlineLine d) it) = Scheduled it.
Proof.
  intros Hv. destruct (Format_date_chars d Hv) as [Hchars Hne].
  pose proof (date_reparsed d Hv) as Hback.
  pose proof (stamp_char_not ">" ">" eq_refl _ Hchars) as Hgt.
  destruct (@directive_shape goTime d) as [Hs Hd].
  assert (HS : Scheduled (contentLine (@scheduledLine goTime d) it) = Some (date_of d)
               /\ Deadline (contentLine (@scheduledLine goTime d) it) = Deadline it).
  { apply (contentLine_Scheduled (@scheduledLine goTime d) (@formatOrgDate goTime d)).
    - unfold scheduledPattern. rewrite Hs. apply angle_directive_here; assumption.
    - exact Hback.
    - unfold deadlinePattern. rewrite Hs. apply no_directive.
      apply (Contains_other "A").
      + apply list_elem_of_In. unfold str. cbn. auto 20.
      + reflexivity.
      + apply (stamp_char_not "A" "A" eq_refl _ Hchars). }
  assert (HD : Deadline (contentLine (@deadlineLine goTime d) it) = Some (date_of d)
               /\ Scheduled (contentLine (@deadlineLine goTime d) it) = Scheduled it).
  { apply (contentLine_Deadline (@deadlineLine goTime d) (@formatOrgDate goTime d)).
    - unfold deadlinePattern. rewrite Hd. apply angle_directive_here; assumption.
    - exact Hback.
    - unfold scheduledPattern. rewrite Hd. apply no_directive.
      apply (Contains_other "C").
      + apply list_elem_of_In. unfold str. cbn. auto 20.
      + reflexivity.
      + apply (stamp_char_not "C" "C" eq_refl _ Hchars). }
  destruct HS as [H1 H2], HD as [H3 H4]. auto.
Qed.

Section MovingDown.
Context {TL : TimeLib}.

(** ** moveItemDown *)

Lemma swapItems_adjacent (fuel : nat) (m : model) (ts : list tree)
    (item1 item2 : ptr) :
  Items (m_orgFile m) = map root_of ts ->
  Forall (represents (heap m)) ts ->
  NoDup (forest_ptrs ts) ->
  Forall (fun t => height t <= fuel) ts ->
  adjacent item1 item2 ts = true ->
  exists h' ts',
    swapItems (S fuel) m item1 item2 = Some (set_tree h' (map root_of ts') m) /\
    swapped item1 item2 ts = Some ts' /\
    Forall (represents h') ts'.
Proof.
  intros Hroots Hrep Hnd Hht Hadj.
  destruct (swapInList_spec item1 item2 fuel ts (heap m) Hrep Hnd Hht)
    as (h' & Hcase & _ & _).
  destruct (swapped item1 item2 ts) as [ts'|] eqn:Esw.
  - destruct Hcase as [Hres Hrep']. exists h', ts'.
    unfold swapItems. rewrite Hroots, Hres. cbn [app]. auto.
  - apply swapped_None in Esw. congruence.
Qed.

(** X28: [moveItemDown] with the cursor on an item that has a visible
    item after it, for a file whose roots and their descendants form
    the trees [ts], no item occurring twice.  When the two items
    differ in level, only the status changes, to "Cannot move across
    different levels".  When they have the same level, the cursor
    moves down by one and the status is "Item moved down"; the two
    items are exchanged in the tree when they are neighbours in a list
    (the roots or the children of an item), and when they are
    neighbours in no list nothing else changes. *)
Theorem moveItemDown_moves_or_reports (soon : Time -> bool) (fuel : nat)
    (m : model) (ts : list tree) (items : list ptr) (cur next : ptr)
    (c nx : Item) :
  Items (m_orgFile m) = map root_of ts ->
  Forall (represents (heap m)) ts ->
  NoDup (forest_ptrs ts) ->
  Forall (fun t => height t <= fuel) ts ->
  getVisibleItems soon (S fuel) m = Some items ->
  items !! cursor m = Some cur -> items !! (cursor m + 1) = Some next ->
  heap m !! cur = Some c -> heap m !! next = Some nx ->
  exists m',
    moveItemDown soon (S fuel) m = Some m' /\
    (Level c <> Level nx ->
     m' = setStatus (str "Cannot move across different levels") m) /\
    (Level c = Level nx ->
     cursor m' = cursor m + 1 /\ statusMsg m' = str "Item moved down" /\
     (adjacent cur next ts = false ->
      m' = setStatus (str "Item moved down") (set_cursor (cursor m + 1) m)) /\
     (adjacent cur next ts = true ->
      exists ts', swapped cur next ts = Some ts' /\
                  Items (m_orgFile m') = map root_of ts' /\
                  Forall (represents (heap m')) ts')).
Proof.
  intros Hroots Hrep Hnd Hht Hv Hcur Hnext Hhc Hhn.
  unfold moveItemDown. rewrite Hv, Hcur, Hnext, Hhc, Hhn.
  apply lookup_lt_Some in Hnext.
  destruct (length items =? 0)%nat eqn:E1; [apply Nat.eqb_eq in E1; lia|].
  destruct (length items - 1 <=? cursor m)%nat eqn:E2; [apply Nat.leb_le in E2; lia|].
  cbn [orb].
  destruct (Level c =? Level nx)%nat eqn:El; cbn [negb].
  - apply Nat.eqb_eq in El.
    destruct (adjacent cur next ts) eqn:Eadj.
    + destruct (swapItems_adjacent fuel m ts cur next Hroots Hrep Hnd Hht Eadj)
        as (h' & ts' & -> & Hsw & Hrep').
      eexists. split; [reflexivity|]. split; [intros Hne; contradiction|].
      intros _. cbn. split; [reflexivity|]. split; [reflexivity|].
      split; [discriminate|]. intros _. exists ts'. auto.
    + rewrite (swapItems_not_adjacent fuel m ts cur next Hroots Hrep Hnd Hht Eadj).
      eexists. split; [reflexivity|]. split; [intros Hne; contradiction|].
      intros _. cbn. split; [reflexivity|]. split; [reflexivity|].
      split; [reflexivity|]. discriminate.
  - apply Nat.eqb_neq in El. eexists. split; [reflexivity|].
    split; [reflexivity|]. intros Heq. contradiction.
Qed.

End MovingDown.

Section Editor.
Context {TL : TimeLib}.

(** ** The notes editor *)

Lemma Split_line (l : gostring) :
  forallb (not_char LF) l = true -> Split l LF = [l].
Proof.
  induction l as [|c l IH]; intros H; [reflexivity|].
  cbn [forallb] in H. apply andb_prop in H as [Hc Hl].
  cbn [Split]. unfold not_char in Hc. apply negb_true_iff in Hc.
  rewrite Ascii.eqb_sym, Hc, (IH Hl). reflexivity.
Qed.

Lemma Split_app (l rest : gostring) :
  forallb (not_char LF) l = true ->
  Split (l ++ LF :: rest) LF = l :: Split rest LF.
Proof.
  induction l as [|c l IH]; intros H.
  - cbn [app Split]. rewrite Ascii.eqb_refl. reflexivity.
  - cbn [forallb] in H. apply andb_prop in H as [Hc Hl].
    cbn [app Split]. unfold not_char in Hc. apply negb_true_iff in Hc.
    rewrite Ascii.eqb_sym, Hc, (IH Hl). reflexivity.
Qed.

Lemma Split_Join (notes : list gostring) :
  notes <> [] -> Forall (fun note => forallb (not_char LF) note = true) notes ->
  Split (Join notes LF) LF = notes.
Proof.
  induction notes as [|note notes IH]; intros Hne Hall; [contradiction|].
  apply Forall_cons in Hall as [Hn Hall].
  destruct notes as [|note' notes]; [apply Split_line, Hn|].
  change (Join (note :: note' :: notes) LF)
    with (note ++ LF :: Join (note' :: notes) LF).
  rewrite (Split_app _ _ Hn), IH by (try discriminate; exact Hall). reflexivity.
Qed.

Lemma Join_nil (notes : list gostring) :
  Join notes LF = [] -> notes = [] \/ notes = [[]].
Proof.
  destruct notes as [|note [|note' notes]]; cbn [Join]; intros H; auto.
  - subst. auto.
  - destruct note; discriminate.
Qed.

Lemma alter_same (h : list Item) (p : ptr) (it : Item) (f : Item -> Item) :
  h !! p = Some it -> f it = it -> alter f p h = h.
Proof.
  intros Hp Hf. apply list_eq. intros q.
  destruct (decide (q = p)) as [->|Hne].
  - rewrite list_lookup_alter_eq, Hp. cbn. rewrite Hf. reflexivity.
  - rewrite list_lookup_alter_ne by auto. reflexivity.
Qed.

(** X29: Esc in the notes editor when the text of the editor is the
    notes of the item joined by newlines, as the EditNotes key sets it,
    and no note holds a newline.  The list view is back with the
    status "Notes saved"; the file and the cursor are as before, and so
    is the store, with one exception: an item whose notes are one
    empty note is left without notes. *)
Theorem updateEditMode_keeps_untouched_notes (name : gostring) (m : model)
    (p : ptr) (it : Item) :
  editingItem m = Some p ->
  heap m !! p = Some it ->
  Forall (fun note => forallb (not_char LF) note = true) (Notes it) ->
  let m' := updateEditMode (Join (Notes it) LF) (KeyMsg KeyEsc name) m in
  mode m' = modeList /\ statusMsg m' = str "Notes saved" /\
  m_orgFile m' = m_orgFile m /\ cursor m' = cursor m /\
  (Notes it <> [[]] -> heap m' = heap m) /\
  (Notes it = [[]] -> heap m' = alter (set_Notes []) p (heap m)).
Proof.
  intros Hed Hp Hall m'. unfold m', updateEditMode. rewrite Hed.
  destruct (is_nil (Join (Notes it) LF)) eqn:E.
  - cbn. split; [reflexivity|]. split; [reflexivity|].
    split; [destruct m as [? [? ?] ? ? ? ? ? ?]; reflexivity|]. split; [reflexivity|].
    split; [|reflexivity]. intros Hne.
    destruct (Join (Notes it) LF) eqn:EJ; [|discriminate].
    apply Join_nil in EJ as [Hnil|Hone]; [|contradiction].
    apply (alter_same _ _ it); [exact Hp|]. rewrite <- Hnil. destruct it; reflexivity.
  - cbn. split; [reflexivity|]. split; [reflexivity|].
    split; [destruct m as [? [? ?] ? ? ? ? ? ?]; reflexivity|]. split; [reflexivity|].
    assert (Hne : Notes it <> []).
    { intros Hnil. rewrite Hnil in E. discriminate. }
    split.
    + intros _. rewrite Split_Join by assumption.
      apply (alter_same _ _ it); [exact Hp|]. destruct it; reflexivity.
    + intros Hone. rewrite Hone in E. discriminate.
Qed.

End Editor.

(** * The properties on the sample documents *)

Lemma CycleState_five_and_inverse_witness :
  State buy_milk ∈ valid_states /\
  CycleState (CycleState (CycleState (CycleState (CycleState buy_milk)))) = buy_milk.
Proof.
  assert (H : State buy_milk ∈ valid_states) by (right; left).
  split; [exact H|]. apply (CycleState_five_and_inverse buy_milk H).
Defined.


Lemma writeItem_order_witness :
  writeItem 2 report_store [] 0
  = Some (str "* TODO T
SCHEDULED: <2024-01-15 Mon>
** B
:LOGBOOK:
CLOCK: [2024-01-15 Mon 10:00]
:END:
").
Proof.
  assert (H : Forall2 (fun c out => writeItem 1 report_store [] c = Some out) [1]
                [str "** B
:LOGBOOK:
CLOCK: [2024-01-15 Mon 10:00]
:END:
"]) by (constructor; [reflexivity|constructor]).
  exact (writeItem_order 1 report_store [] 0 _ _ eq_refl H).
Defined.

Lemma parsed_child_level_greater_witness :
  exists child, store nested !! 1 = Some child /\ 1 < Level child.
Proof.
  apply (parsed_child_level_greater todo_org (joinLines nested_lines)
           (store nested) (orgFile nested) 0 1
           (mkItem 1 [] (str "A") None None [] [1] false [])).
  - reflexivity.
  - reflexivity.
  - left.
Defined.

Lemma parsed_items_well_formed_witness :
  Forall (fun it => 1 <= Level it /\ Title it <> [] /\ State it ∈ valid_states)
         (store nested).
Proof.
  apply Forall_forall. intros it.
  apply (parsed_items_well_formed todo_org (joinLines nested_lines)
           (store nested) (orgFile nested)).
  reflexivity.
Defined.

Lemma round_trip_of_kept_lines_witness :
  exists h file,
    ParseOrgFile todo_org (joinLines faithful_lines) = Some (h, file) /\
    Save (length h) h file = Some (joinLines faithful_lines).
Proof.
  apply (round_trip_of_kept_lines todo_org faithful_lines);
    vm_compute; reflexivity.
Defined.

(** Against C1 as it was stated: nothing is to be synthesized for the
    text "* A", blank line, "note", and yet the blank line is missing
    from what is saved. *)
Lemma round_trip_counterexample :
  ParseOrgFile todo_org (joinLines spaced_lines)
  = Some (store (parseLines todo_org spaced_lines),
          orgFile (parseLines todo_org spaced_lines))
  /\ forallb synthesizes_nothing (store (parseLines todo_org spaced_lines)) = true
  /\ Save 1 (store (parseLines todo_org spaced_lines))
          (orgFile (parseLines todo_org spaced_lines))
     = Some (joinLines (map str ["* A"; "note"]%string))
  /\ joinLines (map str ["* A"; "note"]%string) <> joinLines spaced_lines.
Proof.
  split; [reflexivity|]. split; [vm_compute; reflexivity|].
  split; [vm_compute; reflexivity|]. vm_compute. discriminate.
Qed.

Lemma content_line_kept_unless_leading_blank_witness :
  currentItem (parseLine (parseLines todo_org [str "* A"]) (str "note")) = Some 0 /\
  exists it',
    store (parseLine (parseLines todo_org [str "* A"]) (str "note")) !! 0 = Some it' /\
    Notes it' = [str "note"].
Proof.
  exact (content_line_kept_unless_leading_blank
           (parseLines todo_org [str "* A"]) (str "note") 0
           (mkItem 1 [] (str "A") None None [] [] false [])
           eq_refl eq_refl eq_refl).
Defined.

(** Against C2 as it was stated: the empty line read after the
    heading "* A" is no heading, an item is open, and the notes of the
    item stay empty. *)
Lemma blank_line_counterexample :
  currentItem (parseLines todo_org [str "* A"]) = Some 0
  /\ headingPattern [] = None
  /\ Notes <$> store (parseLine (parseLines todo_org [str "* A"]) []) !! 0 = Some [].
Proof. repeat split. Qed.

Lemma deleteItem_prunes_witness :
  exists m', deleteItem 3 uneven_model 2 = Some m' /\
             Items (m_orgFile m') = [0; 1] /\
             Children <$> heap m' !! 1 = Some [].
Proof.
  assert (Hrep : Forall (represents (heap uneven_model)) uneven_trees).
  { repeat first [apply List.Forall_nil | apply List.Forall_cons
                 | eapply represents_node; [reflexivity|reflexivity|]]. }
  assert (Hnd : NoDup (forest_ptrs uneven_trees)).
  { apply (bool_decide_unpack _). vm_compute. exact I. }
  assert (Hht : Forall (fun t => height t <= 2) uneven_trees).
  { apply (bool_decide_unpack _). vm_compute. exact I. }
  destruct (deleteItem_prunes 2 uneven_model uneven_trees 2 eq_refl Hrep Hnd Hht)
    as (m' & Hdel & Hroots & Hrep' & _).
  exists m'. split; [exact Hdel|]. split; [exact Hroots|].
  apply Forall_cons in Hrep' as [_ Hrep']. apply Forall_cons in Hrep' as [Hrep' _].
  inversion Hrep' as [p kids it Hp Hc Hk]. rewrite Hp. cbn. rewrite Hc. reflexivity.
Defined.

(** Against C6 as it was stated: deleting an item that is not in the
    tree and deleting one that is leave the same status, the one there
    was before; nothing tells the caller which happened. *)
Lemma deleteItem_counterexample :
  deleteItem 3 uneven_model 7 = Some uneven_model
  /\ statusMsg <$> deleteItem 3 uneven_model 7 = Some (statusMsg uneven_model)
  /\ statusMsg <$> deleteItem 3 uneven_model 2 = Some (statusMsg uneven_model)
  /\ Items <$> (m_orgFile <$> deleteItem 3 uneven_model 2) = Some [0; 1]
  /\ map Children (heap uneven_model) = [[]; [2]; []].
Proof. repeat split. Qed.

Lemma swapItems_neighbours_any_level_witness :
  (exists m', swapItems 3 uneven_model 1 0 = Some m' /\
              Items (m_orgFile m') = [1; 0]) /\
  moveItemUp (fun _ => true) 3 uneven_model
  = Some (setStatus (str "Cannot move across different levels") uneven_model).
Proof.
  assert (Hrep : Forall (represents (heap uneven_model)) uneven_trees).
  { repeat first [apply List.Forall_nil | apply List.Forall_cons
                 | eapply represents_node; [reflexivity|reflexivity|]]. }
  assert (Hnd : NoDup (forest_ptrs uneven_trees)).
  { apply (bool_decide_unpack _). vm_compute. exact I. }
  assert (Hht : Forall (fun t => height t <= 2) uneven_trees).
  { apply (bool_decide_unpack _). vm_compute. exact I. }
  destruct (swapItems_neighbours_any_level (fun _ => true) 2 uneven_model
              uneven_trees 1 0 [0; 1; 2] 1 0
              (mkItem 1 [] (str "A") None None [] [2] false [])
              (mkItem 2 [] (str "X") None None [] [] false []))
    as [Hswap Hmove].
  split.
  - destruct (Hswap eq_refl Hrep Hnd Hht) as (m' & Hsw & _ & _ & _ & Hadj).
    destruct (Hadj eq_refl) as (ts' & Hts' & Hroots & _).
    exists m'. split; [exact Hsw|]. rewrite Hroots.
    vm_compute in Hts'. injection Hts' as <-. reflexivity.
  - apply (swapItems_neighbours_any_level (fun _ => true) 3 uneven_model
             uneven_trees 1 0 [0; 1; 2] 1 0
             (mkItem 1 [] (str "A") None None [] [2] false [])
             (mkItem 2 [] (str "X") None None [] [] false []));
      try reflexivity; cbn; lia.
Defined.

Lemma moveItemUp_reports_a_move_not_made_witness :
  Items (orgFile dated) = [0; 1; 2]
  /\ getVisibleItems before_22_January_2024 2 dated_model = Some [0; 2]
  /\ adjacent 2 0 dated_trees = false
  /\ moveItemUp before_22_January_2024 2 dated_model
     = Some (mkModel (store dated) (orgFile dated) 0 modeAgenda
                     (str "Item moved up") None None false).
Proof.
  assert (Hrep : Forall (represents (heap dated_model)) dated_trees).
  { repeat first [apply List.Forall_nil | apply List.Forall_cons
                 | eapply represents_node; [reflexivity|reflexivity|]]. }
  assert (Hnd : NoDup (forest_ptrs dated_trees)).
  { apply (bool_decide_unpack _). vm_compute. exact I. }
  assert (Hht : Forall (fun t => height t <= 1) dated_trees).
  { apply (bool_decide_unpack _). vm_compute. exact I. }
  split; [reflexivity|]. split; [reflexivity|]. split; [reflexivity|].
  apply (@moveItemUp_reports_a_move_not_made goTime before_22_January_2024 1 dated_model
           dated_trees [0; 2] 2 0
           (@mkItem goTime 1 [] (str "C") None (Some (GoTime.mk 2024 1 16 0 0 0 0%N))
                   [str "DEADLINE: <2024-01-16 Tue>"] [] false [])
           (@mkItem goTime 1 [] (str "A") (Some (GoTime.mk 2024 1 15 0 0 0 0%N)) None
                   [str "SCHEDULED: <2024-01-15 Mon>"] [] false []));
    try reflexivity; try assumption. cbn. lia.
Defined.

Lemma at_most_one_open_kept_witness :
  store (parseLines todo_org (take 2 two_clocks_lines)) !! 0 = Some clocked_once
  /\ open_entries (ClockEntries clocked_once) = 1
  /\ open_entries (ClockEntries (fst (ClockIn stamp clocked_once))) <= 1
  /\ open_entries (ClockEntries (fst (ClockOut stamp clocked_once))) <= 1
  /\ (exists new,
        store (headingLine (str "*") [] (str "B")
                           (parseLines todo_org (take 2 two_clocks_lines))) !! 1
        = Some new /\ ClockEntries new = [])
  /\ open_entries
       (ClockEntries (contentLine (str "CLOCK: [2024-01-15 Mon 11:00]") clocked_once))
     = 2
  /\ store (parseLine (parseLines todo_org (take 2 two_clocks_lines))
                      (str "CLOCK: [2024-01-15 Mon 11:00]")) !! 0
     = Some (contentLine (str "CLOCK: [2024-01-15 Mon 11:00]") clocked_once).
Proof.
  destruct (@at_most_one_open_kept goTime stamp clocked_once
              (parseLines todo_org (take 2 two_clocks_lines))
              (str "CLOCK: [2024-01-15 Mon 11:00]") (str "*") [] (str "B")
              (str "2024-01-15 Mon 11:00") [] 0 (GoTime.mk 2024 1 15 11 0 0 0%N))
    as (Hclock & (_ & Hnew) & Hline & Hparse & _).
  split; [reflexivity|]. split; [reflexivity|].
  assert (Hone : open_entries (ClockEntries clocked_once) <= 1) by (cbn; lia).
  destruct (Hclock Hone) as [Hin Hout].
  split; [exact Hin|]. split; [exact Hout|]. split; [exact Hnew|].
  split.
  - destruct Hline as [_ Hopen]; [reflexivity|reflexivity|left; reflexivity|].
    exact Hopen.
  - apply Hparse; reflexivity.
Defined.

(** Against C9 as it was stated: parsing a heading followed by two
    CLOCK lines without an end yields an item with two open entries. *)
Lemma two_open_entries_counterexample :
  ParseOrgFile todo_org (joinLines two_clocks_lines)
  = Some (store (parseLines todo_org two_clocks_lines),
          orgFile (parseLines todo_org two_clocks_lines))
  /\ (open_entries ∘ ClockEntries) <$> store (parseLines todo_org two_clocks_lines) !! 0
     = Some 2.
Proof. split; reflexivity. Qed.

(** X1: parsing "* A", "** B", "* C" yields the roots A and C, B the
    only child of A, with levels 1, 2 and 1. *)
Example nested_headings_example :
  ParseOrgFile todo_org (str "* A
** B
* C
") = Some (store nested, orgFile nested)
  /\ Items (orgFile nested) = [0; 2]
  /\ map (fun it => (Title it, Level it, Children it)) (store nested)
     = [(str "A", 1, [1]); (str "B", 2, []); (str "C", 1, [])].
Proof. repeat split. Qed.

(** X2: parsing "* TODO Buy milk" yields one root of level 1, state
    TODO, title "Buy milk", without notes or schedule. *)
Example buy_milk_example :
  ParseOrgFile todo_org (str "* TODO Buy milk
") = Some ([buy_milk], mkOrgFile todo_org [0]).
Proof. reflexivity. Qed.

(** X3: a SCHEDULED line under a heading sets the field, stays among
    the notes, and is written once when the file is saved. *)
Example scheduled_example :
  ParseOrgFile todo_org (str "* TODO T
SCHEDULED: <2024-01-15 Mon>
")
  = Some ([mkItem 1 StateTODO (str "T") (Some (GoTime.mk 2024 1 15 0 0 0 0%N)) None
                  [str "SCHEDULED: <2024-01-15 Mon>"] [] false []],
          mkOrgFile todo_org [0])
  /\ Save 1 [mkItem 1 StateTODO (str "T") (Some (GoTime.mk 2024 1 15 0 0 0 0%N)) None
                    [str "SCHEDULED: <2024-01-15 Mon>"] [] false []]
          (mkOrgFile todo_org [0])
     = Some (str "* TODO T
SCHEDULED: <2024-01-15 Mon>
").
Proof. split; reflexivity. Qed.

(** X4: of a folded root with two children only the root is visible;
    unfolded, all three items are. *)
Example folded_example :
  GetAllItems 3 folded_store (mkOrgFile todo_org [0]) = Some [0]
  /\ GetAllItems 3 unfolded_store (mkOrgFile todo_org [0]) = Some [0; 1; 2].
Proof. split; reflexivity. Qed.

Lemma parent_is_nearest_smaller_level_witness :
  (1 ∈ Items (orgFile nested) <-> nearest_below (store nested) 2 1 = None) /\
  (forall p parent, store nested !! p = Some parent ->
     (1 ∈ Children parent <-> nearest_below (store nested) 2 1 = Some p)).
Proof.
  exact (parent_is_nearest_smaller_level todo_org (joinLines nested_lines)
           (store nested) (orgFile nested) 1
           (mkItem 2 [] (str "B") None None [] [] false []) eq_refl eq_refl).
Defined.

Lemma text_before_first_heading_dropped_witness :
  store (parseLines todo_org (map str ["#+TITLE: plan"; ""; "* A"]%string))
  = store (parseLines todo_org [str "* A"]).
Proof.
  apply (text_before_first_heading_dropped todo_org
           (map str ["#+TITLE: plan"; ""]%string) [str "* A"]).
  repeat constructor.
Defined.

Lemma written_heading_parses_back_witness :
  exists line,
    headingText buy_milk = line ++ [LF] /\
    headingPattern line = Some (str "*", StateTODO, str "Buy milk").
Proof.
  apply (written_heading_parses_back buy_milk).
  - cbn. lia.
  - right. left.
  - reflexivity.
Defined.

Lemma written_date_parses_back_witness :
  @parseOrgDate goTime (@formatOrgDate goTime stamp)
  = Some (GoTime.mk 2024 1 15 0 0 0 0%N).
Proof. apply (written_date_parses_back stamp). reflexivity. Defined.

Lemma written_clock_parses_back_witness :
  @parseClockTimestamp goTime (@formatClockTimestamp goTime stamp) = Some stamp.
Proof. apply (written_clock_parses_back stamp). reflexivity. Defined.

Lemma clocked_time_after_ClockOut_witness :
  GetCurrentClockDuration later_stamp (fst (ClockOut later_stamp clocked)) = 0%Z /\
  GetTotalClockDuration (fun _ => later_stamp) (fst (ClockOut later_stamp clocked))
  = 5400000000000%Z.
Proof.
  destruct (@clocked_time_after_ClockOut goTime goDuration later_stamp
              (fun _ => later_stamp) later_stamp clocked) as [Hcur Htot].
  - cbn. lia.
  - split; [exact Hcur|]. rewrite Htot. reflexivity.
Defined.

Lemma parsed_items_form_forest_witness :
  exists ts,
    Items (orgFile nested) = map root_of ts /\
    Forall (represents (store nested)) ts /\
    forest_ptrs ts = seq 0 (length (store nested)).
Proof.
  exact (parsed_items_form_forest todo_org (joinLines nested_lines)
           (store nested) (orgFile nested) eq_refl).
Defined.

Lemma Save_of_parsed_witness :
  Save 3 (store nested) (orgFile nested)
  = Some (concat (map parsedText (store nested))).
Proof.
  exact (Save_of_parsed todo_org (joinLines nested_lines)
           (store nested) (orgFile nested) eq_refl).
Defined.

Lemma clocking_beside_a_drawer_is_not_saved_witness :
  Save 1 [fst (ClockIn later_stamp logged)] (mkOrgFile todo_org [0])
  = Save 1 [logged] (mkOrgFile todo_org [0]).
Proof.
  apply (clocking_beside_a_drawer_is_not_saved 1 [logged] (mkOrgFile todo_org [0])
           0 logged later_stamp); reflexivity.
Defined.

Lemma GetAllItems_shows_unfolded_witness :
  GetAllItems 3 folded_store (mkOrgFile todo_org [0]) = Some [0].
Proof.
  apply (GetAllItems_shows_unfolded 2 folded_store (mkOrgFile todo_org [0])
           folded_trees).
  - reflexivity.
  - repeat first [apply List.Forall_nil | apply List.Forall_cons
                 | eapply represents_node; [reflexivity|reflexivity|]].
  - apply (bool_decide_unpack _). vm_compute. exact I.
Defined.

Lemma parsed_file_shows_every_item_witness :
  GetAllItems 4 (store nested) (orgFile nested) = Some [0; 1; 2].
Proof.
  exact (parsed_file_shows_every_item todo_org (joinLines nested_lines)
           (store nested) (orgFile nested) eq_refl).
Defined.

Lemma agenda_lists_every_soon_date_witness :
  getVisibleItems before_22_January_2024 2 dated_model = Some [0; 2].
Proof.
  apply (agenda_lists_every_soon_date before_22_January_2024 1 dated_model
           dated_trees).
  - reflexivity.
  - reflexivity.
  - repeat first [apply List.Forall_nil | apply List.Forall_cons
                 | eapply represents_node; [reflexivity|reflexivity|]].
  - apply (bool_decide_unpack _). vm_compute. exact I.
Defined.

Lemma swapItems_only_reorders_witness :
  Items (m_orgFile (set_tree (store uneven) [1; 0] uneven_model))
  ≡ₚ Items (m_orgFile uneven_model) /\
  reordered (heap uneven_model) (store uneven).
Proof.
  destruct (swapItems_only_reorders 3 uneven_model
              (set_tree (store uneven) [1; 0] uneven_model) 1 0 eq_refl)
    as (Hp & Hr & _).
  split; [exact Hp|exact Hr].
Defined.

Lemma written_directives_parse_back_witness :
  Scheduled (contentLine (@scheduledLine goTime stamp) buy_milk)
  = Some (GoTime.mk 2024 1 15 0 0 0 0%N) /\
  Deadline (contentLine (@deadlineLine goTime stamp) buy_milk)
  = Some (GoTime.mk 2024 1 15 0 0 0 0%N).
Proof.
  destruct (written_directives_parse_back stamp buy_milk eq_refl)
    as (Hs & _ & Hd & _).
  split; [exact Hs|exact Hd].
Defined.

Lemma moveItemDown_moves_or_reports_witness :
  moveItemDown before_22_January_2024 2
               (mkModel (store dated) (orgFile dated) 0 modeAgenda [] None None false)
  = Some (mkModel (store dated) (orgFile dated) 1 modeAgenda
                  (str "Item moved down") None None false).
Proof.
  assert (Hrep : Forall (represents (store dated)) dated_trees).
  { repeat first [apply List.Forall_nil | apply List.Forall_cons
                 | eapply represents_node; [reflexivity|reflexivity|]]. }
  assert (Hnd : NoDup (forest_ptrs dated_trees)).
  { apply (bool_decide_unpack _). vm_compute. exact I. }
  assert (Hht : Forall (fun t => height t <= 1) dated_trees).
  { apply (bool_decide_unpack _). vm_compute. exact I. }
  destruct (@moveItemDown_moves_or_reports goTime before_22_January_2024 1
              (mkModel (store dated) (orgFile dated) 0 modeAgenda [] None None false)
              dated_trees [0; 2] 0 2
              (@mkItem goTime 1 [] (str "A") (Some (GoTime.mk 2024 1 15 0 0 0 0%N)) None
                       [str "SCHEDULED: <2024-01-15 Mon>"] [] false [])
              (@mkItem goTime 1 [] (str "C") None (Some (GoTime.mk 2024 1 16 0 0 0 0%N))
                       [str "DEADLINE: <2024-01-16 Tue>"] [] false [])
              eq_refl Hrep Hnd Hht eq_refl eq_refl eq_refl eq_refl eq_refl)
    as (m' & Hrun & _ & Hsame).
  destruct (Hsame eq_refl) as (_ & _ & Hno & _).
  rewrite Hrun, (Hno eq_refl). reflexivity.
Defined.

Lemma nested_represented : Forall (represents (store nested)) nested_trees.
Proof.
  repeat first [apply List.Forall_nil | apply List.Forall_cons
               | eapply represents_node; [reflexivity|reflexivity|]].
Defined.

Lemma updateCapture_puts_item_first_witness :
  let m' := updateCapture (str " Call Ann ") (KeyMsg KeyEnter (str "enter"))
                          (nested_model modeCapture) in
  Items (m_orgFile m') = [3; 0; 2] /\ cursor m' = 0 /\
  (Title <$> heap m' !! 3) = Some (str "Call Ann").
Proof.
  assert (Hht : Forall (fun t => height t <= 2) nested_trees).
  { apply (bool_decide_unpack _). vm_compute. exact I. }
  destruct (@updateCapture_puts_item_first goTime before_22_January_2024 2
              (str " Call Ann ") (str "enter") (nested_model modeCapture)
              nested_trees)
    as (Hheap & Hroots & _ & _ & _ & Hcur & _).
  - discriminate.
  - reflexivity.
  - exact nested_represented.
  - exact Hht.
  - cbv zeta. split; [exact Hroots|]. split; [exact Hcur|].
    rewrite Hheap. reflexivity.
Defined.

Lemma updateAddSubTask_adds_last_child_witness :
  exists m',
    updateAddSubTask (str "Pack") (KeyMsg KeyEnter (str "enter"))
                     (nested_model modeAddSubTask) = Some m' /\
    Items (m_orgFile m') = [0; 2] /\
    Forall (represents (heap m')) [Node 0 [Node 1 [Node 3 []]]; Node 2 []].
Proof.
  destruct (@updateAddSubTask_adds_last_child goTime (str "Pack") (str "enter")
              (nested_model modeAddSubTask) nested_trees 1
              (mkItem 2 [] (str "B") None None [] [] false []))
    as (m' & Hrun & _ & Hroots & Hrep & _).
  - reflexivity.
  - reflexivity.
  - discriminate.
  - reflexivity.
  - exact nested_represented.
  - exists m'. split; [exact Hrun|]. split; [exact Hroots|exact Hrep].
Defined.

Lemma updateConfirmDelete_removes_the_item_witness :
  exists m',
    updateConfirmDelete before_22_January_2024 3 (KeyMsg KeyOther (str "y"))
                        (nested_model modeConfirmDelete) = Some m' /\
    Items (m_orgFile m') = [0; 2] /\
    Forall (represents (heap m')) [Node 0 []; Node 2 []] /\
    statusMsg m' = str "Item deleted".
Proof.
  assert (Hnd : NoDup (forest_ptrs nested_trees)).
  { apply (bool_decide_unpack _). vm_compute. exact I. }
  assert (Hht : Forall (fun t => height t <= 2) nested_trees).
  { apply (bool_decide_unpack _). vm_compute. exact I. }
  destruct (@updateConfirmDelete_removes_the_item goTime before_22_January_2024 2
              KeyOther (str "y") (nested_model modeConfirmDelete) nested_trees 1)
    as (m' & items & Hrun & Hroots & Hrep & _ & _ & Hst & _).
  - left. reflexivity.
  - reflexivity.
  - reflexivity.
  - exact nested_represented.
  - exact Hnd.
  - exact Hht.
  - exists m'. split; [exact Hrun|]. split; [exact Hroots|].
    split; [exact Hrep|exact Hst].
Defined.

Lemma updateSetDeadline_sets_witness :
  let m' := @updateSetDeadline goTime dates_only stamp (str "2024-02-01")
              (KeyMsg KeyEnter (str "enter")) (nested_model modeSetDeadline) in
  statusMsg m' = str "Deadline set!" /\
  exists it',
    heap m' !! 1 = Some it' /\
    Deadline it' = Some (GoTime.mk 2024 2 1 0 0 0 0%N) /\
    Notes it' = [] /\
    deadlineText it' = str "DEADLINE: <2024-02-01 Thu>" ++ [LF].
Proof.
  destruct (@updateSetDeadline_sets goTime dates_only stamp (str "2024-02-01")
              (str "enter") (nested_model modeSetDeadline) 1
              (mkItem 2 [] (str "B") None None [] [] false [])
              (GoTime.mk 2024 2 1 0 0 0 0%N))
    as (Hst & _ & _ & it' & Hit' & Hdl & _ & _ & Hnone).
  - discriminate.
  - reflexivity.
  - reflexivity.
  - reflexivity.
  - cbv zeta. split; [exact Hst|]. exists it'.
    destruct (Hnone eq_refl) as [Hnotes Htext].
    split; [exact Hit'|]. split; [exact Hdl|]. split; [exact Hnotes|].
    rewrite Htext. reflexivity.
Defined.

Lemma updateSetDeadline_clears_witness :
  let m' := @updateSetDeadline goTime dates_only stamp (str " ")
              (KeyMsg KeyEnter (str "enter"))
              (mkModel (store dated) (orgFile dated) 1 modeSetDeadline []
                       (Some 2) None false) in
  statusMsg m' = str "Deadline cleared!" /\
  exists it', heap m' !! 2 = Some it' /\ Deadline it' = None /\ Notes it' = [].
Proof.
  destruct (@updateSetDeadline_clears goTime dates_only stamp (str " ")
              (str "enter")
              (mkModel (store dated) (orgFile dated) 1 modeSetDeadline []
                       (Some 2) None false) 2
              (@mkItem goTime 1 [] (str "C") None (Some (GoTime.mk 2024 1 16 0 0 0 0%N))
                       [str "DEADLINE: <2024-01-16 Tue>"] [] false []))
    as (Hst & _ & _ & it' & Hit' & Hdl & _ & _ & Hsub & Hclean & _).
  - reflexivity.
  - reflexivity.
  - reflexivity.
  - cbv zeta. split; [exact Hst|]. exists it'.
    split; [exact Hit'|]. split; [exact Hdl|].
    destruct (Notes it') as [|note notes]; [reflexivity|].
    apply Forall_cons in Hclean as [Hnote _].
    apply sublist_cons_l in Hsub as (k1 & k2 & Hk & _).
    destruct k1 as [|x [|y k1]]; try discriminate.
    injection Hk as <- _. discriminate.
Defined.

Lemma updateEditMode_keeps_untouched_notes_witness :
  let m := mkModel report_store (mkOrgFile todo_org [0]) 0 modeEdit [] (Some 0)
                   None false in
  heap (updateEditMode (str "SCHEDULED: <2024-01-15 Mon>")
                       (KeyMsg KeyEsc (str "esc")) m)
  = report_store.
Proof.
  cbv zeta.
  destruct (@updateEditMode_keeps_untouched_notes goTime (str "esc")
              (mkModel report_store (mkOrgFile todo_org [0]) 0 modeEdit [] (Some 0)
                       None false) 0
              (@mkItem goTime 1 StateTODO (str "T") (Some stamp) None
                       [str "SCHEDULED: <2024-01-15 Mon>"] [1] false []))
    as (_ & _ & _ & _ & Hkeep & _).
  - reflexivity.
  - reflexivity.
  - repeat constructor.
  - apply Hkeep. discriminate.
Defined.
